(** * Products API: validation gate, error handler and product model

    A shallow embedding of the request-validation middleware
    ([src/middleware/validation.js]), the Joi schemas of
    [src/validation/schemas.js], the product routes, the central error
    handler and the [Product] model of the Products API, together with
    the properties of the product listing and of the product store.

    Conventions of the embedding.
    - A JavaScript number is the rational it denotes, kept in lowest
      terms ([Qred]); [Infinity] and [-Infinity] are separate values,
      and [-0] is [0].  The schemas and the listing compute on these
      rationals as if no operation rounded.  Module [Binary64] gives
      the rounding of IEEE 754 doubles; it decides which literals Joi
      reads as numbers, and [Product.pre_save_double] is the pre-save
      middleware as the doubles compute it.
    - A JavaScript string is a [string] of code units below 256.
    - A JavaScript object used as a record of request fields is a
      [gmap string value]: key order is not observable here.
    - Joi is a dependency of the repository, not part of it.  Module
      [Joi] gives the part of its validation algorithm that the schemas
      of this repository exercise. *)

From Stdlib Require Import QArith Qround Qabs Qpower ZArith String Ascii List Lia.
From Stdlib Require Qcanon.
From stdpp Require Import gmap strings list fin_maps.

Close Scope Q_scope.

(** Method chaining, [s |> trim |> min 1], reads as [Joi.string().trim().min(1)]. *)
Notation "s |> f" := (f s) (at level 45, left associativity, only parsing).

(* ===================================================================== *)
(** ** JavaScript values and the built-ins the code calls                *)
(* ===================================================================== *)

Module JS.

(** The values a parsed JSON body or a parsed query string can hold in
    one field.  [VComposite] stands for an array or a nested object. *)
Inductive value : Type :=
| VNull
| VBool (b : bool)
| VNum (q : Q)
| VInfinity (negative : bool)
| VStr (s : string)
| VComposite.

(** A number literal, in lowest terms. *)
Definition num (q : Q) : value := VNum (Qred q).

(** [x < y] and [x > y] on numbers. *)
Definition Qlt_bool (x y : Q) : bool := negb (Qle_bool y x).

(** ToBoolean, on a property that may be absent ([undefined]). *)
Definition truthy (v : option value) : bool :=
  match v with
  | None => false
  | Some VNull => false
  | Some (VBool b) => b
  | Some (VNum q) => negb (Qeq_bool q 0)
  | Some (VInfinity _) => true
  | Some (VStr s) => negb (String.eqb s "")
  | Some VComposite => true
  end.

(** [a < b] on two properties: the comparison the code applies to two
    validated numbers.  A comparison with [undefined] is false. *)
Definition lt (a b : option value) : bool :=
  match a, b with
  | Some (VNum x), Some (VNum y) => Qlt_bool x y
  | Some (VInfinity true), Some (VNum _) => true
  | Some (VNum _), Some (VInfinity false) => true
  | Some (VInfinity true), Some (VInfinity false) => true
  | _, _ => false
  end.

(** [Math.round]: to the nearest integer, halves towards +infinity. *)
Definition Math_round (x : Q) : Z := Qfloor (x + (1 # 2))%Q.

(** [Math.ceil]. *)
Definition Math_ceil (x : Q) : Z := Qceiling x.

(** [Math.trunc]: towards zero. *)
Definition Math_trunc (x : Q) : Z :=
  if Qle_bool 0 x then Qfloor x else Qceiling x.

(** [Math.pow(10, n)] for a natural exponent. *)
Definition pow10 (n : nat) : Z := Z.pow 10 (Z.of_nat n).

(** White space of [String.prototype.trim] and of the regular
    expression class [\s], among the code units below 256: tab to
    carriage return, space, and the no-break space U+00A0. *)
Definition is_space (c : ascii) : bool :=
  let n := nat_of_ascii c in
  (n =? 32)%nat || ((9 <=? n)%nat && (n <=? 13)%nat) || (n =? 160)%nat.

Fixpoint trimStart (s : string) : string :=
  match s with
  | String c r => if is_space c then trimStart r else s
  | EmptyString => EmptyString
  end.

Fixpoint trimEnd (s : string) : string :=
  match s with
  | String c r =>
      match trimEnd r with
      | EmptyString => if is_space c then EmptyString else String c EmptyString
      | r' => String c r'
      end
  | EmptyString => EmptyString
  end.

(** [String.prototype.trim]. *)
Definition trim (s : string) : string := trimEnd (trimStart s).

(** [String.prototype.toLowerCase] on the letters A-Z. *)
Definition lower (c : ascii) : ascii :=
  let n := nat_of_ascii c in
  if (65 <=? n)%nat && (n <=? 90)%nat then ascii_of_nat (n + 32) else c.

Fixpoint toLowerCase (s : string) : string :=
  match s with
  | String c r => String (lower c) (toLowerCase r)
  | EmptyString => EmptyString
  end.

(** Does [s] occur inside [t]?  ([String.prototype.includes]) *)
Fixpoint includes (t s : string) : bool :=
  String.prefix s t ||
  match t with
  | String _ r => includes r s
  | EmptyString => false
  end.

(** *** Decimal literals

    Joi turns a string into a number when, between optional white
    space, it is an optional sign, then digits with an optional
    fraction or a dot followed by digits, then an optional exponent
    ([e] or [E], an optional sign, digits); it reads the number with
    [parseFloat]. *)

Definition digit (c : ascii) : option Z :=
  let n := nat_of_ascii c in
  if (48 <=? n)%nat && (n <=? 57)%nat then Some (Z.of_nat (n - 48)) else None.

(** Longest prefix of digits: its value, its length, and the rest. *)
Fixpoint digits (acc : Z) (len : nat) (s : string) : Z * nat * string :=
  match s with
  | String c r =>
      match digit c with
      | Some d => digits (10 * acc + d) (S len) r
      | None => (acc, len, s)
      end
  | EmptyString => (acc, len, s)
  end.

(** An optional sign: [true] for a leading minus. *)
Definition sign (s : string) : bool * string :=
  match s with
  | String "-" r => (true, r)
  | String "+" r => (false, r)
  | _ => (false, s)
  end.

(** The exponent part, which must end the literal. *)
Definition exponent (s : string) : option Z :=
  match s with
  | EmptyString => Some 0%Z
  | String c r =>
      if (c =? "e")%char || (c =? "E")%char then
        let '(neg, r1) := sign r in
        match digits 0 0 r1 with
        | (_, O, _) => None
        | (e, _, EmptyString) => Some (if neg then - e else e)%Z
        | _ => None
        end
      else None
  end.

(** [10^e] as a rational, for any integer [e]. *)
Definition Qpow10 (e : Z) : Q :=
  match e with
  | Z0 => 1%Q
  | Zpos p => inject_Z (Z.pow 10 (Zpos p))
  | Zneg p => (1 # Z.to_pos (Z.pow 10 (Zpos p)))%Q
  end.

(** The number a string spells, if it spells one. *)
Definition parseNumber (s : string) : option Q :=
  let '(neg, r0) := sign (trim s) in
  let '(ip, ilen, r1) := digits 0 0 r0 in
  let '(fp, flen, r2) :=
    match r1 with
    | String "." r => digits 0 0 r
    | _ => (0%Z, O, r1)
    end in
  let dotted := match r1 with String "." _ => true | _ => false end in
  if (ilen =? 0)%nat && ((flen =? 0)%nat || negb dotted) then None
  else
    match exponent r2 with
    | None => None
    | Some e =>
        let mant := (inject_Z ip + (fp # Z.to_pos (pow10 flen)))%Q in
        let q := (mant * Qpow10 e)%Q in
        Some (Qred (if neg then - q else q)%Q)
    end.

End JS.

(* ===================================================================== *)
(** ** IEEE 754 doubles                                                  *)
(* ===================================================================== *)

Module Binary64.

(** A finite double is the rational it holds exactly.  The functions
    below give, for any rational, the double that IEEE 754 arithmetic
    in round-to-nearest mode returns in its place. *)

(** [floor(log2 |x|)] of a rational that is not zero. *)
Definition ilog2 (x : Q) : Z :=
  let e := (Z.log2 (Z.abs (Qnum x)) - Z.log2 (Zpos (Qden x)))%Z in
  if Qle_bool (2 ^ e) (Qabs x) then e else (e - 1)%Z.

(** To the nearest integer, a half to the even one. *)
Definition nearest_even (y : Q) : Z :=
  let f := Qfloor y in
  match (y - inject_Z f ?= 1 # 2)%Q with
  | Lt => f
  | Gt => (f + 1)%Z
  | Eq => if Z.even f then f else (f + 1)%Z
  end.

(** The gap between the doubles around [x]: 53 significant bits, and
    no exponent below that of the subnormal numbers. *)
Definition ulp (x : Q) : Q := (2 ^ (Z.max (ilog2 x) (-1022) - 52))%Q.

(** The double nearest to [x], a tie going to the even significand.
    [None] is an overflow: [Infinity] with the sign of [x]. *)
Definition round (x : Q) : option Q :=
  if Qeq_bool x 0 then Some 0%Q
  else
    let r := (inject_Z (nearest_even (x / ulp x)) * ulp x)%Q in
    if Qle_bool (2 ^ 1024) (Qabs r) then None else Some (Qred r).

(** *** Number::toString *)

(** [floor(log10 x)] of a positive rational: an estimate from the
    binary exponent, settled by comparison. *)
Fixpoint settle_down (x : Q) (e : Z) (fuel : nat) : Z :=
  match fuel with
  | O => e
  | S fuel' => if Qle_bool (10 ^ e) x then e else settle_down x (e - 1) fuel'
  end.

Fixpoint settle_up (x : Q) (e : Z) (fuel : nat) : Z :=
  match fuel with
  | O => e
  | S fuel' => if Qle_bool (10 ^ (e + 1)) x then settle_up x (e + 1) fuel' else e
  end.

Definition ilog10 (x : Q) : Z :=
  settle_up x (settle_down x (ilog2 x * 30103 / 100000) 3) 3.

(** Does the decimal [c] read back as the double [x]? *)
Definition reads_as (x c : Q) : bool :=
  match round c with
  | Some y => Qeq_bool y x
  | None => false
  end.

(** The decimal of [k] significant digits that reads back as the
    double [x], if there is one: the nearer of the two around [x], the
    even one on a tie. *)
Definition digits (x : Q) (k : Z) : option Q :=
  let unit := (10 ^ (ilog10 x + 1 - k))%Q in
  let s := Qfloor (x / unit) in
  let below := (inject_Z s * unit)%Q in
  let above := (below + unit)%Q in
  match reads_as x below, reads_as x above with
  | true, true =>
      match (x - below ?= above - x)%Q with
      | Lt => Some below
      | Gt => Some above
      | Eq => Some (if Z.even s then below else above)
      end
  | true, false => Some below
  | false, true => Some above
  | false, false => None
  end.

Fixpoint fewest (x : Q) (k : Z) (fuel : nat) : Q :=
  match fuel with
  | O => x
  | S fuel' =>
      match digits x k with
      | Some c => c
      | None => fewest x (k + 1) fuel'
      end
  end.

(** The number that [toString] prints for the double [x]: the decimal
    of fewest significant digits that reads back as [x]. *)
Definition shortest (x : Q) : Q :=
  Qred (if Qeq_bool x 0 then 0
        else if Qle_bool 0 x then fewest x 1 17
        else - fewest (- x) 1 17)%Q.

(** [toString] prints an exponent from [1e21] on and below [1e-6]. *)
Definition prints_exponent (x : Q) : bool :=
  negb (Qeq_bool x 0)
  && (Qle_bool (10 ^ 21) (Qabs x) || negb (Qle_bool (10 ^ (-6)) (Qabs x))).

End Binary64.

(* ===================================================================== *)
(** ** Joi: the validation algorithm behind the schemas                  *)
(* ===================================================================== *)

Module Joi.
Import JS.

(** Options of [schema.validate(value, options)]; [convert] keeps its
    default, [true], throughout the repository. *)
Record prefs := {
  abortEarly : bool;
  allowUnknown : bool;
  stripUnknown : bool
}.

Inductive kind := string_t | number_t.

Inductive presence := optional_p | required_p.

(** The rules a chain adds, in chain order. *)
Inductive rule :=
| trim_r
| min_r (limit : Z)
| max_r (limit : Z)
| integer_r
| positive_r
| precision_r (limit : nat).

(** A schema for one field: [Joi.string()] or [Joi.number()] and what
    the chain after it set. *)
Record schema := {
  _type : kind;
  _rules : list rule;
  _valids : list String.string;
  _only : bool;
  _presence : presence;
  _default : option value;
  _messages : list (String.string * String.string)
}.

(** [detail.context.value]: what was found at the path of the error. *)
Inductive offending :=
| undefined
| scalar (v : value)
| whole (o : gmap String.string value).

(** [detail.message]: the text the schema gives for the error code with
    [.messages(...)], or else Joi's own template for that code, filled
    in with the label. *)
Inductive message :=
| Text (text : String.string)
| Template (code label : String.string).

(** One entry of [error.details]. *)
Record detail := {
  detail_message : message;
  detail_path : list String.string;
  detail_type : String.string;
  detail_value : offending
}.

Fixpoint assoc {A} (k : String.string) (l : list (String.string * A)) : option A :=
  match l with
  | (k', a) :: l' => if String.eqb k k' then Some a else assoc k l'
  | [] => None
  end.

Definition render (msgs : list (String.string * String.string)) (code label : String.string) : message :=
  match assoc code msgs with
  | Some text => Text text
  | None => Template code label
  end.

(** [helpers.error(code)] inside the validation of field [key]. *)
Definition error (s : schema) (key code : String.string) (v : offending) : detail :=
  {| detail_message := render (_messages s) code key;
     detail_path := [key];
     detail_type := code;
     detail_value := v |}.

Definition is_trim (r : rule) : bool :=
  match r with trim_r => true | _ => false end.

Definition is_min0 (r : rule) : bool :=
  match r with min_r 0 => true | _ => false end.

(** [schema.$_getRule('precision')]. *)
Fixpoint getPrecision (rs : list rule) : option nat :=
  match rs with
  | precision_r limit :: _ => Some limit
  | _ :: rs' => getPrecision rs'
  | [] => None
  end.

(** Type coercion, applied to a string input when [convert] is on:
    a string schema trims, a number schema reads a decimal literal. *)
Definition coerce (s : schema) (v : value) : value :=
  match _type s, v with
  | string_t, VStr x => if existsb is_trim (_rules s) then VStr (trim x) else v
  | number_t, VStr x =>
      match parseNumber x with
      | Some q => VNum q
      | None => v
      end
  | _, _ => v
  end.

(** The coercion of a number refuses a literal that a double cannot
    hold digit for digit.  The literal is read with [parseFloat]; when
    it has an exponent, its significant digits are compared with those
    that [String] prints for the double; when it has none, the printed
    double is compared with the literal in normal form, unless the
    double prints with an exponent.  The normal form of a literal that
    is a dot followed by zeros only is not ["0"]. *)
Definition has_exponent (x : String.string) : bool :=
  includes x "e" || includes x "E".

Definition no_integer_digits (x : String.string) : bool :=
  match (sign (trim x)).2 with
  | String "." _ => true
  | _ => false
  end.

Definition unsafe_literal (x : String.string) (q : Q) : bool :=
  match Binary64.round q with
  | None => true
  | Some d =>
      if has_exponent x then negb (Qeq_bool (Binary64.shortest d) q)
      else if Binary64.prints_exponent d then false
      else (no_integer_digits x && Qeq_bool q 0)
           || negb (Qeq_bool (Binary64.shortest d) q)
  end.

Definition unsafe (s : schema) (v : value) : bool :=
  match _type s, v with
  | number_t, VStr x =>
      match parseNumber x with
      | Some q => unsafe_literal x q
      | None => false
      end
  | _, _ => false
  end.

(** [Number.MAX_SAFE_INTEGER]. *)
Definition MAX_SAFE_INTEGER : Z := 2 ^ 53 - 1.

(** The base check of the type.  For a number under [convert], a
    [precision] rule rounds the value here:
    [Math.round(value * precision) / precision]. *)
Definition base (s : schema) (key : String.string) (v : value) : value * option detail :=
  match _type s with
  | string_t =>
      match v with
      | VStr "" =>
          if existsb is_min0 (_rules s) then (v, None)
          else (v, Some (error s key "string.empty" (scalar v)))
      | VStr _ => (v, None)
      | _ => (v, Some (error s key "string.base" (scalar v)))
      end
  | number_t =>
      match v with
      | VInfinity _ => (v, Some (error s key "number.infinity" (scalar v)))
      | VNum q =>
          let rounded :=
            match getPrecision (_rules s) with
            | Some limit =>
                let precision := inject_Z (pow10 limit) in
                Qred (inject_Z (Math_round (q * precision)) / precision)
            | None => q
            end in
          if Qlt_bool (inject_Z MAX_SAFE_INTEGER) q || Qlt_bool q (inject_Z (- MAX_SAFE_INTEGER))
          then (VNum rounded, Some (error s key "number.unsafe" (scalar v)))
          else (VNum rounded, None)
      | _ => (v, Some (error s key "number.base" (scalar v)))
      end
  end.

(** One rule on a value of the right type.  [trim] and [precision] are
    applied during coercion and skipped here. *)
Definition test (s : schema) (key : String.string) (r : rule) (v : value) : option detail :=
  match r, v with
  | min_r limit, VStr x =>
      if (limit <=? Z.of_nat (String.length x))%Z then None
      else Some (error s key "string.min" (scalar v))
  | max_r limit, VStr x =>
      if (Z.of_nat (String.length x) <=? limit)%Z then None
      else Some (error s key "string.max" (scalar v))
  | min_r limit, VNum q =>
      if Qle_bool (inject_Z limit) q then None
      else Some (error s key "number.min" (scalar v))
  | max_r limit, VNum q =>
      if Qle_bool q (inject_Z limit) then None
      else Some (error s key "number.max" (scalar v))
  | integer_r, VNum q =>
      if Qeq_bool (inject_Z (Math_trunc q) - q) 0 then None
      else Some (error s key "number.integer" (scalar v))
  | positive_r, VNum q =>
      if Qlt_bool 0 q then None
      else Some (error s key "number.positive" (scalar v))
  | _, _ => None
  end.

(** The loop over the rules: with [abortEarly] the first failure is the
    result, without it every failure is collected. *)
Fixpoint rules (p : prefs) (s : schema) (key : String.string)
    (rs : list rule) (v : value) (errors : list detail) : list detail :=
  match rs with
  | [] => errors
  | r :: rs' =>
      match test s key r v with
      | Some e => if abortEarly p then [e] else rules p s key rs' v (errors ++ [e])
      | None => rules p s key rs' v errors
      end
  end.

(** What the validation of one field returns. *)
Record result := {
  value_of : option value;
  errors_of : list detail
}.

(** The last step: an [undefined] value takes the default. *)
Definition finalize (s : schema) (v : option value) (errors : list detail) : result :=
  {| value_of := match v with Some _ => v | None => _default s end;
     errors_of := errors |}.

(** Validation of the field [key] of an object: coercion, presence,
    allowed values, base type, rules, default.  An error of the
    coercion is the only error of the field, and its offending value
    is the input as it came. *)
Definition validate_field (p : prefs) (s : schema) (key : String.string)
    (item : option value) : result :=
  match item with
  | None =>
      match _presence s with
      | required_p => finalize s None [error s key "any.required" undefined]
      | optional_p => finalize s None []
      end
  | Some input =>
      let v := coerce s input in
      if unsafe s input
      then finalize s (Some v) [error s key "number.unsafe" (scalar input)]
      else
      let allowed :=
        match v with
        | VStr x => existsb (String.eqb x) (_valids s)
        | _ => false
        end in
      if allowed then finalize s (Some v) []
      else
        let errors := if _only s then [error s key "any.only" (scalar v)] else [] in
        if _only s && abortEarly p then finalize s (Some v) errors
        else
          match base s key v with
          | (v', Some e) => finalize s (Some v') (errors ++ [e])
          | (v', None) => finalize s (Some v') (rules p s key (_rules s) v' errors)
          end
  end.

(** *** Object schemas *)

(** What a [custom] method returns: [helpers.error(code, local)] or a
    value. *)
Inductive custom_result :=
| helpers_error (code : String.string) (local : list (String.string * String.string))
| returned (o : gmap String.string value).

Inductive object_rule :=
| object_min (limit : Z)
| object_custom (method : gmap String.string value → custom_result).

(** [Joi.object({...})] and the rules chained after it. *)
Record object_schema := {
  keys : list (String.string * schema);
  object_rules : list object_rule
}.

(** An error at the root of the validated object: empty path, label
    ["value"]. *)
Definition object_error (code : String.string) (o : gmap String.string value) : detail :=
  {| detail_message := Template code "value";
     detail_path := [];
     detail_type := code;
     detail_value := whole o |}.

(** The children, in the order of the schema.  [inl] is the early
    return under [abortEarly]; [inr] carries the object with each
    validated child written back, and the errors collected so far. *)
Fixpoint validate_keys (p : prefs) (ks : list (String.string * schema))
    (o : gmap String.string value) (errors : list detail)
    : list detail + gmap String.string value * list detail :=
  match ks with
  | [] => inr (o, errors)
  | (key, child) :: ks' =>
      let item := o !! key in
      let r := validate_field p child key item in
      match errors_of r with
      | [] =>
          match value_of r with
          | Some v => validate_keys p ks' (<[key := v]> o) errors
          | None => validate_keys p ks' (delete key o) errors
          end
      | es =>
          if abortEarly p then inl es
          else
            match value_of r with
            | Some v => validate_keys p ks' (<[key := v]> o) (errors ++ es)
            | None => validate_keys p ks' o (errors ++ es)
            end
      end
  end.

Definition known (S : object_schema) (key : String.string) : bool :=
  existsb (String.eqb key) (map fst (keys S)).

(** Keys that the schema does not name: stripped under [stripUnknown],
    otherwise an error each unless [allowUnknown]. *)
Definition unknown (p : prefs) (S : object_schema)
    (o : gmap String.string value) (errors : list detail)
    : list detail + gmap String.string value * list detail :=
  let o' := if stripUnknown p then filter (λ kv, known S kv.1 = true) o else o in
  let unprocessed := filter (λ kv, known S kv.1 = false) (map_to_list o') in
  let report kv :=
    {| detail_message := Template "object.unknown" kv.1;
       detail_path := [kv.1];
       detail_type := "object.unknown";
       detail_value := scalar kv.2 |} in
  if allowUnknown p then inr (o', errors)
  else
    match unprocessed with
    | [] => inr (o', errors)
    | kv :: _ =>
        if abortEarly p then inl [report kv]
        else inr (o', errors ++ map report unprocessed)
    end.

(** The rules of the object itself, run on the object as the children
    left it. *)
Fixpoint validate_object_rules (p : prefs) (rs : list object_rule)
    (o : gmap String.string value) (errors : list detail)
    : gmap String.string value * list detail :=
  match rs with
  | [] => (o, errors)
  | object_min limit :: rs' =>
      if (limit <=? Z.of_nat (size o))%Z then validate_object_rules p rs' o errors
      else if abortEarly p then (o, [object_error "object.min" o])
      else validate_object_rules p rs' o (errors ++ [object_error "object.min" o])
  | object_custom method :: rs' =>
      match method o with
      | returned o' => validate_object_rules p rs' o' errors
      | helpers_error code _ =>
          if abortEarly p then (o, [object_error code o])
          else validate_object_rules p rs' o (errors ++ [object_error code o])
      end
  end.

(** [{ error, value }] *)
Record validation := {
  validation_error : option (list detail);
  validation_value : gmap String.string value
}.

(** [schema.validate(value, options)] for an object schema.  An error
    among the children or the unknown keys is an error of the base type
    and ends the validation: the rules of the object run only on an
    object whose children are all valid. *)
Definition validate (S : object_schema) (input : gmap String.string JS.value)
    (p : prefs) : validation :=
  match validate_keys p (keys S) input [] with
  | inl es => {| validation_error := Some es; validation_value := input |}
  | inr (o, errors) =>
      match unknown p S o errors with
      | inl es => {| validation_error := Some es; validation_value := o |}
      | inr (o', []) =>
          match validate_object_rules p (object_rules S) o' [] with
          | (o'', []) => {| validation_error := None; validation_value := o'' |}
          | (o'', es) => {| validation_error := Some es; validation_value := o'' |}
          end
      | inr (o', es) => {| validation_error := Some es; validation_value := o' |}
      end
  end.

(** *** The chain methods the schemas use *)

Class Min (S : Type) := min : Z → S → S.

Definition add_rule (r : rule) (s : schema) : schema :=
  {| _type := _type s; _rules := _rules s ++ [r]; _valids := _valids s;
     _only := _only s; _presence := _presence s; _default := _default s;
     _messages := _messages s |}.

Definition string : schema :=
  {| _type := string_t; _rules := []; _valids := []; _only := false;
     _presence := optional_p; _default := None; _messages := [] |}.

Definition number : schema :=
  {| _type := number_t; _rules := []; _valids := []; _only := false;
     _presence := optional_p; _default := None; _messages := [] |}.

Definition object (ks : list (String.string * schema)) : object_schema :=
  {| keys := ks; object_rules := [] |}.

Definition trim : schema → schema := add_rule trim_r.
Definition max (limit : Z) : schema → schema := add_rule (max_r limit).
Definition integer : schema → schema := add_rule integer_r.
Definition positive : schema → schema := add_rule positive_r.
Definition precision (limit : nat) : schema → schema := add_rule (precision_r limit).

#[global] Instance min_field : Min schema := λ limit, add_rule (min_r limit).

#[global] Instance min_object : Min object_schema := λ limit S,
  {| keys := keys S; object_rules := object_rules S ++ [object_min limit] |}.

Definition custom (method : gmap String.string value → custom_result)
    (S : object_schema) : object_schema :=
  {| keys := keys S; object_rules := object_rules S ++ [object_custom method] |}.

Definition allow (v : String.string) (s : schema) : schema :=
  {| _type := _type s; _rules := _rules s; _valids := _valids s ++ [v];
     _only := _only s; _presence := _presence s; _default := _default s;
     _messages := _messages s |}.

Definition valid (vs : list String.string) (s : schema) : schema :=
  {| _type := _type s; _rules := _rules s; _valids := _valids s ++ vs;
     _only := true; _presence := _presence s; _default := _default s;
     _messages := _messages s |}.

Definition required (s : schema) : schema :=
  {| _type := _type s; _rules := _rules s; _valids := _valids s;
     _only := _only s; _presence := required_p; _default := _default s;
     _messages := _messages s |}.

Definition optional (s : schema) : schema :=
  {| _type := _type s; _rules := _rules s; _valids := _valids s;
     _only := _only s; _presence := optional_p; _default := _default s;
     _messages := _messages s |}.

Definition default (v : value) (s : schema) : schema :=
  {| _type := _type s; _rules := _rules s; _valids := _valids s;
     _only := _only s; _presence := _presence s; _default := Some v;
     _messages := _messages s |}.

Definition messages (ms : list (String.string * String.string)) (s : schema) : schema :=
  {| _type := _type s; _rules := _rules s; _valids := _valids s;
     _only := _only s; _presence := _presence s; _default := _default s;
     _messages := ms ++ _messages s |}.

End Joi.

(* ===================================================================== *)
(** ** src/validation/schemas.js                                         *)
(* ===================================================================== *)

Module Schemas.
Import JS.

(** Product validation schemas *)
Definition createProductSchema : Joi.object_schema :=
  Joi.object [
    ("name", Joi.string
      |> Joi.trim
      |> Joi.min 1
      |> Joi.max 100
      |> Joi.required
      |> Joi.messages [
           ("string.empty", "Product name is required");
           ("string.min", "Product name must be at least 1 character");
           ("string.max", "Product name cannot exceed 100 characters");
           ("any.required", "Product name is required") ]);
    ("description", Joi.string
      |> Joi.trim
      |> Joi.max 500
      |> Joi.allow ""
      |> Joi.optional
      |> Joi.messages [
           ("string.max", "Description cannot exceed 500 characters") ]);
    ("price", Joi.number
      |> Joi.positive
      |> Joi.precision 2
      |> Joi.required
      |> Joi.messages [
           ("number.positive", "Price must be a positive number");
           ("number.precision", "Price cannot have more than 2 decimal places");
           ("any.required", "Product price is required") ]);
    ("category", Joi.string
      |> Joi.trim
      |> Joi.min 1
      |> Joi.required
      |> Joi.messages [
           ("string.empty", "Product category is required");
           ("string.min", "Product category is required");
           ("any.required", "Product category is required") ]);
    ("stock", Joi.number
      |> Joi.integer
      |> Joi.min 0
      |> Joi.required
      |> Joi.messages [
           ("number.integer", "Stock must be an integer");
           ("number.min", "Stock cannot be negative");
           ("any.required", "Stock quantity is required") ])
  ].

Definition updateProductSchema : Joi.object_schema :=
  Joi.object [
    ("name", Joi.string
      |> Joi.trim
      |> Joi.min 1
      |> Joi.max 100
      |> Joi.optional
      |> Joi.messages [
           ("string.empty", "Product name cannot be empty");
           ("string.min", "Product name must be at least 1 character");
           ("string.max", "Product name cannot exceed 100 characters") ]);
    ("description", Joi.string
      |> Joi.trim
      |> Joi.max 500
      |> Joi.allow ""
      |> Joi.optional
      |> Joi.messages [
           ("string.max", "Description cannot exceed 500 characters") ]);
    ("price", Joi.number
      |> Joi.positive
      |> Joi.precision 2
      |> Joi.optional
      |> Joi.messages [
           ("number.positive", "Price must be a positive number");
           ("number.precision", "Price cannot have more than 2 decimal places") ]);
    ("category", Joi.string
      |> Joi.trim
      |> Joi.min 1
      |> Joi.optional
      |> Joi.messages [
           ("string.empty", "Product category cannot be empty");
           ("string.min", "Product category cannot be empty") ]);
    ("stock", Joi.number
      |> Joi.integer
      |> Joi.min 0
      |> Joi.optional
      |> Joi.messages [
           ("number.integer", "Stock must be an integer");
           ("number.min", "Stock cannot be negative") ])
  ] |> Joi.min 1. (* At least one field must be provided for update *)

(** Query validation schema *)
Definition querySchema : Joi.object_schema :=
  Joi.object [
    ("page", Joi.number |> Joi.integer |> Joi.min 1 |> Joi.default (num 1));
    ("limit", Joi.number |> Joi.integer |> Joi.min 1 |> Joi.max 100 |> Joi.default (num 10));
    ("sort", Joi.string
      |> Joi.valid ["name"; "price"; "category"; "stock"; "createdAt"; "updatedAt";
                    "-name"; "-price"; "-category"; "-stock"; "-createdAt"; "-updatedAt"]
      |> Joi.default (VStr "-createdAt"));
    ("category", Joi.string |> Joi.trim);
    ("minPrice", Joi.number |> Joi.min 0);
    ("maxPrice", Joi.number |> Joi.min 0);
    ("search", Joi.string |> Joi.trim |> Joi.max 100)
  ] |> Joi.custom (λ value,
    (* Validate that maxPrice is greater than minPrice if both are provided *)
    if truthy (value !! "minPrice") && truthy (value !! "maxPrice")
       && lt (value !! "maxPrice") (value !! "minPrice")
    then Joi.helpers_error "any.invalid"
           [("message", "maxPrice must be greater than or equal to minPrice")]
    else Joi.returned value).

End Schemas.

(* ===================================================================== *)
(** ** src/middleware/validation.js                                      *)
(* ===================================================================== *)

Module Http.

(** The parts of a request that the validation gate reads and writes:
    the parsed JSON body and the parsed query string, each an object. *)
Inductive property := body | query.

Record request := {
  req_body : gmap string JS.value;
  req_query : gmap string JS.value;
  req_params_id : string
}.

Definition get (prop : property) (req : request) : gmap string JS.value :=
  match prop with
  | body => req_body req
  | query => req_query req
  end.

Definition set (prop : property) (v : gmap string JS.value) (req : request) : request :=
  match prop with
  | body => {| req_body := v; req_query := req_query req; req_params_id := req_params_id req |}
  | query => {| req_body := req_body req; req_query := v; req_params_id := req_params_id req |}
  end.

(** One entry of [error.details] in a validation response. *)
Record field_error := {
  field : string;
  message : Joi.message;
  value : Joi.offending
}.

(** [error.details] of the error envelope. *)
Inductive details :=
| field_errors (errors : list field_error)
| duplicate (field : option string) (value : option JS.value)
| other (d : JS.value).

(** The error envelope [{ success: false, error: {...} }]. *)
Record error_envelope := {
  error_message : string;
  error_code : JS.value;
  error_details : option details;
  error_stack : option string
}.

(** [res.status(s).json({ success: false, error })] *)
Record response := {
  status : Z;
  success : bool;
  error : error_envelope
}.

(** A middleware either answers or calls [next()] with the request as
    it left it. *)
Inductive outcome :=
| respond (res : response)
| next (req : request).

End Http.

Module Validation.
Import Http.

Definition validate (schema : Joi.object_schema) (prop : property)
    (req : request) : outcome :=
  let r := Joi.validate schema (get prop req)
             {| Joi.abortEarly := false;   (* Return all validation errors *)
                Joi.allowUnknown := false; (* Don't allow unknown fields *)
                Joi.stripUnknown := true   (* Remove unknown fields *) |} in
  match Joi.validation_error r with
  | Some error_details =>
      let errors := map (λ detail,
        {| field := String.concat "." (Joi.detail_path detail);
           message := Joi.detail_message detail;
           value := Joi.detail_value detail |}) error_details in
      respond {| status := 400;
                 success := false;
                 error := {| error_message := "Validation failed";
                             error_code := JS.VStr "VALIDATION_ERROR";
                             error_details := Some (field_errors errors);
                             error_stack := None |} |}
  | None =>
      (* Replace the original property with the validated and sanitized value *)
      next (set prop (Joi.validation_value r) req)
  end.

End Validation.

(* ===================================================================== *)
(** ** src/routes/products.js                                            *)
(* ===================================================================== *)

Module Routes.
Import Http.

(** What a route produced: the answer of a middleware that did not call
    [next()], or the handler's result, which shows that the handler ran. *)
Inductive served (R : Type) :=
| answered (res : response)
| handled (r : R).
Arguments answered {R} res.
Arguments handled {R} r.

(** [router.verb(path, ...middlewares, handler)] *)
Fixpoint route {R} (stack : list (request → outcome)) (handler : request → R)
    (req : request) : served R :=
  match stack with
  | [] => handled (handler req)
  | middleware :: rest =>
      match middleware req with
      | respond res => answered res
      | next req' => route rest handler req'
      end
  end.

Section products.
Context {R : Type}.
(** [src/middleware/auth.js] and [src/controllers/productController.js]
    are collaborators of the router. *)
Variable auth : request → outcome.
Variables getProducts getProduct createProduct updateProduct deleteProduct
          getProductStats : request → R.

(** GET /api/v1/products/stats *)
Definition get_stats := route [] getProductStats.
(** GET /api/v1/products *)
Definition get_products :=
  route [Validation.validate Schemas.querySchema query] getProducts.
(** GET /api/v1/products/:id *)
Definition get_product := route [] getProduct.
(** POST /api/v1/products *)
Definition post_product :=
  route [auth; Validation.validate Schemas.createProductSchema body] createProduct.
(** PUT /api/v1/products/:id *)
Definition put_product :=
  route [auth; Validation.validate Schemas.updateProductSchema body] updateProduct.
(** DELETE /api/v1/products/:id *)
Definition delete_product := route [auth] deleteProduct.
End products.

End Routes.

(* ===================================================================== *)
(** ** src/middleware/errorHandler.js                                    *)
(* ===================================================================== *)

Module ErrorHandler.
Import JS Http.

(** One entry of [err.errors] of a Mongoose validation error. *)
Record validator_error := {
  val_path : string;
  val_message : string;
  val_value : option JS.value
}.

(** The error object passed to [next(err)]: its name and message, and
    the own properties the handler reads. *)
Record js_error := {
  err_name : string;
  err_message : option string;
  err_code : option JS.value;
  err_statusCode : option Z;
  err_keyValue : option (list (string * JS.value));
  err_errors : option (list validator_error);
  err_details : option JS.value;
  err_stack : option string
}.

(** The local [error] object. *)
Record error_obj := {
  message : option string;
  code : option JS.value;
  statusCode : option Z;
  details : option Http.details
}.

(** The handler either sends a response or itself throws (a
    [TypeError] on [Object.keys(undefined)]). *)
Inductive completion :=
| sent (res : response)
| thrown.

(** [`${field} already exists`] *)
Definition already_exists (field : option string) : string :=
  match field with
  | Some f => f +:+ " already exists"
  | None => "undefined already exists"
  end.

Definition errorHandler (NODE_ENV : option string) (err : js_error) : completion :=
  let error := {| message := err_message err;      (* { ...err }; error.message = err.message *)
                  code := err_code err;
                  statusCode := err_statusCode err;
                  details := other <$> err_details err |} in
  (* Mongoose bad ObjectId *)
  let error :=
    if String.eqb (err_name err) "CastError" then
      {| message := Some "Resource not found";
         code := Some (VStr "INVALID_ID");
         statusCode := Some 404%Z;
         details := None |}
    else error in
  (* Mongoose duplicate key *)
  let duplicate_key :=
    match err_code err with
    | Some (VNum q) => Qeq_bool q (inject_Z 11000)
    | _ => false
    end in
  match (if duplicate_key then
           match err_keyValue err with
           | None => None
           | Some keyValue =>
               let field := head (map fst keyValue) in
               Some {| message := Some (already_exists field);
                       code := Some (VStr "DUPLICATE_FIELD");
                       statusCode := Some 400%Z;
                       details := Some (duplicate field (field ≫= λ f, Joi.assoc f keyValue)) |}
           end
         else Some error) with
  | None => thrown
  | Some error =>
  (* Mongoose validation error *)
  match (if String.eqb (err_name err) "ValidationError" then
           match err_errors err with
           | None => None
           | Some vals =>
               let errors := map (λ val,
                 {| field := val_path val;
                    Http.message := Joi.Text (val_message val);
                    Http.value := match val_value val with
                             | Some v => Joi.scalar v
                             | None => Joi.undefined
                             end |}) vals in
               Some {| message := Some "Validation failed";
                       code := Some (VStr "VALIDATION_ERROR");
                       statusCode := Some 400%Z;
                       details := Some (field_errors errors) |}
           end
         else Some error) with
  | None => thrown
  | Some error =>
  (* JWT errors *)
  let error :=
    if String.eqb (err_name err) "JsonWebTokenError" then
      {| message := Some "Invalid token";
         code := Some (VStr "INVALID_TOKEN");
         statusCode := Some 401%Z;
         details := None |}
    else error in
  let error :=
    if String.eqb (err_name err) "TokenExpiredError" then
      {| message := Some "Token expired";
         code := Some (VStr "TOKEN_EXPIRED");
         statusCode := Some 401%Z;
         details := None |}
    else error in
  (* Default to 500 server error *)
  let statusCode' :=
    match statusCode error with
    | Some 0%Z | None => 500%Z
    | Some n => n
    end in
  let message' :=
    match message error with
    | Some "" | None => "Internal Server Error"
    | Some m => m
    end in
  let code' :=
    if truthy (code error) then default VNull (code error) else VStr "INTERNAL_ERROR" in
  sent {| status := statusCode';
          success := false;
          error := {| error_message := message';
                      error_code := code';
                      error_details :=
                        match details error with
                        | Some (other d) => if truthy (Some d) then details error else None
                        | d => d
                        end;
                      error_stack :=
                        if bool_decide (NODE_ENV = Some "development") then err_stack err
                        else None |} |}
  end end.

End ErrorHandler.

(* ===================================================================== *)
(** ** src/models/Product.js                                             *)
(* ===================================================================== *)

Module Product.
Import JS.

(** A product document: the fields of [productSchema] and the two
    timestamps that [timestamps: true] adds. *)
Record document := {
  name : string;
  description : option string;
  price : Q;
  category : string;
  stock : Z;
  createdAt : Z;
  updatedAt : Z
}.

(** Virtual for availability status *)
Definition isAvailable (this : document) : bool := (0 <? stock this)%Z.

Definition set_price (p : Q) (this : document) : document :=
  {| name := name this; description := description this; price := p;
     category := category this; stock := stock this;
     createdAt := createdAt this; updatedAt := updatedAt this |}.


(** [Math.round(price * 100) / 100] as the doubles compute it: the
    product is rounded to a double, [Math.round] gives an integer,
    which is a double, and the quotient is rounded to a double.
    [None]: the product overflows, and the result is [Infinity] with
    the sign of the price. *)
Definition round_price (price : Q) : option Q :=
  match Binary64.round (price * 100) with
  | Some product => Binary64.round (inject_Z (Math_round product) / 100)
  | None => None
  end.

(** Pre-save middleware to ensure price has max 2 decimal places, as
    the doubles compute it.  [None]: the price becomes [Infinity] or
    [-Infinity], which a [document] does not hold. *)
Definition pre_save_double (this : document) : option document :=
  if truthy (Some (VNum (price this))) then
    match round_price (price this) with
    | Some rounded => Some (set_price rounded this)
    | None => None
    end
  else Some this.

End Product.

(* ===================================================================== *)
(** ** The product store and the product controller                      *)
(* ===================================================================== *)

Module Store.
Import JS.

(** The fields of a create payload, as the validation gate hands them
    to the controller. *)
Record product_data := {
  data_name : string;
  data_description : option string;
  data_price : Q;
  data_category : string;
  data_stock : Z
}.

(** The fields of an update payload: any of them may be absent. *)
Record partial_data := {
  new_name : option string;
  new_description : option string;
  new_price : option Q;
  new_category : option string;
  new_stock : option Z
}.

(** Modelled from the spec: the product controller
    ([src/controllers/productController.js]) is not among the sources.
    "create(data) -> new Product"; "Side effects: create/update normalize
    price to 2 decimals before persisting": the new document is saved,
    which runs the pre-save middleware of [src/models/Product.js].  The
    identifier and the time are assigned by the store. *)
Definition new_document (now : Z) (data : product_data) : Product.document :=
  {| Product.name := data_name data;
     Product.description := data_description data;
     Product.price := data_price data;
     Product.category := data_category data;
     Product.stock := data_stock data;
     Product.createdAt := now;
     Product.updatedAt := now |}.

(** Modelled from the spec: the product controller is not among the
    sources.  The saving of a document: the pre-save middleware runs
    on it.  The payloads come through the gate, which lets no price
    above [Number.MAX_SAFE_INTEGER] through; a price so large that the
    middleware makes it [Infinity] is left as it is. *)
Definition save (doc : Product.document) : Product.document :=
  default doc (Product.pre_save_double doc).

(** Modelled from the spec: the product controller is not among the
    sources.  "create(data) -> new Product": the new document is saved
    and written to the store under its identifier. *)
Definition create (id : string) (now : Z) (data : product_data)
    (store : gmap string Product.document) : gmap string Product.document :=
  <[id := save (new_document now data)]> store.

(** Modelled from the spec: the product controller is not among the
    sources.  "update(id, partialData) -> updated Product ... or
    PRODUCT_NOT_FOUND"; "Side effects: create/update normalize price to
    2 decimals before persisting": the fields present in the payload
    replace those of the stored document, which is then saved.  [None]
    is PRODUCT_NOT_FOUND. *)
Definition updated_document (now : Z) (partial : partial_data) (doc : Product.document)
    : Product.document :=
  {| Product.name := default (Product.name doc) (new_name partial);
     Product.description :=
       match new_description partial with
       | Some d => Some d
       | None => Product.description doc
       end;
     Product.price := default (Product.price doc) (new_price partial);
     Product.category := default (Product.category doc) (new_category partial);
     Product.stock := default (Product.stock doc) (new_stock partial);
     Product.createdAt := Product.createdAt doc;
     Product.updatedAt := now |}.

(** Modelled from the spec: the product controller is not among the
    sources.  "update(id, partialData) -> updated Product ... or
    PRODUCT_NOT_FOUND": the updated document is saved and written to
    the store in the place of the old one. *)
Definition update (id : string) (now : Z) (partial : partial_data)
    (store : gmap string Product.document) : option (gmap string Product.document) :=
  match store !! id with
  | None => None
  | Some doc => Some (<[id := save (updated_document now partial doc)]> store)
  end.

(** Modelled from the spec: the product controller is not among the
    sources.  "delete(id) -> confirmation or PRODUCT_NOT_FOUND". *)
Definition remove (id : string)
    (store : gmap string Product.document) : option (gmap string Product.document) :=
  match store !! id with
  | None => None
  | Some _ => Some (delete id store)
  end.

(** The operations that write to the store. *)
Inductive operation :=
| Create (id : string) (now : Z) (data : product_data)
| Update (id : string) (now : Z) (partial : partial_data)
| Delete (id : string).

(** The price that an operation brings, if any. *)
Definition payload_price (op : operation) : option Q :=
  match op with
  | Create _ _ data => Some (data_price data)
  | Update _ _ partial => new_price partial
  | Delete _ => None
  end.

(** A failed operation (PRODUCT_NOT_FOUND) leaves the store as it was. *)
Definition step (store : gmap string Product.document) (op : operation)
    : gmap string Product.document :=
  match op with
  | Create id now data => create id now data store
  | Update id now partial => default store (update id now partial store)
  | Delete id => default store (remove id store)
  end.

Definition run (ops : list operation) (store : gmap string Product.document)
    : gmap string Product.document :=
  foldl step store ops.

(** *** Listing *)

(** The normalized query parameters of [GET /products]. *)
Record list_params := {
  page : Z;
  limit : Z;
  sort : string;
  category : option string;
  minPrice : option Q;
  maxPrice : option Q;
  search : option string
}.

Definition as_integer (v : option value) : option Z :=
  match v with
  | Some (VNum q) => Some (Qfloor q)
  | _ => None
  end.

Definition as_number (v : option value) : option Q :=
  match v with
  | Some (VNum q) => Some q
  | _ => None
  end.

Definition as_string (v : option value) : option string :=
  match v with
  | Some (VStr s) => Some s
  | _ => None
  end.

(** Modelled from the spec: the product query builder is not among the
    sources.  "given normalized query parameters {page, limit, sort,
    category?, minPrice?, maxPrice?, search?}": the parameters are read
    from the query that went through the validation gate, where [page],
    [limit] and [sort] are always there. *)
Definition params_of (query : gmap string value) : option list_params :=
  p ← as_integer (query !! "page");
  l ← as_integer (query !! "limit");
  s ← as_string (query !! "sort");
  Some {| page := p; limit := l; sort := s;
          category := as_string (query !! "category");
          minPrice := as_number (query !! "minPrice");
          maxPrice := as_number (query !! "maxPrice");
          search := as_string (query !! "search") |}.

(** Modelled from the spec: the product query builder is not among the
    sources.  "category filter: exact match (case-sensitive)";
    "minPrice/maxPrice: inclusive range filter on price; applied
    independently if present"; "search: case-insensitive
    substring/partial match against the name attribute". *)
Definition matches (q : list_params) (doc : Product.document) : bool :=
  match category q with
  | Some c => String.eqb (Product.category doc) c
  | None => true
  end
  && match minPrice q with
     | Some m => Qle_bool m (Product.price doc)
     | None => true
     end
  && match maxPrice q with
     | Some m => Qle_bool (Product.price doc) m
     | None => true
     end
  && match search q with
     | Some s => includes (toLowerCase (Product.name doc)) (toLowerCase s)
     | None => true
     end.

(** Modelled from the spec: "Sort parameter is one of an enumerated
    whitelist of field names, optionally prefixed with a negation
    marker for descending order". [before field a b]: [a] may come
    before [b] in ascending order of [field]. *)
Definition before (field : string) (a b : Product.document) : bool :=
  if String.eqb field "name" then String.leb (Product.name a) (Product.name b)
  else if String.eqb field "price" then Qle_bool (Product.price a) (Product.price b)
  else if String.eqb field "category" then String.leb (Product.category a) (Product.category b)
  else if String.eqb field "stock" then (Product.stock a <=? Product.stock b)%Z
  else if String.eqb field "updatedAt" then (Product.updatedAt a <=? Product.updatedAt b)%Z
  else (Product.createdAt a <=? Product.createdAt b)%Z.

Definition ordered (sort : string) (a b : Product.document) : bool :=
  match sort with
  | String "-" field => before field b a
  | field => before field a b
  end.

Fixpoint insert_sorted (le : Product.document → Product.document → bool)
    (x : Product.document) (l : list Product.document) : list Product.document :=
  match l with
  | [] => [x]
  | y :: l' => if le x y then x :: l else y :: insert_sorted le x l'
  end.

Definition sorted (le : Product.document → Product.document → bool)
    (l : list Product.document) : list Product.document :=
  foldr (insert_sorted le) [] l.

(** Modelled from the spec: the product query builder is not among the
    sources.  "the filtered+sorted result set" of a query: the products
    of the store that match, in the order asked for. *)
Definition result_set (q : list_params) (store : gmap string Product.document)
    : list Product.document :=
  sorted (ordered (sort q)) (filter (λ doc, matches q doc = true) (map snd (map_to_list store))).

Record pagination := {
  pagination_page : Z;
  pagination_limit : Z;
  pagination_total : Z;
  pagination_totalPages : Z
}.

Record listing := {
  items : list Product.document;
  meta : pagination
}.

(** Modelled from the spec: the product query builder is not among the
    sources.  "Pagination: returns the slice [ (page-1)*limit,
    page*limit ) of the filtered+sorted result set, plus metadata {page,
    limit, total matching count, totalPages = ceil(total/limit)}". *)
Definition list (q : list_params) (store : gmap string Product.document) : listing :=
  let results := result_set q store in
  let skip := ((page q - 1) * limit q)%Z in
  let total := Z.of_nat (length results) in
  {| items := take (Z.to_nat (limit q)) (drop (Z.to_nat skip) results);
     meta := {| pagination_page := page q;
                pagination_limit := limit q;
                pagination_total := total;
                pagination_totalPages :=
                  Math_ceil (inject_Z total / inject_Z (limit q)) |} |}.

End Store.

(* ===================================================================== *)
(** ** Vocabulary of the properties                                      *)
(* ===================================================================== *)

Module Gate.
Import Http JS.

(** The options [validate] passes to [schema.validate]. *)
Definition options : Joi.prefs :=
  {| Joi.abortEarly := false; Joi.allowUnknown := false; Joi.stripUnknown := true |}.

(** What the validation of the field [ks.1] of [input] returns. *)
Definition field_result (input : gmap string value) (ks : string * Joi.schema) : Joi.result :=
  Joi.validate_field options ks.2 ks.1 (input !! ks.1).

(** The errors of all the fields, in the order of the schema. *)
Definition errors_of_fields (S : Joi.object_schema) (input : gmap string value) : list Joi.detail :=
  flat_map (λ ks, Joi.errors_of (field_result input ks)) (Joi.keys S).

(** The object made of the validated fields only. *)
Definition normalized (S : Joi.object_schema) (input : gmap string value) : gmap string value :=
  foldr (λ ks acc,
           match Joi.value_of (field_result input ks) with
           | Some v => <[ks.1 := v]> acc
           | None => acc
           end) ∅ (Joi.keys S).

(** The entry of the response for one error of the schema. *)
Definition entry (d : Joi.detail) : field_error :=
  {| field := String.concat "." (Joi.detail_path d);
     message := Joi.detail_message d;
     Http.value := Joi.detail_value d |}.

(** The response of the gate to a list of violations. *)
Definition failure (violations : list Joi.detail) : response :=
  {| status := 400;
     success := false;
     error := {| error_message := "Validation failed";
                 error_code := VStr "VALIDATION_ERROR";
                 error_details := Some (Http.field_errors (map entry violations));
                 error_stack := None |} |}.

(** The gate answered: HTTP 400, kind VALIDATION_ERROR, and [next()]
    was not called. *)
Definition rejected (out : outcome) : Prop :=
  ∃ violations, violations ≠ [] ∧ out = respond (failure violations).

(** *** The violations that the gate reports *)

(** The violations of one field: a missing required field; a number
    literal that a double cannot hold; a value outside an exclusive
    list of allowed values; a value that fails the check of its base
    type, after which the rules of the chain are not looked at; or
    else every rule of the chain that the value fails. *)
Definition field_violations (s : Joi.schema) (key : string) (item : option value)
    : list Joi.detail :=
  match item with
  | None =>
      match Joi._presence s with
      | Joi.required_p => [Joi.error s key "any.required" Joi.undefined]
      | Joi.optional_p => []
      end
  | Some input =>
      let v := Joi.coerce s input in
      if Joi.unsafe s input
      then [Joi.error s key "number.unsafe" (Joi.scalar input)]
      else
      if match v with
         | VStr x => existsb (String.eqb x) (Joi._valids s)
         | _ => false
         end
      then []
      else
        (if Joi._only s then [Joi.error s key "any.only" (Joi.scalar v)] else [])
        ++ match Joi.base s key v with
           | (_, Some e) => [e]
           | (v', None) => omap (λ r, Joi.test s key r v') (Joi._rules s)
           end
  end.


(** A rule of the object that the object fails. *)
Definition object_violation (o : gmap string value) (r : Joi.object_rule)
    : option Joi.detail :=
  match r with
  | Joi.object_min limit =>
      if (limit <=? Z.of_nat (size o))%Z then None
      else Some (Joi.object_error "object.min" o)
  | Joi.object_custom method =>
      match method o with
      | Joi.returned _ => None
      | Joi.helpers_error code _ => Some (Joi.object_error code o)
      end
  end.

(** The violated rules of the fields. *)
Definition violations_of_fields (S : Joi.object_schema) (input : gmap string value)
    : list Joi.detail :=
  flat_map (λ ks, field_violations ks.2 ks.1 (input !! ks.1)) (Joi.keys S).

(** The violated rules of the object, on the validated fields. *)
Definition violations_of_object (S : Joi.object_schema) (input : gmap string value)
    : list Joi.detail :=
  omap (object_violation (normalized S input)) (Joi.object_rules S).

(** All the violated rules of a schema. *)
Definition violations (S : Joi.object_schema) (input : gmap string value)
    : list Joi.detail :=
  violations_of_fields S input ++ violations_of_object S input.


(** The custom rules of the schema hand back the object they were
    given, as those of this repository do. *)
Definition custom_rules_return_value (S : Joi.object_schema) : Prop :=
  ∀ method o o', Joi.object_custom method ∈ Joi.object_rules S →
    method o = Joi.returned o' → o' = o.

(** [round(price * 100) / 100] *)
Definition round2 (price : Q) : Q :=
  (inject_Z (Math_round (price * inject_Z 100)) / inject_Z 100)%Q.

(** A price that [Math.round(price * 100) / 100], as the doubles
    compute it, gives back. *)
Definition settled (price : Q) : Prop :=
  ∃ r, Product.round_price price = Some r ∧ (r == price)%Q.

(** Every stored product satisfies [price = round(price * 100) / 100]. *)
Definition prices_rounded (store : gmap string Product.document) : Prop :=
  ∀ id doc, store !! id = Some doc → settled (Product.price doc).

(** The prices up to [10^13] in magnitude. *)
Definition moderate (price : Q) : Prop := (Qabs price <= inject_Z (10 ^ 13))%Q.

End Gate.

Module Errors.
Import Http JS ErrorHandler.

(** The error Mongoose raises when [findById] is given an id that is
    not an ObjectId. *)
Definition cast_error : js_error :=
  {| err_name := "CastError";
     err_message := Some "Cast to ObjectId failed for value not-an-id (type string) at path _id for model Product";
     err_code := None; err_statusCode := None; err_keyValue := None;
     err_errors := None; err_details := None;
     err_stack := Some "CastError: Cast to ObjectId failed" |}.

(** The error of a product that is not in the store: the kind the
    tests expect for a well-formed id that is absent. *)
Definition not_found_error : js_error :=
  {| err_name := "Error";
     err_message := Some "Product not found";
     err_code := Some (VStr "PRODUCT_NOT_FOUND"); err_statusCode := Some 404%Z;
     err_keyValue := None; err_errors := None; err_details := None;
     err_stack := Some "Error: Product not found" |}.

(** An error of the database driver that nothing in the handler
    recognizes, with a [details] property of its own. *)
Definition connection_error : js_error :=
  {| err_name := "MongoNetworkError";
     err_message := Some "connect ECONNREFUSED 10.0.3.17:27017";
     err_code := None; err_statusCode := None; err_keyValue := None;
     err_errors := None;
     err_details := Some (VStr "replica set rs0, primary db-1.internal");
     err_stack := Some "MongoNetworkError: connect ECONNREFUSED 10.0.3.17:27017" |}.

(** No branch of the handler recognizes the error, which carries
    neither a status code nor a code. *)
Definition unanticipated (err : js_error) : Prop :=
  err_name err ≠ "CastError" ∧ err_name err ≠ "ValidationError"
  ∧ err_name err ≠ "JsonWebTokenError" ∧ err_name err ≠ "TokenExpiredError"
  ∧ truthy (err_code err) = false
  ∧ (err_statusCode err = None ∨ err_statusCode err = Some 0%Z).

End Errors.

(* ===================================================================== *)
(** ** Sample requests                                                   *)
(* ===================================================================== *)

Module Samples.
Import Http JS.

Definition with_query (q : gmap string value) : request :=
  {| req_body := ∅; req_query := q; req_params_id := "" |}.

Definition with_body (b : gmap string value) : request :=
  {| req_body := b; req_query := ∅; req_params_id := "" |}.

(** [c] repeated [n] times. *)
Fixpoint repeated (n : nat) (c : ascii) : string :=
  match n with
  | O => EmptyString
  | S n' => String c (repeated n' c)
  end.

(** [GET /products?search=aaa...a], 101 letters between two spaces. *)
Definition long_search : request :=
  with_query {[ "search" := VStr (" " +:+ repeated 101 "a" +:+ " ") ]}.

(** [GET /products] *)
Definition no_parameters : request := with_query ∅.

(** [GET /products?limit=101] *)
Definition limit_101 : request := with_query {[ "limit" := VStr "101" ]}.

(** [GET /products?sort=rating] *)
Definition sort_rating : request := with_query {[ "sort" := VStr "rating" ]}.


(** [GET /products?page=2&limit=2&sort=price] *)
Definition second_page : request :=
  with_query {[ "page" := VStr "2"; "limit" := VStr "2"; "sort" := VStr "price" ]}.

(** [POST /products] with [{ name: "", price: -10, stock: -5 }] *)
Definition invalid_product : request :=
  with_body {[ "name" := VStr ""; "price" := VNum (-10); "stock" := VNum (-5) ]}.

(** [PUT /products/:id] with [{}] *)
Definition empty_update : request := with_body ∅.

(** [PUT /products/:id] with [{ price: 29.99 }] *)
Definition price_update : request := with_body {[ "price" := VNum (2999 # 100) ]}.

(** [PUT /products/:id] with [{ name: "Updated Product", role: "admin" }] *)
Definition update_with_unknown_field : request :=
  with_body {[ "name" := VStr "Updated Product"; "role" := VStr "admin" ]}.

(** [PUT /products/:id] with [{ name: "x", price: -1 }] *)
Definition partly_valid_update : request :=
  with_body {[ "name" := VStr "x"; "price" := VNum (-1) ]}.



(** [35212668672693.266] as a double, and a product with this price. *)
Definition large_price : Q := 2253610795052369 # 64.

(** The query of [second_page] as the gate hands it to the handler. *)
Definition second_page_normalized : request :=
  with_query {[ "page" := VNum 2; "limit" := VNum 2; "sort" := VStr "price" ]}.

Definition product (name : string) (price : Q) (category : string) (stock : Z)
    : Store.product_data :=
  {| Store.data_name := name; Store.data_description := None;
     Store.data_price := price; Store.data_category := category;
     Store.data_stock := stock |}.

(** A store with three products. *)
Definition three_products : gmap string Product.document :=
  Store.run [ Store.Create "id-1" 1 (product "Product 1" (1099 # 100) "Electronics" 5);
              Store.Create "id-2" 2 (product "Product 2" (2099 # 100) "Books" 10);
              Store.Create "id-3" 3 (product "Product 3" (15 # 1) "Books" 0) ] ∅.

(** [POST /products] with the payload of the integration tests; the
    name is sent with spaces around it. *)
Definition new_product : request :=
  with_body {[ "name" := VStr "  New Product "; "description" := VStr "A great product";
               "price" := VNum (4999 # 100); "category" := VStr "Test Category";
               "stock" := VNum 25 ]}.

(** [GET /products?category=%20Books%20&minPrice=5&maxPrice=20.5] *)
Definition filtered : request :=
  with_query {[ "category" := VStr " Books "; "minPrice" := VStr "5";
                "maxPrice" := VStr "20.5" ]}.

(** A product of a price beyond the range in which the doubles hold
    the cents. *)
Definition costly_product : Store.product_data :=
  product "Satellite" large_price "Space" 1.

(** The double nearest to 2.675, which is below it, and a product of
    that price. *)
Definition half_cent_price : Q := 3011782250804019 # 1125899906842624.

Definition half_cent_product : Store.product_data :=
  product "Pen" half_cent_price "Office" 1.

(** The payload [{ price: 29.999 }] of an update. *)
Definition reprice : Store.partial_data :=
  {| Store.new_name := None; Store.new_description := None;
     Store.new_price := Some (29999 # 1000)%Q;
     Store.new_category := None; Store.new_stock := None |}.

End Samples.

Module Listing.

(** The fields a listing can be sorted by. *)
Definition sort_fields : list string :=
  ["name"; "price"; "category"; "stock"; "createdAt"; "updatedAt"].

(** The whitelist of [sort]: a field, or a field after the marker of
    descending order. *)
Definition sort_whitelist : list string :=
  sort_fields ++ map (String "-") sort_fields.

End Listing.

(* ===================================================================== *)
(** ** Sample errors                                                     *)
(* ===================================================================== *)

Module ErrorSamples.
Import JS ErrorHandler.

(** The error of [jwt.verify] on a token that has expired; it happens
    to carry a status code of its own. *)
Definition token_expired : js_error :=
  {| err_name := "TokenExpiredError";
     err_message := Some "jwt expired";
     err_code := None; err_statusCode := Some 500%Z; err_keyValue := None;
     err_errors := None; err_details := None;
     err_stack := Some "TokenExpiredError: jwt expired" |}.

(** The error of the store on a second user with the same email. *)
Definition duplicate_email : js_error :=
  {| err_name := "MongoServerError";
     err_message := Some "E11000 duplicate key error collection: users index: email_1";
     err_code := Some (VNum 11000); err_statusCode := None;
     err_keyValue := Some [("email", VStr "test@example.com")];
     err_errors := None; err_details := None;
     err_stack := Some "MongoServerError: E11000 duplicate key error" |}.

(** An error with a status and a code of its own, as the tests expect
    of a request without a token. *)
Definition no_token : js_error :=
  {| err_name := "Error";
     err_message := Some "No token provided";
     err_code := Some (VStr "NO_TOKEN"); err_statusCode := Some 401%Z;
     err_keyValue := None; err_errors := None; err_details := None;
     err_stack := Some "Error: No token provided" |}.

End ErrorSamples.

(* ===================================================================== *)
(** ** What the schemas let through                                      *)
(* ===================================================================== *)

Module Contract.
Import JS.

(** A field of a product payload as the product schemas leave it:
    [name] trimmed, 1 to 100 characters; [description] trimmed, at most
    500; [price] a multiple of 0.01, at least 0.01; [category] trimmed,
    not empty; [stock] an integer, not negative; no other field. *)
Definition product_field_ok (key : string) (v : value) : Prop :=
  if String.eqb key "name" then
    ∃ x, v = VStr x ∧ trim x = x ∧ (1 ≤ String.length x ≤ 100)%nat
  else if String.eqb key "description" then
    ∃ x, v = VStr x ∧ trim x = x ∧ (String.length x ≤ 500)%nat
  else if String.eqb key "price" then
    ∃ p, v = VNum p ∧ ((1 # 100) <= p)%Q ∧ (p <= inject_Z Joi.MAX_SAFE_INTEGER)%Q
      ∧ ∃ cents : Z, (p == inject_Z cents / inject_Z 100)%Q
  else if String.eqb key "category" then
    ∃ x, v = VStr x ∧ trim x = x ∧ (1 ≤ String.length x)%nat
  else if String.eqb key "stock" then
    ∃ q n, v = VNum q ∧ (q == inject_Z n)%Q ∧ (0 ≤ n ≤ Joi.MAX_SAFE_INTEGER)%Z
  else False.

(** A filter of a list query as [querySchema] leaves it: [category]
    and [search] trimmed and not empty, [search] of at most 100
    characters; [minPrice] and [maxPrice] numbers that are not
    negative. *)
Definition filter_ok (key : string) (v : value) : Prop :=
  if String.eqb key "category" then
    ∃ x, v = VStr x ∧ trim x = x ∧ (1 ≤ String.length x)%nat
  else if String.eqb key "search" then
    ∃ x, v = VStr x ∧ trim x = x ∧ (1 ≤ String.length x ≤ 100)%nat
  else if String.eqb key "minPrice" || String.eqb key "maxPrice" then
    ∃ q, v = VNum q ∧ (0 <= q)%Q ∧ (q <= inject_Z Joi.MAX_SAFE_INTEGER)%Q
  else True.

End Contract.

(* ===================================================================== *)
(** ** models/Product.js: the Mongoose schema                            *)
(* ===================================================================== *)

Module Mongoose.
Import JS.

(** A validator of a path: its test and the message of its error. *)
Record validator (A : Type) := {
  validator_test : A → bool;
  validator_message : string
}.
Arguments validator_test {A} _ _.
Arguments validator_message {A} _.

(** The options of a path that take part in validation. *)
Record schema_type (A : Type) := {
  checkRequired : A → bool;
  required : option string;
  validators : list (validator A)
}.
Arguments checkRequired {A} _ _.
Arguments required {A} _.
Arguments validators {A} _.

(** The validators of a path run in order and the first that fails
    gives the path's error.  [required] goes first; the others are not
    run on a path left undefined. *)
Definition run_validators {A} (t : schema_type A) (x : A) : option string :=
  validator_message <$> List.find (λ c, negb (validator_test c x)) (validators t).

Definition doValidate {A} (t : schema_type A) (v : option A) : option string :=
  match v, required t with
  | None, r => r
  | Some x, Some msg => if checkRequired t x then run_validators t x else Some msg
  | Some x, None => run_validators t x
  end.

(** [type: String]: a required string is one that is not empty. *)
Definition String_type (required : option string) (validators : list (validator string))
    : schema_type string :=
  {| checkRequired := λ s, (0 <? String.length s)%nat;
     required := required; validators := validators |}.

(** [type: Number]: any number meets [required]. *)
Definition Number_type (required : option string) (validators : list (validator Q))
    : schema_type Q :=
  {| checkRequired := λ _, true; required := required; validators := validators |}.

Definition minlength (n : nat) (msg : string) : validator string :=
  {| validator_test := λ s, (n <=? String.length s)%nat; validator_message := msg |}.

Definition maxlength (n : nat) (msg : string) : validator string :=
  {| validator_test := λ s, (String.length s <=? n)%nat; validator_message := msg |}.

Definition min (m : Q) (msg : string) : validator Q :=
  {| validator_test := λ q, Qle_bool m q; validator_message := msg |}.

(** [Number.isInteger] *)
Definition Number_isInteger (q : Q) : bool := Qeq_bool q (inject_Z (Qfloor q)).

(** The paths of a new product once the values given to the model are
    cast; [None] is a path left undefined or null. *)
Record paths := {
  name : option string;
  description : option string;
  price : option Q;
  category : option string;
  stock : option Q
}.

(** The cast of a value to a [String] path with [trim: true], and to a
    [Number] path, for a value that is of the type of the path already.
    [None]: a value of another type, which Mongoose converts or
    refuses with a cast error, is outside the model. *)
Definition cast_String (v : option value) : option (option string) :=
  match v with
  | None | Some VNull => Some None
  | Some (VStr s) => Some (Some (trim s))
  | Some _ => None
  end.

Definition cast_Number (v : option value) : option (option Q) :=
  match v with
  | None | Some VNull => Some None
  | Some (VNum q) => Some (Some q)
  | Some _ => None
  end.

(** The paths that the schema declares. *)
Definition declared : list string := ["name"; "description"; "price"; "category"; "stock"].

(** [new Product(data)] for data made of declared paths only, as the
    gate of [POST /products] hands it over.  [None]: data with another
    field, which the model takes ([_id], [createdAt], [updatedAt]) or
    drops, is outside the model. *)
Definition new_Product (data : gmap string value) : option paths :=
  if decide (map_Forall (λ k _, k ∈ declared) data) then
    match cast_String (data !! "name"), cast_String (data !! "description"),
          cast_Number (data !! "price"), cast_String (data !! "category"),
          cast_Number (data !! "stock") with
    | Some n, Some d, Some p, Some c, Some s =>
        Some {| name := n; description := d; price := p; category := c; stock := s |}
    | _, _, _, _, _ => None
    end
  else None.

Module productSchema.

Definition name : schema_type string :=
  String_type (Some "Product name is required")
    [ minlength 1 "Product name must be at least 1 character";
      maxlength 100 "Product name cannot exceed 100 characters" ].

Definition description : schema_type string :=
  String_type None [ maxlength 500 "Description cannot exceed 500 characters" ].

Definition price : schema_type Q :=
  Number_type (Some "Product price is required") [ min 0 "Price cannot be negative" ].

Definition category : schema_type string :=
  String_type (Some "Product category is required") [].

Definition stock : schema_type Q :=
  Number_type (Some "Stock quantity is required")
    [ min 0 "Stock cannot be negative";
      {| validator_test := Number_isInteger;
         validator_message := "Stock must be an integer" |} ].

End productSchema.

(** The error of one path, if any. *)
Definition path_error {A} (path : string) (t : schema_type A) (v : option A)
    : list (string * string) :=
  match doValidate t v with
  | Some msg => [(path, msg)]
  | None => []
  end.

(** The validation of a document: [err.errors], the message of the
    error of each path that has one, keyed by path. *)
Definition validate (doc : paths) : gmap string string :=
  list_to_map
    (path_error "name" productSchema.name (name doc)
     ++ path_error "description" productSchema.description (description doc)
     ++ path_error "price" productSchema.price (price doc)
     ++ path_error "category" productSchema.category (category doc)
     ++ path_error "stock" productSchema.stock (stock doc)).

(** The document that a valid set of paths makes, with the timestamps
    of [timestamps: true]. *)
Definition document_of (now : Z) (doc : paths) : option Product.document :=
  match name doc, price doc, category doc, stock doc with
  | Some n, Some p, Some c, Some s =>
      Some {| Product.name := n; Product.description := description doc;
              Product.price := p; Product.category := c; Product.stock := Qfloor s;
              Product.createdAt := now; Product.updatedAt := now |}
  | _, _, _, _ => None
  end.

(** The outcome of saving a new document. *)
Inductive saved :=
| ValidationError (errors : gmap string string)
| stored (doc : Product.document).

(** [save()] of a new document: validation comes before the schema's
    own pre-save middleware, which then runs on the valid document.
    [None]: the price becomes [Infinity], which a [Product.document]
    does not hold. *)
Definition save (now : Z) (doc : paths) : option saved :=
  if decide (validate doc = ∅) then
    d ← document_of now doc;
    stored <$> Product.pre_save_double d
  else Some (ValidationError (validate doc)).

(** [Product.create(data)] *)
Definition create (now : Z) (data : gmap string value) : option saved :=
  new_Product data ≫= save now.

End Mongoose.

(* ===================================================================== *)
(** ** Properties                                                        *)
(* ===================================================================== *)

Section joi_lemmas.
Import JS Joi Gate.

(** Without [abortEarly] the loop over the rules returns the failure of
    every rule, each tested on the same value. *)
Lemma rules_collect s key rs v errors :
  rules options s key rs v errors = errors ++ omap (λ r, test s key r v) rs.
Proof.
  revert errors. induction rs as [|r rs IH]; intros errors; simpl.
  - by rewrite app_nil_r.
  - destruct (test s key r v) as [e|]; simpl.
    + rewrite IH. by rewrite <- app_assoc.
    + apply IH.
Qed.

(** The errors of a field are its violations. *)
Lemma validate_field_errors s key item :
  errors_of (validate_field options s key item) = field_violations s key item.
Proof.
  unfold validate_field, field_violations.
  destruct item as [input|]; [|by destruct (_presence s)].
  cbv zeta. destruct (unsafe s input); [done|].
  set (v := coerce s input). clearbody v.
  match goal with |- context [if ?b then finalize _ _ [] else _] => destruct b end; [done|].
  rewrite andb_false_r.
  destruct (base s key v) as [v' [e|]]; simpl; [done|].
  by rewrite rules_collect.
Qed.

(** A field that is there stays there. *)
Lemma validate_field_value_Some p s key v :
  is_Some (value_of (validate_field p s key (Some v))).
Proof.
  unfold validate_field; simpl.
  repeat match goal with
  | |- context [if ?b then _ else _] => destruct b
  | |- context [let (_, _) := ?x in _] => destruct x
  | |- context [match ?x with Some _ => _ | None => _ end] => destruct x
  end; simpl; eauto.
Qed.

(** A field that is absent takes the default, without error, unless it
    is required. *)
Lemma validate_field_absent p s key :
  _presence s = optional_p →
  validate_field p s key None = {| value_of := _default s; errors_of := [] |}.
Proof. unfold validate_field; simpl. by intros ->. Qed.

End joi_lemmas.

Section joi_object_lemmas.
Import JS Joi Gate.

Lemma field_result_ext (o1 o2 : gmap String.string value) ks :
  o1 !! ks.1 = o2 !! ks.1 → field_result o1 ks = field_result o2 ks.
Proof. unfold field_result. by intros ->. Qed.

Lemma flat_map_field_errors_ext (o1 o2 : gmap String.string value) (ks : list (String.string * schema)) :
  (∀ k, k ∈ map fst ks → o1 !! k = o2 !! k) →
  flat_map (λ ks, errors_of (field_result o1 ks)) ks
  = flat_map (λ ks, errors_of (field_result o2 ks)) ks.
Proof.
  induction ks as [|[k s] ks IH]; intros Hext; simpl; [done|].
  rewrite (field_result_ext o1 o2 (k, s)).
  - f_equal. apply IH. intros k' Hk'. apply Hext. simpl. by right.
  - apply Hext. simpl. by left.
Qed.

(** The loop over the children, without [abortEarly]: it never returns
    early, it collects the errors of every child, and it writes the
    value of every valid child back. *)
Lemma validate_keys_collect (ks : list (String.string * schema)) :
  NoDup (map fst ks) →
  ∀ (o : gmap String.string value) errors,
  ∃ o', validate_keys options ks o errors
        = inr (o', errors ++ flat_map (λ ks, errors_of (field_result o ks)) ks)
    ∧ (∀ k, k ∉ map fst ks → o' !! k = o !! k)
    ∧ (∀ k s, (k, s) ∈ ks → errors_of (field_result o (k, s)) = [] →
         o' !! k = value_of (field_result o (k, s))).
Proof.
  induction ks as [|[key child] ks IH]; intros Hnodup o errors.
  { exists o. simpl. rewrite app_nil_r. split; [done|]. split; [done|].
    intros k s Hin. by apply elem_of_nil in Hin. }
  simpl in Hnodup. apply NoDup_cons in Hnodup as [Hfresh Hnodup].
  assert (Hstep : ∀ o1 errors1,
    (∀ k, k ≠ key → o1 !! k = o !! k) →
    (errors_of (field_result o (key, child)) = [] →
       o1 !! key = value_of (field_result o (key, child))) →
    ∃ o', validate_keys options ks o1 errors1
          = inr (o', errors1 ++ flat_map (λ ks, errors_of (field_result o ks)) ks)
      ∧ (∀ k, k ∉ map fst ((key, child) :: ks) → o' !! k = o !! k)
      ∧ (∀ k s, (k, s) ∈ (key, child) :: ks → errors_of (field_result o (k, s)) = [] →
           o' !! k = value_of (field_result o (k, s)))).
  { intros o1 errors1 Hother Hkey.
    destruct (IH Hnodup o1 errors1) as (o' & Heq & Hout & Hin).
    assert (Hagree : ∀ k, k ∈ map fst ks → o1 !! k = o !! k).
    { intros k Hk. apply Hother. intros ->. done. }
    exists o'. split; [|split].
    - rewrite Heq. by rewrite (flat_map_field_errors_ext o1 o ks Hagree).
    - intros k Hk. simpl in Hk. apply not_elem_of_cons in Hk as [Hne Hk].
      rewrite (Hout k Hk). by apply Hother.
    - intros k s Hks Hok. apply elem_of_cons in Hks as [Heq'|Hks].
      + injection Heq' as -> ->. rewrite (Hout key Hfresh). by apply Hkey.
      + assert (Hk : k ∈ map fst ks).
        { apply list_elem_of_fmap. by exists (k, s). }
        rewrite (field_result_ext o o1 (k, s)) in Hok |- *; try (symmetry; by apply Hagree).
        by apply Hin. }
  cbn [validate_keys flat_map].
  change (validate_field options child key (o !! key)) with (field_result o (key, child)).
  destruct (errors_of (field_result o (key, child))) as [|e es] eqn:Herrs.
  - destruct (value_of (field_result o (key, child))) as [v|] eqn:Hval.
    + destruct (Hstep (<[key := v]> o) errors) as (o' & Heq & H2 & H3).
      * intros k Hne. by rewrite lookup_insert_ne.
      * intros _. by rewrite lookup_insert_eq.
      * exists o'. by rewrite Heq.
    + destruct (Hstep (delete key o) errors) as (o' & Heq & H2 & H3).
      * intros k Hne. by rewrite lookup_delete_ne.
      * intros _. by rewrite lookup_delete_eq.
      * exists o'. by rewrite Heq.
  - change (abortEarly options) with false. cbv iota.
    destruct (value_of (field_result o (key, child))) as [v|] eqn:Hval.
    + destruct (Hstep (<[key := v]> o) (errors ++ e :: es)) as (o' & Heq & H2 & H3).
      * intros k Hne. by rewrite lookup_insert_ne.
      * done.
      * exists o'. rewrite Heq. by rewrite <- app_assoc.
    + destruct (Hstep o (errors ++ e :: es)) as (o' & Heq & H2 & H3); [done|done|].
      exists o'. rewrite Heq. by rewrite <- app_assoc.
Qed.

End joi_object_lemmas.

Section joi_validate_lemmas.
Import JS Joi Gate.

Lemma known_elem_of S k : known S k = true ↔ k ∈ map fst (keys S).
Proof.
  unfold known. rewrite existsb_exists. split.
  - intros (k' & Hin & Heq). apply String.eqb_eq in Heq as ->.
    by apply list_elem_of_In.
  - intros Hin. exists k. split; [by apply list_elem_of_In|apply String.eqb_refl].
Qed.

Lemma filter_none {A} (P : A → Prop) `{!∀ x, Decision (P x)} (l : list A) :
  Forall (λ x, ¬ P x) l → filter P l = [].
Proof.
  induction 1 as [|x l Hx _ IH]; [done|].
  by rewrite filter_cons_False.
Qed.

(** With [stripUnknown] the keys that the schema does not name are
    dropped, and none is left to report. *)
Lemma unknown_strip S (o : gmap String.string value) errors :
  unknown options S o errors = inr (filter (λ kv, known S kv.1 = true) o, errors).
Proof.
  unfold unknown. cbn [stripUnknown allowUnknown options].
  rewrite filter_none; [done|].
  apply Forall_forall. intros [k v] Hin Hunknown.
  apply elem_of_map_to_list in Hin.
  apply map_lookup_filter_Some in Hin as [_ Hknown].
  simpl in *. congruence.
Qed.

Lemma normalized_unknown S input k :
  known S k = false → normalized S input !! k = None.
Proof.
  intros Hk. assert (Hnot : k ∉ map fst (keys S)).
  { rewrite <- known_elem_of. congruence. }
  unfold normalized. clear Hk. induction (keys S) as [|[k' s] ks IH]; simpl; [done|].
  simpl in Hnot. apply not_elem_of_cons in Hnot as [Hne Hnot].
  destruct (value_of (field_result input (k', s))); [|by apply IH].
  rewrite lookup_insert_ne; [by apply IH|done].
Qed.

Lemma normalized_known S input k s :
  NoDup (map fst (keys S)) → (k, s) ∈ keys S →
  normalized S input !! k = value_of (field_result input (k, s)).
Proof.
  unfold normalized. induction (keys S) as [|[k' s'] ks IH]; simpl; intros Hnodup Hin.
  { by apply elem_of_nil in Hin. }
  apply NoDup_cons in Hnodup as [Hfresh Hnodup].
  apply elem_of_cons in Hin as [Heq|Hin].
  - injection Heq as <- <-.
    destruct (value_of (field_result input (k, s))) as [v|] eqn:Hv.
    + by rewrite lookup_insert_eq.
    + clear IH Hnodup. induction ks as [|[k2 s2] ks IH]; simpl; [done|].
      simpl in Hfresh. apply not_elem_of_cons in Hfresh as [Hne Hfresh].
      destruct (value_of (field_result input (k2, s2))); [|by apply IH].
      rewrite lookup_insert_ne; [by apply IH|done].
  - assert (k ≠ k').
    { intros ->. apply Hfresh. apply list_elem_of_fmap. by exists (k', s). }
    destruct (value_of (field_result input (k', s'))).
    + rewrite lookup_insert_ne; [by apply IH|done].
    + by apply IH.
Qed.

(** An error in a field is the verdict: the rules of the object are not
    run. *)
Lemma validate_fields_in_error S input :
  NoDup (map fst (keys S)) → errors_of_fields S input ≠ [] →
  validation_error (validate S input options) = Some (errors_of_fields S input).
Proof.
  intros Hnodup Herr. unfold validate.
  destruct (validate_keys_collect (keys S) Hnodup input []) as (o' & -> & _ & _).
  rewrite unknown_strip. simpl.
  fold (errors_of_fields S input).
  by destruct (errors_of_fields S input).
Qed.

(** When every field is valid the object handed to the rules of the
    object is the object of the validated fields. *)
Lemma validate_fields_valid S input :
  NoDup (map fst (keys S)) → errors_of_fields S input = [] →
  validate S input options =
    match validate_object_rules options (object_rules S) (normalized S input) [] with
    | (o, []) => {| validation_error := None; validation_value := o |}
    | (o, es) => {| validation_error := Some es; validation_value := o |}
    end.
Proof.
  intros Hnodup Hok. unfold validate.
  destruct (validate_keys_collect (keys S) Hnodup input []) as (o' & -> & Hout & Hin).
  rewrite unknown_strip. simpl.
  fold (errors_of_fields S input). rewrite Hok.
  replace (filter (λ kv, known S kv.1 = true) o') with (normalized S input); [done|].
  apply map_eq. intros k.
  destruct (known S k) eqn:Hk.
  - apply known_elem_of in Hk as Hk'.
    apply list_elem_of_fmap in Hk' as ([k' s] & -> & Hks). simpl in *.
    rewrite (normalized_known S input k' s Hnodup Hks).
    assert (Hfield : errors_of (field_result input (k', s)) = []).
    { unfold errors_of_fields in Hok.
      apply list_elem_of_In in Hks.
      destruct (errors_of (field_result input (k', s))) as [|e es] eqn:He; [done|].
      assert (In e (flat_map (λ ks, errors_of (field_result input ks)) (keys S))).
      { apply in_flat_map. exists (k', s). split; [done|]. rewrite He. by left. }
      rewrite Hok in H. done. }
    apply list_elem_of_In in Hks as Hks'. apply list_elem_of_In in Hks'.
    rewrite <- (Hin k' s Hks' Hfield).
    destruct (o' !! k') as [v|] eqn:Hv.
    + symmetry. apply map_lookup_filter_Some. by split.
    + symmetry. apply map_lookup_filter_None. by left.
  - rewrite (normalized_unknown S input k Hk). symmetry.
    apply map_lookup_filter_None. right. intros v _. simpl. congruence.
Qed.

(** The rules of the object, without [abortEarly]: each is tested on
    the same object when the custom rules hand their argument back. *)
Lemma validate_object_rules_collect rs (o : gmap String.string value) errors :
  (∀ method o1 o2, object_custom method ∈ rs → method o1 = returned o2 → o2 = o1) →
  validate_object_rules options rs o errors = (o, errors ++ omap (object_violation o) rs).
Proof.
  revert errors. induction rs as [|r rs IH]; intros errors Hcustom; simpl.
  { by rewrite app_nil_r. }
  assert (Hrest : ∀ method o1 o2, object_custom method ∈ rs → method o1 = returned o2 → o2 = o1).
  { intros method o1 o2 Hin. apply Hcustom. by right. }
  destruct r as [limit|method]; simpl.
  - destruct (limit <=? Z.of_nat (size o))%Z; [by apply IH|].
    rewrite IH; [|done]. by rewrite <- app_assoc.
  - destruct (method o) as [code local|o2] eqn:Hm.
    + rewrite IH; [|done]. by rewrite <- app_assoc.
    + assert (o2 = o) as -> by (apply (Hcustom method); [by left|done]).
      by apply IH.
Qed.

Lemma errors_of_fields_violations S input :
  errors_of_fields S input = violations_of_fields S input.
Proof.
  unfold errors_of_fields, violations_of_fields, field_result.
  induction (keys S) as [|[k s] ks IH]; simpl; [done|].
  by rewrite validate_field_errors, IH.
Qed.

End joi_validate_lemmas.

Section gate_lemmas.
Import Http JS Gate.

(** The validation gate, case by case: the violations of the fields if
    there are any; otherwise those of the rules of the object; otherwise
    [next()] with the validated fields in place of the input. *)
Lemma gate_cases S prop req :
  NoDup (map fst (Joi.keys S)) → custom_rules_return_value S →
  Validation.validate S prop req =
    match violations_of_fields S (get prop req) with
    | [] =>
        match violations_of_object S (get prop req) with
        | [] => next (set prop (normalized S (get prop req)) req)
        | vs => respond (failure vs)
        end
    | vs => respond (failure vs)
    end.
Proof.
  intros Hnodup Hcustom. unfold Validation.validate.
  fold options. rewrite <- errors_of_fields_violations.
  destruct (errors_of_fields S (get prop req)) as [|e es] eqn:Herr.
  - rewrite (validate_fields_valid S _ Hnodup Herr).
    rewrite validate_object_rules_collect; [|exact Hcustom].
    unfold violations_of_object. simpl.
    by destruct (omap _ _).
  - rewrite (validate_fields_in_error S _ Hnodup); rewrite Herr; done.
Qed.

Lemma createProductSchema_keys : NoDup (map fst (Joi.keys Schemas.createProductSchema)).
Proof. compute_done. Qed.

Lemma updateProductSchema_keys : NoDup (map fst (Joi.keys Schemas.updateProductSchema)).
Proof. compute_done. Qed.

Lemma querySchema_keys : NoDup (map fst (Joi.keys Schemas.querySchema)).
Proof. compute_done. Qed.

Lemma createProductSchema_custom : custom_rules_return_value Schemas.createProductSchema.
Proof. intros method o o' Hin. by apply elem_of_nil in Hin. Qed.

Lemma updateProductSchema_custom : custom_rules_return_value Schemas.updateProductSchema.
Proof.
  intros method o o' Hin. simpl in Hin.
  apply list_elem_of_singleton in Hin. done.
Qed.

Lemma querySchema_custom : custom_rules_return_value Schemas.querySchema.
Proof.
  intros method o o' Hin. simpl in Hin.
  apply list_elem_of_singleton in Hin. injection Hin as ->.
  destruct (_ && _); [done|]. by intros [= ->].
Qed.

(** A field in error is enough for the gate to reject. *)
Lemma gate_rejects_field S prop req k s :
  NoDup (map fst (Joi.keys S)) → custom_rules_return_value S →
  (k, s) ∈ Joi.keys S →
  field_violations s k (get prop req !! k) ≠ [] →
  rejected (Validation.validate S prop req).
Proof.
  intros Hnodup Hcustom Hin Hbad.
  rewrite (gate_cases S prop req Hnodup Hcustom).
  destruct (violations_of_fields S (get prop req)) as [|v vs] eqn:Hvs.
  - exfalso. apply Hbad.
    destruct (field_violations s k (get prop req !! k)) as [|e es] eqn:He; [done|].
    assert (In e (violations_of_fields S (get prop req))).
    { apply in_flat_map. exists (k, s). split; [by apply list_elem_of_In|].
      simpl. rewrite He. by left. }
    rewrite Hvs in H. done.
  - by exists (v :: vs).
Qed.

(** When the gate lets a request through, every field was valid and the
    target part now holds the validated fields. *)
Lemma gate_next S prop req req' :
  NoDup (map fst (Joi.keys S)) → custom_rules_return_value S →
  Validation.validate S prop req = next req' →
  violations_of_fields S (get prop req) = []
  ∧ violations_of_object S (get prop req) = []
  ∧ req' = set prop (normalized S (get prop req)) req.
Proof.
  intros Hnodup Hcustom. rewrite (gate_cases S prop req Hnodup Hcustom).
  destruct (violations_of_fields S (get prop req)); [|done].
  destruct (violations_of_object S (get prop req)); [|done].
  by intros [= <-].
Qed.

Lemma get_set prop o req : get prop (set prop o req) = o.
Proof. by destruct prop. Qed.

Lemma field_valid_of_fields S input k s :
  violations_of_fields S input = [] → (k, s) ∈ Joi.keys S →
  field_violations s k (input !! k) = [].
Proof.
  intros Hok Hin.
  destruct (field_violations s k (input !! k)) as [|e es] eqn:He; [done|].
  assert (In e (violations_of_fields S input)).
  { apply in_flat_map. exists (k, s). split; [by apply list_elem_of_In|].
    simpl. rewrite He. by left. }
  rewrite Hok in H. done.
Qed.

Lemma assoc_elem_of {A} k (l : list (string * A)) a :
  Joi.assoc k l = Some a → (k, a) ∈ l.
Proof.
  induction l as [|[k' a'] l IH]; simpl; [done|].
  destruct (String.eqb k k') eqn:Hk.
  - apply String.eqb_eq in Hk as ->. intros [= ->]. by left.
  - intros H. right. by apply IH.
Qed.

Lemma omap_nil_Forall {A B} (f : A → option B) (l : list A) :
  omap f l = [] → Forall (λ x, f x = None) l.
Proof.
  induction l as [|x l IH]; simpl; [constructor|].
  destruct (f x) eqn:Hx; [done|]. intros H. constructor; [done|by apply IH].
Qed.

(** A number field without violations: absent, it takes the default;
    present, it reads as a number, which a [precision] rule rounds and
    which then passes every rule of the chain. *)
Lemma number_field_valid s key item :
  Joi._type s = Joi.number_t → Joi._valids s = [] →
  field_violations s key item = [] →
  match item with
  | None => Joi.value_of (Joi.validate_field options s key item) = Joi._default s
  | Some v =>
      ∃ q, Joi.coerce s v = VNum q
        ∧ let q' := match Joi.getPrecision (Joi._rules s) with
                    | Some limit =>
                        Qred (inject_Z (Math_round (q * inject_Z (pow10 limit)))
                              / inject_Z (pow10 limit))
                    | None => q
                    end in
          Joi.value_of (Joi.validate_field options s key item) = Some (VNum q')
          ∧ Forall (λ r, Joi.test s key r (VNum q') = None) (Joi._rules s)
  end.
Proof.
  intros Htype Hvalids.
  unfold field_violations, Joi.validate_field.
  destruct item as [v|].
  2: { destruct (Joi._presence s); [done|]. done. }
  cbv zeta. destruct (Joi.unsafe s v); [done|].
  set (v' := Joi.coerce s v). clearbody v'.
  rewrite Hvalids.
  assert (Hallowed : match v' with
                     | VStr x => existsb (String.eqb x) []
                     | _ => false
                     end = false) by (by destruct v').
  rewrite Hallowed. rewrite andb_false_r.
  unfold Joi.base. rewrite Htype.
  destruct v' as [| |q| | |]; try (by destruct (Joi._only s)).
  destruct (_ || _); [by destruct (Joi._only s)|].
  destruct (Joi._only s); [done|]. simpl.
  intros Hrules. exists q. split; [done|]. split; [done|]. by apply omap_nil_Forall.
Qed.

Lemma number_field_valid_exact s key v :
  Joi._type s = Joi.number_t → Joi._valids s = [] →
  Joi.getPrecision (Joi._rules s) = None →
  field_violations s key (Some v) = [] →
  ∃ q, Joi.value_of (Joi.validate_field options s key (Some v)) = Some (VNum q)
    ∧ Forall (λ r, Joi.test s key r (VNum q) = None) (Joi._rules s).
Proof.
  intros Htype Hvalids Hprec Hvalid.
  destruct (number_field_valid s key (Some v) Htype Hvalids Hvalid) as (q & _ & H).
  rewrite Hprec in H. by exists q.
Qed.

End gate_lemmas.

Section price_range.
Import Http JS.

(** C1 (fails on the code): a list-products query with both bounds
    present and [maxPrice < minPrice] is supposed to be rejected with
    VALIDATION_ERROR, also when one of the two is 0.  For
    [?minPrice=5&maxPrice=0] the cross-field rule of [querySchema] tests
    [value.maxPrice] for truthiness, finds 0, and is skipped: the gate
    calls [next()] and the handler of GET /products runs on the
    normalized query, with [maxPrice = 0 < minPrice = 5]. *)
Theorem C1_maxPrice_zero_reaches_handler :
  let req := {| req_body := ∅;
                req_query := {[ "minPrice" := VStr "5"; "maxPrice" := VStr "0" ]};
                req_params_id := "" |} in
  let req' := {| req_body := ∅;
                 req_query := {[ "page" := VNum 1; "limit" := VNum 10;
                                 "sort" := VStr "-createdAt";
                                 "minPrice" := VNum 5; "maxPrice" := VNum 0 ]};
                 req_params_id := "" |} in
  Validation.validate Schemas.querySchema query req = next req'
  ∧ lt (req_query req' !! "maxPrice") (req_query req' !! "minPrice") = true
  ∧ ∀ (R : Type) (getProducts : request → R),
      Routes.get_products getProducts req = Routes.handled (getProducts req').
Proof.
  assert (H : Validation.validate Schemas.querySchema query
                {| req_body := ∅;
                   req_query := {[ "minPrice" := VStr "5"; "maxPrice" := VStr "0" ]};
                   req_params_id := "" |}
              = next {| req_body := ∅;
                        req_query := {[ "page" := VNum 1; "limit" := VNum 10;
                                        "sort" := VStr "-createdAt";
                                        "minPrice" := VNum 5; "maxPrice" := VNum 0 ]};
                        req_params_id := "" |}) by (vm_compute; reflexivity).
  cbv zeta. split; [exact H|]. split; [by vm_compute|].
  intros R getProducts. unfold Routes.get_products, Routes.route. by rewrite H.
Qed.

(** C3 (fails on the code): a create payload whose price has more than
    two decimals is supposed to be rejected.  Joi applies
    [precision(2)] as a conversion, since the gate leaves [convert] on:
    the price 10.999 is rounded to 11 and the payload passes the gate,
    so the message that [createProductSchema] gives for
    [number.precision] is never sent. *)
Theorem C3_price_10_999_is_rounded_and_accepted :
  let payload : gmap string value :=
    {[ "name" := VStr "Widget"; "price" := VNum (10999 # 1000);
       "category" := VStr "Tools"; "stock" := VNum 3 ]} in
  let req := {| req_body := payload; req_query := ∅; req_params_id := "" |} in
  Validation.validate Schemas.createProductSchema body req
  = next {| req_body := <[ "price" := VNum 11 ]> payload;
            req_query := ∅; req_params_id := "" |}.
Proof. vm_compute. reflexivity. Qed.

End price_range.

Section error_handler.
Import Http JS ErrorHandler Errors.

(** C2 (as stated, fails): for an id that is not well formed the error
    handler does answer 404, but with kind INVALID_ID, not
    PRODUCT_NOT_FOUND. *)
Lemma C2_counterexample :
  ∃ res, errorHandler (Some "production") cast_error = sent res
    ∧ status res = 404%Z
    ∧ error_code (error res) = VStr "INVALID_ID"
    ∧ error_code (error res) ≠ VStr "PRODUCT_NOT_FOUND".
Proof. eexists. split; [reflexivity|]. by repeat split. Qed.

(** C2 (amended): a cast error, which is what an id that is not well
    formed raises, is answered with HTTP 404, kind INVALID_ID and the
    message "Resource not found", in every environment; the error of an
    absent product is answered with HTTP 404 and kind PRODUCT_NOT_FOUND.
    The two share the status and differ in the kind. *)
Theorem C2_malformed_id_is_404_INVALID_ID NODE_ENV err :
  err_name err = "CastError" → err_code err = None →
  (∃ res, errorHandler NODE_ENV err = sent res
     ∧ status res = 404%Z
     ∧ success res = false
     ∧ error_code (error res) = VStr "INVALID_ID"
     ∧ error_message (error res) = "Resource not found"
     ∧ error_details (error res) = None)
  ∧ (∃ res, errorHandler NODE_ENV not_found_error = sent res
       ∧ status res = 404%Z
       ∧ error_code (error res) = VStr "PRODUCT_NOT_FOUND").
Proof.
  intros Hname Hcode. split.
  - unfold errorHandler. rewrite Hname, Hcode. simpl.
    eexists. split; [reflexivity|]. by repeat split.
  - eexists. split; [reflexivity|]. by split.
Qed.

Lemma C2_malformed_id_witness :
  (∃ res, errorHandler None cast_error = sent res
     ∧ status res = 404%Z
     ∧ success res = false
     ∧ error_code (error res) = VStr "INVALID_ID"
     ∧ error_message (error res) = "Resource not found"
     ∧ error_details (error res) = None)
  ∧ (∃ res, errorHandler None not_found_error = sent res
       ∧ status res = 404%Z
       ∧ error_code (error res) = VStr "PRODUCT_NOT_FOUND").
Proof.
  apply (C2_malformed_id_is_404_INVALID_ID None cast_error); reflexivity.
Defined.

(** C9 (as stated, fails), on two counts.  In production the answer to
    an unanticipated failure carries the message of the error and its
    [details] as they are, which is diagnostic detail.  In the test
    environment, which is not a production build, no stack trace is
    appended, although the error has one. *)
Lemma C9_counterexample :
  unanticipated connection_error
  ∧ (∃ res, errorHandler (Some "production") connection_error = sent res
       ∧ status res = 500%Z
       ∧ error_code (error res) = VStr "INTERNAL_ERROR"
       ∧ error_message (error res) = "connect ECONNREFUSED 10.0.3.17:27017"
       ∧ error_details (error res)
         = Some (other (VStr "replica set rs0, primary db-1.internal")))
  ∧ Some "test" ≠ Some "production"
  ∧ is_Some (err_stack connection_error)
  ∧ (∃ res, errorHandler (Some "test") connection_error = sent res
       ∧ status res = 500%Z
       ∧ error_stack (error res) = None).
Proof.
  split; [by repeat split; try (by left)|].
  split; [eexists; split; [reflexivity|]; by repeat split|].
  split; [done|]. split; [by eexists|].
  eexists. split; [reflexivity|]. by split.
Qed.

(** C9 (amended): an unanticipated failure is answered with HTTP 500
    and kind INTERNAL_ERROR.  In every environment, production
    included, the envelope carries the message of the error, or
    "Internal Server Error" when it has none, and the [details] of the
    error when it has any; the stack trace of the error is appended
    exactly when NODE_ENV is "development", so neither in production
    nor in another build such as "test". *)
Theorem C9_unanticipated_failure_is_500 NODE_ENV err :
  unanticipated err →
  ∃ res, errorHandler NODE_ENV err = sent res
    ∧ status res = 500%Z
    ∧ success res = false
    ∧ error_code (error res) = VStr "INTERNAL_ERROR"
    ∧ error_message (error res)
        = match err_message err with
          | Some "" | None => "Internal Server Error"
          | Some m => m
          end
    ∧ error_details (error res)
        = match err_details err with
          | Some d => if truthy (Some d) then Some (other d) else None
          | None => None
          end
    ∧ (NODE_ENV = Some "development" → error_stack (error res) = err_stack err)
    ∧ (NODE_ENV ≠ Some "development" → error_stack (error res) = None).
Proof.
  intros (Hcast & Hval & Hjwt & Hexp & Hcode & Hstatus).
  unfold errorHandler.
  apply String.eqb_neq in Hcast, Hval, Hjwt, Hexp.
  rewrite Hcast, Hval, Hjwt, Hexp.
  assert (Hdup : match err_code err with
                 | Some (VNum q) => Qeq_bool q (inject_Z 11000)
                 | _ => false
                 end = false).
  { destruct (err_code err) as [[| | q | | |]|]; try done.
    simpl in Hcode. apply negb_false_iff, Qeq_bool_iff in Hcode.
    apply not_true_is_false. intros Heq. apply Qeq_bool_iff in Heq.
    rewrite Hcode in Heq. done. }
  rewrite Hdup. cbn [statusCode message code details].
  rewrite Hcode.
  eexists. split; [reflexivity|]. cbn [status success error error_code error_message
    error_details error_stack].
  split; [by destruct Hstatus as [-> | ->]|].
  split; [done|]. split; [done|]. split; [done|].
  split; [by destruct (err_details err)|].
  split; [intros ->; by rewrite bool_decide_eq_true_2|].
  intros Hne; by rewrite bool_decide_eq_false_2.
Qed.

Lemma C9_unanticipated_failure_witness :
  ∃ res, errorHandler (Some "production") connection_error = sent res
    ∧ status res = 500%Z
    ∧ success res = false
    ∧ error_code (error res) = VStr "INTERNAL_ERROR"
    ∧ error_message (error res) = "connect ECONNREFUSED 10.0.3.17:27017"
    ∧ error_details (error res)
      = Some (other (VStr "replica set rs0, primary db-1.internal"))
    ∧ (Some "production" = Some "development" →
         error_stack (error res) = err_stack connection_error)
    ∧ (Some "production" ≠ Some "development" → error_stack (error res) = None).
Proof.
  apply (C9_unanticipated_failure_is_500 (Some "production") connection_error).
  unfold unanticipated. simpl. repeat split; try done. by left.
Defined.

End error_handler.

Section price_rounding.
Import JS Gate.

#[local] Instance Math_round_proper : Proper (Qeq ==> eq) Math_round.
Proof. intros x y Hxy. unfold Math_round. by rewrite Hxy. Qed.

#[local] Instance round2_proper : Proper (Qeq ==> Qeq) round2.
Proof. intros x y Hxy. unfold round2. by rewrite Hxy. Qed.

Lemma Math_round_integer (n : Z) : Math_round (inject_Z n) = n.
Proof.
  unfold Math_round, Qfloor, Qplus, inject_Z. simpl.
  symmetry. apply (Z.div_unique_pos _ _ _ 1); lia.
Qed.

(** Rounding to two decimals a price that has two decimals changes
    nothing. *)
Lemma round2_idempotent (p : Q) : (round2 (round2 p) == round2 p)%Q.
Proof.
  unfold round2 at 1 3.
  assert (E : (round2 p * inject_Z 100 == inject_Z (Math_round (p * inject_Z 100)))%Q).
  { unfold round2. field. }
  rewrite E. by rewrite Math_round_integer.
Qed.



End price_rounding.

Section query_rules.
Import Http JS Gate.

(** C10: a list-products query whose [search], once trimmed, is longer
    than 100 characters is rejected by the gate with HTTP 400 and kind
    VALIDATION_ERROR, whatever the rest of the query. *)
Theorem C10_long_search_is_rejected req s :
  req_query req !! "search" = Some (VStr s) →
  (100 < String.length (trim s))%nat →
  rejected (Validation.validate Schemas.querySchema query req)
  ∧ ∀ (R : Type) (getProducts : request → R),
      ∃ res, Routes.get_products getProducts req = Routes.answered res
        ∧ status res = 400%Z
        ∧ error_code (error res) = VStr "VALIDATION_ERROR".
Proof.
  intros Hsearch Hlong.
  assert (Hrej : rejected (Validation.validate Schemas.querySchema query req)).
  { apply (gate_rejects_field _ _ _ "search" (Joi.string |> Joi.trim |> Joi.max 100)).
    - apply querySchema_keys.
    - apply querySchema_custom.
    - by apply assoc_elem_of.
    - simpl get. rewrite Hsearch.
      unfold field_violations. cbn [fmap option_fmap option_map Joi.coerce Joi._type Joi._rules
        Joi.max Joi.trim Joi.add_rule Joi.string app existsb Joi.is_trim orb Joi._valids
        Joi._only Joi.base Joi.is_min0].
      destruct (trim s) as [|c r] eqn:Htrim; [simpl in Hlong; lia|].
      cbn [omap list_omap Joi.test]. 
      destruct (Z.of_nat (String.length (String c r)) <=? 100)%Z eqn:Hle; [|done].
      apply Z.leb_le in Hle. lia. }
  split; [exact Hrej|].
  intros R getProducts. destruct Hrej as (vs & _ & Hres).
  exists (failure vs). unfold Routes.get_products, Routes.route.
  by rewrite Hres.
Qed.

End query_rules.

Lemma C10_long_search_witness :
  Http.req_query Samples.long_search !! "search"
    = Some (JS.VStr (" " +:+ Samples.repeated 101 "a" +:+ " "))
  ∧ (100 < String.length (JS.trim (" " +:+ Samples.repeated 101 "a" +:+ " ")))%nat
  ∧ Gate.rejected (Validation.validate Schemas.querySchema Http.query Samples.long_search).
Proof.
  split; [reflexivity|]. split; [vm_compute; lia|].
  apply (C10_long_search_is_rejected Samples.long_search
           (" " +:+ Samples.repeated 101 "a" +:+ " ")); [reflexivity|vm_compute; lia].
Defined.

Section query_defaults.
Import Http JS Gate.

(** C6: when the gate lets a list-products query through, an absent
    [page] has become 1, an absent [limit] 10, an absent [sort]
    ["-createdAt"]; a [limit] that reads as a number greater than 100
    is rejected with VALIDATION_ERROR, and so is a [sort] that is not a
    field of the whitelist, with or without the marker of descending
    order. *)
Theorem C6_query_defaults_and_bounds req :
  (∀ req', Validation.validate Schemas.querySchema query req = next req' →
     (req_query req !! "page" = None → req_query req' !! "page" = Some (VNum 1))
     ∧ (req_query req !! "limit" = None → req_query req' !! "limit" = Some (VNum 10))
     ∧ (req_query req !! "sort" = None →
          req_query req' !! "sort" = Some (VStr "-createdAt")))
  ∧ (∀ v n, req_query req !! "limit" = Some v →
       Joi.coerce Joi.number v = VNum n → (100 < n)%Q →
       rejected (Validation.validate Schemas.querySchema query req))
  ∧ (∀ v, req_query req !! "sort" = Some v →
       (∀ x, x ∈ Listing.sort_whitelist → v ≠ VStr x) →
       rejected (Validation.validate Schemas.querySchema query req)).
Proof.
  split; [|split].
  - intros req' Hnext.
    apply (gate_next _ _ _ _ querySchema_keys querySchema_custom) in Hnext
      as (_ & _ & ->).
    simpl req_query. simpl get.
    split; [|split]; intros Habsent.
    + erewrite (normalized_known _ _ "page"); [|apply querySchema_keys|by apply assoc_elem_of].
      unfold field_result. simpl fst. simpl snd. rewrite Habsent.
      by rewrite validate_field_absent.
    + erewrite (normalized_known _ _ "limit"); [|apply querySchema_keys|by apply assoc_elem_of].
      unfold field_result. simpl fst. simpl snd. rewrite Habsent.
      by rewrite validate_field_absent.
    + erewrite (normalized_known _ _ "sort"); [|apply querySchema_keys|by apply assoc_elem_of].
      unfold field_result. simpl fst. simpl snd. rewrite Habsent.
      by rewrite validate_field_absent.
  - intros v n Hlimit Hnum Hbig.
    eapply (gate_rejects_field _ _ _ "limit");
      [apply querySchema_keys|apply querySchema_custom|by apply assoc_elem_of|].
    simpl get. rewrite Hlimit. unfold field_violations.
    cbv zeta. destruct (Joi.unsafe _ v); [done|].
    replace (Joi.coerce _ v) with (VNum n) by (rewrite <- Hnum; by destruct v).
    cbn [Joi._valids Joi._only Joi.base Joi._type Joi._rules Joi.getPrecision
         Joi.default Joi.max Joi.min Joi.min_field Joi.integer Joi.add_rule Joi.number app].
    destruct (_ || _); [done|].
    cbn [omap list_omap Joi.test].
    assert (Hmax : Qle_bool n (inject_Z 100) = false).
    { apply not_true_is_false. intros Hle. apply Qle_bool_iff in Hle.
      apply (Qlt_not_le _ _ Hbig). exact Hle. }
    rewrite Hmax.
    destruct (Qeq_bool _ 0); destruct (Qle_bool (inject_Z 1) n); done.
  - intros v Hsort Hnot.
    eapply (gate_rejects_field _ _ _ "sort");
      [apply querySchema_keys|apply querySchema_custom|by apply assoc_elem_of|].
    simpl get. rewrite Hsort. unfold field_violations.
    cbv zeta. replace (Joi.unsafe _ v) with false by (by destruct v).
    replace (Joi.coerce _ v) with v by (by destruct v).
    cbn [Joi._valids Joi._only Joi.default Joi.valid Joi.string app].
    match goal with |- context [if ?b then [] else _] => destruct b eqn:Hallowed end; [|done].
    exfalso. destruct v as [| | | |x|]; try done.
    apply existsb_exists in Hallowed as (y & Hy & Hxy).
    apply String.eqb_eq in Hxy as ->.
    apply (Hnot y); [|done]. by apply list_elem_of_In.
Qed.

Lemma C6_query_defaults_witness :
  (∃ req', Validation.validate Schemas.querySchema query Samples.no_parameters = next req'
       ∧ req_query req' !! "page" = Some (VNum 1)
       ∧ req_query req' !! "limit" = Some (VNum 10)
       ∧ req_query req' !! "sort" = Some (VStr "-createdAt"))
  ∧ rejected (Validation.validate Schemas.querySchema query Samples.limit_101)
  ∧ rejected (Validation.validate Schemas.querySchema query Samples.sort_rating).
Proof.
  split; [|split].
  - exists (Samples.with_query
              {[ "page" := VNum 1; "limit" := VNum 10; "sort" := VStr "-createdAt" ]}).
    assert (Hnext : Validation.validate Schemas.querySchema query Samples.no_parameters
                    = next (Samples.with_query
                        {[ "page" := VNum 1; "limit" := VNum 10;
                           "sort" := VStr "-createdAt" ]}))
      by (vm_compute; reflexivity).
    split; [exact Hnext|].
    destruct (proj1 (C6_query_defaults_and_bounds Samples.no_parameters) _ Hnext)
      as (Hp & Hl & Hs).
    split; [by apply Hp|]. split; [by apply Hl|by apply Hs].
  - apply (proj1 (proj2 (C6_query_defaults_and_bounds Samples.limit_101))
             (VStr "101") (101 # 1)%Q); [reflexivity|reflexivity|reflexivity].
  - apply (proj2 (proj2 (C6_query_defaults_and_bounds Samples.sort_rating)) (VStr "rating"));
      [reflexivity|].
    intros x Hx [= <-]. apply list_elem_of_In in Hx. simpl in Hx.
    repeat (destruct Hx as [Hx|Hx]; [discriminate Hx|]). done.
Defined.

End query_defaults.



Section pagination.
Import Http JS Gate.

(** The result of [Math.ceil(total / limit)]: the least number of pages
    of [limit] items that hold [total] items. *)
Lemma Math_ceil_pages (total limit : Z) :
  (1 ≤ limit)%Z →
  let pages := Math_ceil (inject_Z total / inject_Z limit) in
  ((pages - 1) * limit < total ≤ pages * limit)%Z.
Proof.
  intros Hlimit pages.
  assert (Hpos : (0 < inject_Z limit)%Q).
  { change 0%Q with (inject_Z 0). rewrite <- Zlt_Qlt. lia. }
  assert (Hx : (inject_Z total / inject_Z limit * inject_Z limit == inject_Z total)%Q).
  { field. intros H0. rewrite H0 in Hpos. by apply Qlt_irrefl in Hpos. }
  split.
  - pose proof (Qceiling_lt (inject_Z total / inject_Z limit)) as Hlt.
    fold (Math_ceil (inject_Z total / inject_Z limit)) in Hlt. fold pages in Hlt.
    apply (Qmult_lt_compat_r _ _ _ Hpos) in Hlt.
    rewrite Hx, <- inject_Z_mult in Hlt. by rewrite <- Zlt_Qlt in Hlt.
  - pose proof (Qle_ceiling (inject_Z total / inject_Z limit)) as Hle.
    fold (Math_ceil (inject_Z total / inject_Z limit)) in Hle. fold pages in Hle.
    apply (Qmult_le_compat_r _ _ (inject_Z limit)) in Hle; [|by apply Qlt_le_weak].
    rewrite Hx, <- inject_Z_mult in Hle. by rewrite <- Zle_Qle in Hle.
Qed.

Lemma querySchema_page :
  ("page", Joi.number |> Joi.integer |> Joi.min 1 |> Joi.default (num 1))
  ∈ Joi.keys Schemas.querySchema.
Proof. by apply assoc_elem_of. Qed.

Lemma querySchema_limit :
  ("limit", Joi.number |> Joi.integer |> Joi.min 1 |> Joi.max 100 |> Joi.default (num 10))
  ∈ Joi.keys Schemas.querySchema.
Proof. by apply assoc_elem_of. Qed.

Lemma querySchema_sort :
  ("sort", Joi.string |> Joi.valid Listing.sort_whitelist |> Joi.default (VStr "-createdAt"))
  ∈ Joi.keys Schemas.querySchema.
Proof. by apply assoc_elem_of. Qed.

(** C5: a query that passed the gate has a page of at least 1 and a
    limit between 1 and 100; the listing then returns at most [limit]
    items, which are the items from position [(page-1)*limit] up to,
    not including, [page*limit] of the filtered and sorted result set;
    [total] counts the whole result set and [totalPages] is
    [ceil(total/limit)], the least number of pages that hold it. *)
Theorem C5_listing_is_a_page_of_the_results store raw req :
  Validation.validate Schemas.querySchema query raw = next req →
  ∃ q, Store.params_of (req_query req) = Some q
    ∧ (1 ≤ Store.page q)%Z ∧ (1 ≤ Store.limit q ≤ 100)%Z
    ∧ let r := Store.list q store in
      let results := Store.result_set q store in
      let skip := Z.to_nat ((Store.page q - 1) * Store.limit q) in
      (Z.of_nat (length (Store.items r)) ≤ Store.limit q)%Z
      ∧ Store.items r = take (Z.to_nat (Store.limit q)) (drop skip results)
      ∧ (∀ i : nat, (Z.of_nat i < Store.limit q)%Z →
           Store.items r !! i = results !! (skip + i)%nat)
      ∧ Store.pagination_page (Store.meta r) = Store.page q
      ∧ Store.pagination_limit (Store.meta r) = Store.limit q
      ∧ Store.pagination_total (Store.meta r) = Z.of_nat (length results)
      ∧ Store.pagination_totalPages (Store.meta r)
        = Math_ceil (inject_Z (Z.of_nat (length results)) / inject_Z (Store.limit q))
      ∧ ((Store.pagination_totalPages (Store.meta r) - 1) * Store.limit q
           < Z.of_nat (length results)
           ≤ Store.pagination_totalPages (Store.meta r) * Store.limit q)%Z.
Proof.
  intros Hnext.
  apply (gate_next _ _ _ _ querySchema_keys querySchema_custom) in Hnext
    as (Hfields & _ & ->).
  simpl req_query. simpl get in Hfields. set (input := req_query raw) in *.
  (* page *)
  assert (Hpage : ∃ p, normalized Schemas.querySchema input !! "page" = Some (VNum p)
                    ∧ (1 <= p)%Q).
  { rewrite (normalized_known _ _ _ _ querySchema_keys querySchema_page).
    pose proof (field_valid_of_fields _ _ _ _ Hfields querySchema_page) as Hvalid.
    unfold field_result. simpl fst. simpl snd.
    destruct (input !! "page") as [v|].
    - apply number_field_valid_exact in Hvalid; [|done..].
      destruct Hvalid as (p & -> & Hrules). exists p. split; [done|].
      cbn in Hrules. apply Forall_cons in Hrules as [_ Hrules].
      apply Forall_cons in Hrules as [Hmin _]. cbn in Hmin.
      destruct (Qle_bool (inject_Z 1) p) eqn:Hle; [|done]. by apply Qle_bool_iff in Hle.
    - apply number_field_valid in Hvalid; [|done..].
      rewrite Hvalid. exists 1%Q. by split. }
  (* limit *)
  assert (Hlimit : ∃ l, normalized Schemas.querySchema input !! "limit" = Some (VNum l)
                    ∧ (1 <= l)%Q ∧ (l <= 100)%Q).
  { rewrite (normalized_known _ _ _ _ querySchema_keys querySchema_limit).
    pose proof (field_valid_of_fields _ _ _ _ Hfields querySchema_limit) as Hvalid.
    unfold field_result. simpl fst. simpl snd.
    destruct (input !! "limit") as [v|].
    - apply number_field_valid_exact in Hvalid; [|done..].
      destruct Hvalid as (l & -> & Hrules). exists l. split; [done|].
      cbn in Hrules. apply Forall_cons in Hrules as [_ Hrules].
      apply Forall_cons in Hrules as [Hmin Hrules].
      apply Forall_cons in Hrules as [Hmax _]. cbn in Hmin, Hmax.
      destruct (Qle_bool (inject_Z 1) l) eqn:Hle; [|done]. apply Qle_bool_iff in Hle.
      destruct (Qle_bool l (inject_Z 100)) eqn:Hle'; [|done]. by apply Qle_bool_iff in Hle'.
    - apply number_field_valid in Hvalid; [|done..].
      rewrite Hvalid. exists 10%Q. by split. }
  (* sort *)
  assert (Hsort : ∃ s, normalized Schemas.querySchema input !! "sort" = Some (VStr s)).
  { rewrite (normalized_known _ _ _ _ querySchema_keys querySchema_sort).
    pose proof (field_valid_of_fields _ _ _ _ Hfields querySchema_sort) as Hvalid.
    unfold field_result. simpl fst. simpl snd.
    destruct (input !! "sort") as [v|]; [|by eexists].
    revert Hvalid. unfold field_violations, Joi.validate_field.
    cbn [fmap option_fmap option_map].
    replace (Joi.coerce _ v) with v by (by destruct v).
    match goal with |- context [if ?b then [] else _] => destruct b eqn:Hallowed end; [|done].
    intros _. destruct v as [| | | |x|]; try done. by exists x. }
  destruct Hpage as (p & Hp & Hp1). destruct Hlimit as (l & Hl & Hl1 & Hl100).
  destruct Hsort as (s & Hs).
  unfold Store.params_of. rewrite Hp, Hl, Hs. cbn [Store.as_integer Store.as_string mbind option_bind].
  eexists. split; [reflexivity|].
  cbn [Store.page Store.limit].
  assert (Hp' : (1 ≤ Qfloor p)%Z).
  { rewrite <- (Qfloor_Z 1). by apply Qfloor_resp_le. }
  assert (Hl' : (1 ≤ Qfloor l ≤ 100)%Z).
  { split.
    - rewrite <- (Qfloor_Z 1). by apply Qfloor_resp_le.
    - rewrite <- (Qfloor_Z 100). by apply Qfloor_resp_le. }
  split; [exact Hp'|]. split; [exact Hl'|].
  cbv zeta. unfold Store.list. cbn [Store.items Store.meta Store.pagination_page
    Store.pagination_limit Store.pagination_total Store.pagination_totalPages
    Store.page Store.limit].
  split; [rewrite length_take; lia|].
  split; [done|].
  split.
  { intros i Hi. rewrite lookup_take_lt by lia. by rewrite lookup_drop. }
  split; [done|]. split; [done|]. split; [done|]. split; [done|].
  apply Math_ceil_pages. lia.
Qed.

End pagination.

Lemma C5_listing_witness :
  ∃ q, Store.params_of (Http.req_query Samples.second_page_normalized) = Some q
    ∧ Store.page q = 2%Z ∧ Store.limit q = 2%Z
    ∧ map Product.name (Store.result_set q Samples.three_products)
      = ["Product 1"; "Product 3"; "Product 2"]
    ∧ map Product.name (Store.items (Store.list q Samples.three_products)) = ["Product 2"]
    ∧ Store.pagination_total (Store.meta (Store.list q Samples.three_products)) = 3%Z
    ∧ Store.pagination_totalPages (Store.meta (Store.list q Samples.three_products)) = 2%Z
    ∧ (Z.of_nat (length (Store.items (Store.list q Samples.three_products)))
         ≤ Store.limit q)%Z.
Proof.
  assert (Hnext : Validation.validate Schemas.querySchema Http.query Samples.second_page
                  = Http.next Samples.second_page_normalized) by (vm_compute; reflexivity).
  destruct (C5_listing_is_a_page_of_the_results Samples.three_products
              Samples.second_page Samples.second_page_normalized Hnext)
    as (q & Hq & _ & _ & Hlen & _).
  exists q. split; [exact Hq|].
  assert (q = {| Store.page := 2; Store.limit := 2; Store.sort := "price";
                 Store.category := None; Store.minPrice := None;
                 Store.maxPrice := None; Store.search := None |}) as ->.
  { vm_compute in Hq. by injection Hq as <-. }
  split; [reflexivity|]. split; [reflexivity|].
  split; [vm_compute; reflexivity|]. split; [vm_compute; reflexivity|].
  split; [vm_compute; reflexivity|]. split; [vm_compute; reflexivity|].
  exact Hlen.
Defined.

(* ===================================================================== *)
(** ** Checks of the embedding on concrete values                        *)
(* ===================================================================== *)

Example parseNumber_decimal : JS.parseNumber "10.999" = Some (10999 # 1000)%Q.
Proof. reflexivity. Qed.

Example parseNumber_signed_exponent : JS.parseNumber " -.5e1 " = Some (-5 # 1)%Q.
Proof. reflexivity. Qed.

Example parseNumber_not_a_number :
  JS.parseNumber "abc" = None ∧ JS.parseNumber "" = None ∧ JS.parseNumber "." = None
  ∧ JS.parseNumber "1e" = None ∧ JS.parseNumber "12x" = None.
Proof. repeat split; reflexivity. Qed.

Example trim_both_ends : JS.trim "  a b  " = "a b" ∧ JS.trim "   " = "".
Proof. split; reflexivity. Qed.

Example Math_round_halves :
  JS.Math_round (5 # 2) = 3%Z ∧ JS.Math_round (-5 # 2) = (-2)%Z
  ∧ JS.Math_round (10999 # 10) = 1100%Z.
Proof. repeat split; reflexivity. Qed.

(** The scenario of the integration tests: [{ name: "", price: -10,
    stock: -5 }] is answered with 400 and four field errors. *)
Example invalid_product_has_four_errors :
  ∃ errors, Validation.validate Schemas.createProductSchema Http.body Samples.invalid_product
    = Http.respond
        {| Http.status := 400; Http.success := false;
           Http.error := {| Http.error_message := "Validation failed";
                            Http.error_code := JS.VStr "VALIDATION_ERROR";
                            Http.error_details := Some (Http.field_errors errors);
                            Http.error_stack := None |} |}
    ∧ map Http.field errors = ["name"; "price"; "category"; "stock"]
    ∧ map Http.message errors
      = [Joi.Text "Product name is required"; Joi.Text "Price must be a positive number";
         Joi.Text "Product category is required"; Joi.Text "Stock cannot be negative"].
Proof. eexists. split; [vm_compute; reflexivity|]. split; reflexivity. Qed.

(** An update with a field that the schema does not name: the field is
    removed and the rest goes through. *)
Example unknown_field_is_stripped :
  Validation.validate Schemas.updateProductSchema Http.body Samples.update_with_unknown_field
  = Http.next (Samples.with_body {[ "name" := JS.VStr "Updated Product" ]}).
Proof. vm_compute. reflexivity. Qed.

(** With both prices different from 0 the cross-field rule does reject. *)
Example price_range_rejected :
  Validation.validate Schemas.querySchema Http.query
    (Samples.with_query {[ "minPrice" := JS.VStr "5"; "maxPrice" := JS.VStr "1" ]})
  = Http.respond (Gate.failure
      [Joi.object_error "any.invalid"
         {[ "page" := JS.VNum 1; "limit" := JS.VNum 10; "sort" := JS.VStr "-createdAt";
            "minPrice" := JS.VNum 5; "maxPrice" := JS.VNum 1 ]}]).
Proof. vm_compute. reflexivity. Qed.

(* ===================================================================== *)
(** ** Further properties of the error handler                           *)
(* ===================================================================== *)

Section error_handler_more.
Import Http JS ErrorHandler Errors.

(** [err.code === 11000] *)
Lemma duplicate_key_test (c : option value) :
  match c with
  | Some (VNum q) => Qeq_bool q (inject_Z 11000)
  | _ => false
  end = true ↔ ∃ q, c = Some (VNum q) ∧ (q == inject_Z 11000)%Q.
Proof.
  split.
  - destruct c as [[| |q| | |]|]; try done. intros H. exists q. split; [done|].
    by apply Qeq_bool_iff.
  - intros (q & -> & Hq). by apply Qeq_bool_iff.
Qed.

(** X1: whatever the error, a response of the error handler carries the
    stack trace of the error when NODE_ENV is "development" and no
    stack trace at all in any other environment. *)
Theorem X1_stack_only_in_development NODE_ENV err res :
  errorHandler NODE_ENV err = sent res →
  (NODE_ENV = Some "development" → error_stack (error res) = err_stack err)
  ∧ (NODE_ENV ≠ Some "development" → error_stack (error res) = None)
  ∧ success res = false.
Proof.
  unfold errorHandler. intros Hsent.
  repeat match type of Hsent with
  | context [match ?x with _ => _ end] =>
      lazymatch x with
      | context [match _ with _ => _ end] => fail
      | bool_decide _ => fail
      | _ => destruct x eqn:?
      end
  end; try discriminate Hsent;
  injection Hsent as <-; cbn [error error_stack success];
  (split; [intros ->; by rewrite bool_decide_eq_true_2
          |split; [intros Hne; by rewrite bool_decide_eq_false_2|done]]).
Qed.

(** X2: the error handler itself throws, instead of answering, in
    exactly two cases: a duplicate-key error (code 11000) without
    [keyValue], and an error named "ValidationError" without [errors]. *)
Theorem X2_error_handler_throws_iff NODE_ENV err :
  errorHandler NODE_ENV err = thrown ↔
    ((∃ q, err_code err = Some (VNum q) ∧ (q == inject_Z 11000)%Q)
       ∧ err_keyValue err = None)
    ∨ (err_name err = "ValidationError" ∧ err_errors err = None).
Proof.
  unfold errorHandler.
  pose proof (duplicate_key_test (err_code err)) as Hdup.
  destruct (match err_code err with
            | Some (VNum q) => Qeq_bool q (inject_Z 11000)
            | _ => false
            end) eqn:Hd.
  - destruct (err_keyValue err) as [kv|] eqn:Hkv.
    + destruct (String.eqb (err_name err) "ValidationError") eqn:Hname.
      * apply String.eqb_eq in Hname.
        destruct (err_errors err) as [vals|] eqn:Hvals.
        -- split; [done|]. intros [[_ ?]|[_ ?]]; done.
        -- split; [|done]. intros _. by right.
      * apply String.eqb_neq in Hname.
        split; [done|]. intros [[_ ?]|[? _]]; done.
    + split; [|done]. intros _. left. split; [by apply Hdup|done].
  - assert (Hnot : ¬ ∃ q, err_code err = Some (VNum q) ∧ (q == inject_Z 11000)%Q).
    { intros H. apply Hdup in H. done. }
    destruct (String.eqb (err_name err) "ValidationError") eqn:Hname.
    + apply String.eqb_eq in Hname.
      destruct (err_errors err) as [vals|] eqn:Hvals.
      * split; [done|]. intros [[? _]|[_ ?]]; done.
      * split; [|done]. intros _. by right.
    + apply String.eqb_neq in Hname.
      split; [done|]. intros [[? _]|[? _]]; done.
Qed.

(** X3: the name of the error decides the answer, whatever status code,
    code, message or details the error carries: "TokenExpiredError" is
    answered 401 TOKEN_EXPIRED, "JsonWebTokenError" 401 INVALID_TOKEN,
    and "ValidationError" 400 VALIDATION_ERROR with one entry, field,
    message and value, for each entry of [err.errors], in order. *)
Theorem X3_error_name_decides_the_answer NODE_ENV err res :
  errorHandler NODE_ENV err = sent res →
  (err_name err = "TokenExpiredError" →
     status res = 401%Z ∧ error_code (error res) = VStr "TOKEN_EXPIRED"
     ∧ error_message (error res) = "Token expired"
     ∧ error_details (error res) = None)
  ∧ (err_name err = "JsonWebTokenError" →
       status res = 401%Z ∧ error_code (error res) = VStr "INVALID_TOKEN"
       ∧ error_message (error res) = "Invalid token"
       ∧ error_details (error res) = None)
  ∧ (err_name err = "ValidationError" →
       status res = 400%Z ∧ error_code (error res) = VStr "VALIDATION_ERROR"
       ∧ error_message (error res) = "Validation failed"
       ∧ ∃ vals, err_errors err = Some vals
           ∧ error_details (error res)
             = Some (field_errors
                 (map (λ val, {| field := val_path val;
                                 Http.message := Joi.Text (val_message val);
                                 Http.value := match val_value val with
                                               | Some v => Joi.scalar v
                                               | None => Joi.undefined
                                               end |}) vals))).
Proof.
  unfold errorHandler. intros Hsent.
  split; [|split]; intros Hname; rewrite Hname in Hsent; cbn [String.eqb Ascii.eqb Bool.eqb] in Hsent.
  - destruct (match err_code err with
              | Some (VNum q) => Qeq_bool q (inject_Z 11000)
              | _ => false
              end); [destruct (err_keyValue err); [|done]|];
    injection Hsent as <-; done.
  - destruct (match err_code err with
              | Some (VNum q) => Qeq_bool q (inject_Z 11000)
              | _ => false
              end); [destruct (err_keyValue err); [|done]|];
    injection Hsent as <-; done.
  - destruct (err_errors err) as [vals|]; [|by repeat case_match].
    destruct (match err_code err with
              | Some (VNum q) => Qeq_bool q (inject_Z 11000)
              | _ => false
              end); [destruct (err_keyValue err); [|done]|];
    injection Hsent as <-; (repeat split; try done); by exists vals.
Qed.

(** X4: a duplicate-key error (code 11000) whose name is none of the
    three above is answered 400 DUPLICATE_FIELD, also when it is a cast
    error; the message and the details name the first key of
    [err.keyValue] and its value.  With an empty [keyValue] the message
    reads "undefined already exists". *)
Theorem X4_duplicate_key_is_400 NODE_ENV err q keyValue :
  err_code err = Some (VNum q) → (q == inject_Z 11000)%Q →
  err_keyValue err = Some keyValue →
  err_name err ≠ "ValidationError" → err_name err ≠ "JsonWebTokenError" →
  err_name err ≠ "TokenExpiredError" →
  ∃ res, errorHandler NODE_ENV err = sent res
    ∧ status res = 400%Z
    ∧ error_code (error res) = VStr "DUPLICATE_FIELD"
    ∧ match keyValue with
      | (field, value) :: _ =>
          error_message (error res) = field +:+ " already exists"
          ∧ error_details (error res) = Some (duplicate (Some field) (Some value))
      | [] =>
          error_message (error res) = "undefined already exists"
          ∧ error_details (error res) = Some (duplicate None None)
      end.
Proof.
  intros Hcode Hq Hkv Hval Hjwt Hexp.
  unfold errorHandler.
  apply String.eqb_neq in Hval, Hjwt, Hexp.
  rewrite Hcode, Hkv, Hval, Hjwt, Hexp.
  apply Qeq_bool_iff in Hq. rewrite Hq.
  eexists. split; [reflexivity|]. cbn [status error error_code error_message error_details
    statusCode code message details truthy].
  split; [done|]. split; [done|].
  destruct keyValue as [|[field value] rest]; cbn.
  - done.
  - rewrite String.eqb_refl. split; [|done].
    destruct (field +:+ " already exists") eqn:Hempty; [|done].
    exfalso. destruct field; discriminate Hempty.
Qed.

(** X5: an error that no branch recognizes and that carries a status
    code and a code of its own, as the errors raised by the controllers
    and the auth guard do, is answered with exactly that status and
    that code, and with its message unless the message is empty. *)
Theorem X5_own_status_and_code_pass_through NODE_ENV err n c :
  err_name err ≠ "CastError" → err_name err ≠ "ValidationError" →
  err_name err ≠ "JsonWebTokenError" → err_name err ≠ "TokenExpiredError" →
  err_statusCode err = Some n → n ≠ 0%Z →
  err_code err = Some (VStr c) → c ≠ "" →
  ∃ res, errorHandler NODE_ENV err = sent res
    ∧ status res = n
    ∧ error_code (error res) = VStr c
    ∧ error_message (error res)
        = match err_message err with
          | Some "" | None => "Internal Server Error"
          | Some m => m
          end
    ∧ (err_details err = None → error_details (error res) = None).
Proof.
  intros Hcast Hval Hjwt Hexp Hstatus Hn Hcode Hc.
  unfold errorHandler.
  apply String.eqb_neq in Hcast, Hval, Hjwt, Hexp.
  rewrite Hcast, Hval, Hjwt, Hexp, Hcode, Hstatus.
  eexists. split; [reflexivity|]. cbn [status error error_code error_message error_details
    statusCode code message details truthy].
  split; [by destruct n|].
  split; [|split; [done|by intros ->]].
  apply String.eqb_neq in Hc. by rewrite Hc.
Qed.

Lemma X1_stack_witness :
  ∃ res, errorHandler (Some "production") ErrorSamples.no_token = sent res
    ∧ error_stack (error res) = None.
Proof.
  eexists. split; [reflexivity|].
  apply (X1_stack_only_in_development (Some "production") ErrorSamples.no_token);
    [reflexivity|discriminate].
Defined.

Lemma X3_error_name_witness :
  ∃ res, errorHandler None ErrorSamples.token_expired = sent res
    ∧ err_statusCode ErrorSamples.token_expired = Some 500%Z
    ∧ status res = 401%Z ∧ error_code (error res) = VStr "TOKEN_EXPIRED".
Proof.
  eexists. split; [reflexivity|]. split; [reflexivity|].
  destruct (proj1 (X3_error_name_decides_the_answer None ErrorSamples.token_expired _
                     eq_refl) eq_refl) as (Hs & Hc & _).
  by split.
Defined.

Lemma X4_duplicate_key_witness :
  ∃ res, errorHandler None ErrorSamples.duplicate_email = sent res
    ∧ status res = 400%Z
    ∧ error_code (error res) = VStr "DUPLICATE_FIELD"
    ∧ error_message (error res) = "email already exists"
    ∧ error_details (error res)
      = Some (duplicate (Some "email") (Some (VStr "test@example.com"))).
Proof.
  apply (X4_duplicate_key_is_400 None ErrorSamples.duplicate_email (inject_Z 11000)
           [("email", VStr "test@example.com")]); try reflexivity; discriminate.
Defined.

Lemma X5_pass_through_witness :
  ∃ res, errorHandler None ErrorSamples.no_token = sent res
    ∧ status res = 401%Z
    ∧ error_code (error res) = VStr "NO_TOKEN"
    ∧ error_message (error res) = "No token provided"
    ∧ (err_details ErrorSamples.no_token = None → error_details (error res) = None).
Proof.
  apply (X5_own_status_and_code_pass_through None ErrorSamples.no_token 401 "NO_TOKEN");
    try reflexivity; discriminate.
Defined.

End error_handler_more.

(* ===================================================================== *)
(** ** Further properties of the pre-save middleware                     *)
(* ===================================================================== *)

From Stdlib Require Import Lqa.

Section pre_save_more.
Import JS Gate.

#[local] Instance round2_respects_Qeq : Proper (Qeq ==> Qeq) round2.
Proof. intros x y Hxy. unfold round2, Math_round. by rewrite Hxy. Qed.

Lemma round2_bounds (p : Q) :
  (p - (1 # 200) < round2 p)%Q ∧ (round2 p <= p + (1 # 200))%Q.
Proof.
  unfold round2, Math_round.
  pose proof (Qfloor_le (p * inject_Z 100 + (1 # 2))) as Hle.
  pose proof (Qlt_floor (p * inject_Z 100 + (1 # 2))) as Hlt.
  rewrite inject_Z_plus in Hlt.
  set (x := inject_Z (Qfloor (p * inject_Z 100 + (1 # 2)))) in *. clearbody x.
  change (inject_Z 100) with 100%Q in *. change (inject_Z 1) with 1%Q in *.
  unfold Qdiv. change (/ 100)%Q with (1 # 100)%Q. split; lra.
Qed.

Lemma round2_monotone (p q : Q) : (p <= q)%Q → (round2 p <= round2 q)%Q.
Proof.
  intros Hpq. unfold round2, Math_round.
  assert (H : (Qfloor (p * inject_Z 100 + (1 # 2)) ≤ Qfloor (q * inject_Z 100 + (1 # 2)))%Z).
  { apply Qfloor_resp_le. change (inject_Z 100) with 100%Q. lra. }
  rewrite Zle_Qle in H.
  set (x := inject_Z (Qfloor (p * inject_Z 100 + (1 # 2)))) in *.
  set (y := inject_Z (Qfloor (q * inject_Z 100 + (1 # 2)))) in *. clearbody x y.
  change (inject_Z 100) with 100%Q. unfold Qdiv. change (/ 100)%Q with (1 # 100)%Q. lra.
Qed.


End pre_save_more.

(* ===================================================================== *)
(** ** Further properties of the validation gate                         *)
(* ===================================================================== *)

Section gate_more.
Import Http JS Gate.

Lemma validate_keys_early_return p ks (o : gmap string value) errors es :
  Joi.validate_keys p ks o errors = inl es → es ≠ [].
Proof.
  revert o errors. induction ks as [|[key child] ks IH]; intros o errors; simpl; [done|].
  destruct (Joi.errors_of (Joi.validate_field p child key (o !! key))) as [|e es'] eqn:He.
  - destruct (Joi.value_of _); apply IH.
  - destruct (Joi.abortEarly p); [by intros [= <-]|].
    destruct (Joi.value_of _); apply IH.
Qed.

(** An error of [schema.validate] is never an empty list. *)
Lemma validation_error_not_empty S (input : gmap string value) p es :
  Joi.validation_error (Joi.validate S input p) = Some es → es ≠ [].
Proof.
  unfold Joi.validate.
  destruct (Joi.validate_keys p (Joi.keys S) input []) as [es0|[o errors]] eqn:Hkeys.
  - simpl. intros [= <-]. by apply validate_keys_early_return in Hkeys.
  - unfold Joi.unknown.
    destruct (Joi.allowUnknown p).
    { destruct errors; simpl.
      - destruct (Joi.validate_object_rules _ _ _ _) as [o2 [|e2 es2]]; simpl; [done|].
        by intros [= <-].
      - by intros [= <-]. }
    destruct (filter _ (map_to_list _)) as [|kv rest].
    { destruct errors; simpl.
      - destruct (Joi.validate_object_rules _ _ _ _) as [o2 [|e2 es2]]; simpl; [done|].
        by intros [= <-].
      - by intros [= <-]. }
    destruct (Joi.abortEarly p); simpl; [by intros [= <-]|].
    destruct errors; simpl; by intros [= <-].
Qed.

(** X9: for every schema and every request the validation gate does one
    of two things: it answers 400 VALIDATION_ERROR with at least one
    violation, or it calls [next()] on the request with the validated
    part replaced and every other part as it was. *)
Theorem X9_gate_answers_400_or_continues S prop req :
  (∃ vs, vs ≠ []
     ∧ Validation.validate S prop req = respond (failure vs))
  ∨ (∃ o, Validation.validate S prop req = next (set prop o req)
       ∧ (∀ other, other ≠ prop → get other (set prop o req) = get other req)
       ∧ req_params_id (set prop o req) = req_params_id req).
Proof.
  unfold Validation.validate. fold options.
  destruct (Joi.validation_error (Joi.validate S (get prop req) options)) as [es|] eqn:Herr.
  - left. exists es. split; [by apply validation_error_not_empty in Herr|done].
  - right. eexists. split; [reflexivity|]. split.
    + intros other Hne. by destruct prop, other.
    + by destruct prop.
Qed.

Lemma normalized_ext S (o1 o2 : gmap string value) :
  (∀ k, k ∈ map fst (Joi.keys S) → o1 !! k = o2 !! k) →
  normalized S o1 = normalized S o2.
Proof.
  unfold normalized.
  induction (Joi.keys S) as [|[k s] ks IH]; intros Hagree; simpl; [done|].
  rewrite (field_result_ext o1 o2 (k, s)).
  - rewrite IH; [done|]. intros k' Hk'. apply Hagree. simpl. by right.
  - apply Hagree. simpl. by left.
Qed.

(** X10: fields that the schema does not name have no influence on the
    gate: two requests whose target parts agree on the fields of the
    schema are both rejected, with the same response, or both let
    through, with the same validated part. *)
Theorem X10_unknown_fields_have_no_influence S prop req1 req2 :
  NoDup (map fst (Joi.keys S)) → custom_rules_return_value S →
  (∀ k, k ∈ map fst (Joi.keys S) → get prop req1 !! k = get prop req2 !! k) →
  (∃ res, Validation.validate S prop req1 = respond res
     ∧ Validation.validate S prop req2 = respond res)
  ∨ (∃ o, Validation.validate S prop req1 = next (set prop o req1)
       ∧ Validation.validate S prop req2 = next (set prop o req2)).
Proof.
  intros Hnodup Hcustom Hagree.
  rewrite !(gate_cases S prop _ Hnodup Hcustom).
  assert (Hfields : violations_of_fields S (get prop req1)
                    = violations_of_fields S (get prop req2)).
  { rewrite <- !errors_of_fields_violations. unfold errors_of_fields.
    by apply flat_map_field_errors_ext. }
  pose proof (normalized_ext S _ _ Hagree) as Hnorm.
  assert (Hobject : violations_of_object S (get prop req1)
                    = violations_of_object S (get prop req2)).
  { unfold violations_of_object. by rewrite Hnorm. }
  rewrite Hfields, Hobject, Hnorm.
  destruct (violations_of_fields S (get prop req2)); [|left; by eexists].
  destruct (violations_of_object S (get prop req2)); [|left; by eexists].
  right. by eexists.
Qed.

Lemma X10_unknown_fields_witness :
  Validation.validate Schemas.updateProductSchema body Samples.update_with_unknown_field
  = next (Samples.with_body {[ "name" := VStr "Updated Product" ]})
  ∧ Validation.validate Schemas.updateProductSchema body
      (Samples.with_body {[ "name" := VStr "Updated Product" ]})
    = next (Samples.with_body {[ "name" := VStr "Updated Product" ]}).
Proof.
  assert (Hagree : ∀ k, k ∈ map fst (Joi.keys Schemas.updateProductSchema) →
            get body Samples.update_with_unknown_field !! k
            = get body (Samples.with_body {[ "name" := VStr "Updated Product" ]}) !! k).
  { intros k Hk. apply list_elem_of_In in Hk. simpl in Hk.
    repeat (destruct Hk as [<-|Hk]; [reflexivity|]). done. }
  destruct (X10_unknown_fields_have_no_influence Schemas.updateProductSchema body
              Samples.update_with_unknown_field
              (Samples.with_body {[ "name" := VStr "Updated Product" ]})
              updateProductSchema_keys updateProductSchema_custom Hagree)
    as [(res & H1 & H2)|(o & H1 & H2)].
  - vm_compute in H1. discriminate H1.
  - split; vm_compute; reflexivity.
Defined.

End gate_more.

(* ===================================================================== *)
(** ** What reaches the handlers                                         *)
(* ===================================================================== *)

Section strings.
Import JS.

Lemma trimEnd_idempotent s : trimEnd (trimEnd s) = trimEnd s.
Proof.
  induction s as [|c r IH]; [done|]. simpl.
  destruct (trimEnd r) as [|d r'] eqn:Hr.
  - destruct (is_space c) eqn:Hc; [done|]. simpl. by rewrite Hc.
  - simpl. simpl in IH. by rewrite IH.
Qed.

Lemma trimStart_head s :
  match trimStart s with
  | String c _ => is_space c = false
  | EmptyString => True
  end.
Proof.
  induction s as [|c r IH]; [done|]. simpl.
  destruct (is_space c) eqn:Hc; [exact IH|exact Hc].
Qed.

Lemma trimStart_fixed s :
  match s with
  | String c _ => is_space c = false
  | EmptyString => True
  end → trimStart s = s.
Proof. destruct s as [|c r]; [done|]. simpl. by intros ->. Qed.

Lemma trimEnd_head s :
  match s with
  | String c _ => is_space c = false
  | EmptyString => True
  end →
  match trimEnd s with
  | String c _ => is_space c = false
  | EmptyString => True
  end.
Proof.
  destruct s as [|c r]; [done|]. simpl. intros Hc.
  destruct (trimEnd r); [by rewrite Hc|done].
Qed.

(** Trimming a trimmed string changes nothing. *)
Lemma trim_idempotent s : trim (trim s) = trim s.
Proof.
  unfold trim.
  rewrite (trimStart_fixed (trimEnd (trimStart s))).
  - apply trimEnd_idempotent.
  - apply trimEnd_head, trimStart_head.
Qed.

End strings.

Section field_lemmas.
Import Http JS Gate.

(** A string field without violations: it is a string; it is kept as
    it is, or trimmed when the chain has [trim]; and either it is one
    of the allowed values or it is not empty and passes every rule. *)
Lemma string_field_valid s key v :
  Joi._type s = Joi.string_t →
  existsb Joi.is_min0 (Joi._rules s) = false →
  field_violations s key (Some v) = [] →
  ∃ x, v = VStr x
    ∧ let y := if existsb Joi.is_trim (Joi._rules s) then trim x else x in
      Joi.value_of (Joi.validate_field options s key (Some v)) = Some (VStr y)
      ∧ (existsb (String.eqb y) (Joi._valids s) = true
         ∨ (y ≠ "" ∧ Forall (λ r, Joi.test s key r (VStr y) = None) (Joi._rules s))).
Proof.
  intros Htype Hmin0.
  unfold field_violations, Joi.validate_field, Joi.unsafe, Joi.coerce, Joi.base.
  rewrite Htype, Hmin0. cbv beta iota zeta.
  destruct v as [| | | |x|]; try (by destruct (Joi._only s)).
  set (y := if existsb Joi.is_trim (Joi._rules s) then trim x else x).
  replace (if existsb Joi.is_trim (Joi._rules s) then VStr (trim x) else VStr x)
    with (VStr y) by (unfold y; by destruct (existsb Joi.is_trim _)).
  intros Hvalid. exists x. split; [done|]. cbv zeta. fold y.
  destruct (existsb (String.eqb y) (Joi._valids s)) eqn:Hallowed.
  { split; [done|by left]. }
  rewrite andb_false_r.
  destruct y as [|c r] eqn:Hy; [by destruct (Joi._only s)|].
  destruct (Joi._only s); [done|]. simpl in Hvalid. split; [done|].
  right. split; [done|]. by apply omap_nil_Forall.
Qed.

(** A number field without violations is within the safe integers. *)
Lemma number_field_safe s key v q :
  Joi._type s = Joi.number_t →
  field_violations s key (Some v) = [] →
  Joi.coerce s v = VNum q →
  (inject_Z (- Joi.MAX_SAFE_INTEGER) <= q)%Q ∧ (q <= inject_Z Joi.MAX_SAFE_INTEGER)%Q.
Proof.
  intros Htype. unfold field_violations.
  cbv zeta. destruct (Joi.unsafe s v); [done|]. intros Hvalid Hcoerce.
  rewrite Hcoerce in Hvalid. cbv beta iota in Hvalid.
  unfold Joi.base in Hvalid. rewrite Htype in Hvalid.
  destruct (Qlt_bool (inject_Z Joi.MAX_SAFE_INTEGER) q) eqn:Hhigh.
  { simpl in Hvalid. by destruct (Joi._only s). }
  destruct (Qlt_bool q (inject_Z (- Joi.MAX_SAFE_INTEGER))) eqn:Hlow.
  { simpl in Hvalid. by destruct (Joi._only s). }
  unfold Qlt_bool in Hhigh, Hlow.
  apply negb_false_iff, Qle_bool_iff in Hhigh, Hlow. by split.
Qed.

(** A field that a schema requires and that is absent is a violation. *)
Lemma required_field_absent s key :
  Joi._presence s = Joi.required_p →
  field_violations s key None = [Joi.error s key "any.required" Joi.undefined].
Proof. unfold field_violations. simpl. by intros ->. Qed.

End field_lemmas.

Section product_payloads.
Import Http JS Gate Contract.

#[local] Instance round2_respects : Proper (Qeq ==> Qeq) round2.
Proof. intros x y Hxy. unfold round2, Math_round. by rewrite Hxy. Qed.

(** A string field with [trim] and without violations is trimmed, and
    it is an allowed value or a string that is not empty and passes
    the rules. *)
Lemma trimmed_field_valid s key v :
  Joi._type s = Joi.string_t →
  existsb Joi.is_min0 (Joi._rules s) = false →
  existsb Joi.is_trim (Joi._rules s) = true →
  field_violations s key (Some v) = [] →
  ∃ y, Joi.value_of (Joi.validate_field options s key (Some v)) = Some (VStr y)
    ∧ trim y = y
    ∧ (existsb (String.eqb y) (Joi._valids s) = true
       ∨ ((1 ≤ String.length y)%nat
          ∧ Forall (λ r, Joi.test s key r (VStr y) = None) (Joi._rules s))).
Proof.
  intros Htype Hmin0 Htrim Hvalid.
  destruct (string_field_valid s key v Htype Hmin0 Hvalid) as (x & -> & Hvalue & Hcases).
  rewrite Htrim in Hvalue, Hcases. exists (trim x).
  split; [exact Hvalue|]. split; [apply trim_idempotent|].
  destruct Hcases as [Hallowed|[Hne Hrules]]; [by left|right].
  split; [|done]. destruct (trim x); [done|simpl; lia].
Qed.

Lemma round2_integer (n : Z) : (round2 (inject_Z n) == inject_Z n)%Q.
Proof.
  unfold round2. rewrite <- inject_Z_mult, Math_round_integer, inject_Z_mult.
  field.
Qed.

(** A price field, [positive()] and [precision(2)], without violations:
    a whole number of cents, at least one, in the safe range. *)
Lemma price_field_valid s key v :
  Joi._type s = Joi.number_t → Joi._valids s = [] →
  Joi._rules s = [Joi.positive_r; Joi.precision_r 2] →
  field_violations s key (Some v) = [] →
  ∃ p, Joi.value_of (Joi.validate_field options s key (Some v)) = Some (VNum p)
    ∧ ((1 # 100) <= p)%Q ∧ (p <= inject_Z Joi.MAX_SAFE_INTEGER)%Q
    ∧ ∃ cents : Z, (p == inject_Z cents / inject_Z 100)%Q.
Proof.
  intros Htype Hvalids Hrules Hvalid.
  destruct (number_field_valid s key (Some v) Htype Hvalids Hvalid)
    as (q & Hcoerce & Hvalue & Htests).
  destruct (number_field_safe s key v q Htype Hvalid Hcoerce) as [_ Hhigh].
  rewrite Hrules in Hvalue, Htests. cbn [Joi.getPrecision] in Hvalue, Htests.
  change (pow10 2) with 100%Z in Hvalue, Htests.
  fold (round2 q) in Hvalue, Htests.
  eexists. split; [exact Hvalue|].
  apply Forall_cons in Htests as [Hpositive _]. cbn [Joi.test] in Hpositive.
  destruct (Qlt_bool 0 (Qred (round2 q))) eqn:Hpos; [|done].
  unfold Qlt_bool in Hpos. apply negb_true_iff in Hpos.
  assert (Hlt : (0 < Qred (round2 q))%Q).
  { apply Qnot_le_lt. intros Hle. apply Qle_bool_iff in Hle. congruence. }
  rewrite Qred_correct in Hlt.
  split; [|split].
  - rewrite Qred_correct. unfold round2 in Hlt |- *.
    set (cents := Math_round (q * inject_Z 100)) in *.
    assert (Hcents : (1 ≤ cents)%Z).
    { assert (H0 : (inject_Z 0 < inject_Z cents)%Q).
      { change (inject_Z 0) with 0%Q. change (inject_Z 100) with 100%Q in Hlt.
        unfold Qdiv in Hlt. change (/ 100)%Q with (1 # 100)%Q in Hlt. lra. }
      rewrite <- Zlt_Qlt in H0. lia. }
    rewrite Zle_Qle in Hcents. change (inject_Z 1) with 1%Q in Hcents.
    change (inject_Z 100) with 100%Q. unfold Qdiv. change (/ 100)%Q with (1 # 100)%Q. lra.
  - rewrite Qred_correct. rewrite <- (round2_integer Joi.MAX_SAFE_INTEGER).
    by apply round2_monotone.
  - exists (Math_round (q * inject_Z 100)). apply Qred_correct.
Qed.

(** A stock field, [integer()] and [min(0)], without violations: an
    integer that is not negative, in the safe range. *)
Lemma stock_field_valid s key v :
  Joi._type s = Joi.number_t → Joi._valids s = [] →
  Joi._rules s = [Joi.integer_r; Joi.min_r 0] →
  field_violations s key (Some v) = [] →
  ∃ q n, Joi.value_of (Joi.validate_field options s key (Some v)) = Some (VNum q)
    ∧ (q == inject_Z n)%Q ∧ (0 ≤ n ≤ Joi.MAX_SAFE_INTEGER)%Z.
Proof.
  intros Htype Hvalids Hrules Hvalid.
  destruct (number_field_valid s key (Some v) Htype Hvalids Hvalid)
    as (q & Hcoerce & Hvalue & Htests).
  destruct (number_field_safe s key v q Htype Hvalid Hcoerce) as [_ Hhigh].
  rewrite Hrules in Hvalue, Htests. cbn [Joi.getPrecision] in Hvalue, Htests.
  exists q, (Math_trunc q). split; [exact Hvalue|].
  apply Forall_cons in Htests as [Hinteger Htests].
  apply Forall_cons in Htests as [Hmin _]. cbn [Joi.test] in Hinteger, Hmin.
  destruct (Qeq_bool (inject_Z (Math_trunc q) - q) 0) eqn:Hint; [|done].
  destruct (Qle_bool (inject_Z 0) q) eqn:Hnonneg; [|done].
  apply Qeq_bool_iff in Hint. apply Qle_bool_iff in Hnonneg.
  assert (Hq : (q == inject_Z (Math_trunc q))%Q) by lra.
  split; [exact Hq|].
  rewrite Hq in Hnonneg, Hhigh. rewrite <- Zle_Qle in Hnonneg, Hhigh. lia.
Qed.

End product_payloads.

Section product_contract.
Import Http JS Gate Contract.

Ltac rule_passes H :=
  cbn [Joi.test] in H;
  match type of H with
  | (if ?b then None else Some _) = None =>
      let Hb := fresh "Hb" in destruct b eqn:Hb; [clear H|discriminate H]
  | None = None => clear H
  end.

Ltac next_rule H Hr :=
  apply Forall_cons in H as [Hr H]; rule_passes Hr.

(** The fields of a create payload that passed the gate. *)
Lemma create_payload_fields req req' :
  Validation.validate Schemas.createProductSchema body req = next req' →
  (∀ k v, req_body req' !! k = Some v → product_field_ok k v)
  ∧ is_Some (req_body req' !! "name") ∧ is_Some (req_body req' !! "price")
  ∧ is_Some (req_body req' !! "category") ∧ is_Some (req_body req' !! "stock")
  ∧ req_query req' = req_query req.
Proof.
  intros Hnext.
  apply (gate_next _ _ _ _ createProductSchema_keys createProductSchema_custom) in Hnext
    as (Hfields & _ & ->).
  simpl req_body. simpl req_query. simpl get in Hfields.
  set (input := req_body req) in *.
  set (S := Schemas.createProductSchema) in *.
  pose proof (assoc_elem_of "name" (Joi.keys S) _ eq_refl) as Iname.
  pose proof (assoc_elem_of "description" (Joi.keys S) _ eq_refl) as Idesc.
  pose proof (assoc_elem_of "price" (Joi.keys S) _ eq_refl) as Iprice.
  pose proof (assoc_elem_of "category" (Joi.keys S) _ eq_refl) as Icat.
  pose proof (assoc_elem_of "stock" (Joi.keys S) _ eq_refl) as Istock.
  pose proof (field_valid_of_fields _ _ _ _ Hfields Iname) as Vname.
  pose proof (field_valid_of_fields _ _ _ _ Hfields Idesc) as Vdesc.
  pose proof (field_valid_of_fields _ _ _ _ Hfields Iprice) as Vprice.
  pose proof (field_valid_of_fields _ _ _ _ Hfields Icat) as Vcat.
  pose proof (field_valid_of_fields _ _ _ _ Hfields Istock) as Vstock.
  pose proof (normalized_known S input _ _ createProductSchema_keys Iname) as Nname.
  pose proof (normalized_known S input _ _ createProductSchema_keys Idesc) as Ndesc.
  pose proof (normalized_known S input _ _ createProductSchema_keys Iprice) as Nprice.
  pose proof (normalized_known S input _ _ createProductSchema_keys Icat) as Ncat.
  pose proof (normalized_known S input _ _ createProductSchema_keys Istock) as Nstock.
  unfold field_result in Nname, Ndesc, Nprice, Ncat, Nstock.
  simpl fst in *. simpl snd in *.
  assert (Hname : ∃ x, normalized S input !! "name" = Some (VStr x)
            ∧ trim x = x ∧ (1 ≤ String.length x ≤ 100)%nat).
  { rewrite Nname. destruct (input !! "name") as [v|]; [|by rewrite required_field_absent in Vname].
    apply trimmed_field_valid in Vname as (y & -> & Htrim & [Hallowed|[Hlen Hrules]]);
      [done| |done..].
    exists y. split; [done|]. split; [done|].
    cbn [Joi._rules Joi.messages Joi.required Joi.max Joi.min Joi.min_field Joi.trim
         Joi.add_rule Joi.string app] in Hrules.
    next_rule Hrules Hr1. next_rule Hrules Hr2. next_rule Hrules Hr3.
    apply Z.leb_le in Hb, Hb0. lia. }
  assert (Hdesc : ∀ v, normalized S input !! "description" = Some v →
            ∃ x, v = VStr x ∧ trim x = x ∧ (String.length x ≤ 500)%nat).
  { rewrite Ndesc. destruct (input !! "description") as [v0|];
      [|by rewrite validate_field_absent].
    apply trimmed_field_valid in Vdesc as (y & -> & Htrim & Hcases); [|done..].
    intros v [= <-]. exists y. split; [done|]. split; [done|].
    destruct Hcases as [Hallowed|[Hlen Hrules]].
    - cbn in Hallowed. rewrite orb_false_r in Hallowed.
      apply String.eqb_eq in Hallowed as ->. simpl. lia.
    - cbn [Joi._rules Joi.messages Joi.optional Joi.allow Joi.max Joi.trim
           Joi.add_rule Joi.string app] in Hrules.
      next_rule Hrules Hr1. next_rule Hrules Hr2.
      apply Z.leb_le in Hb. lia. }
  assert (Hprice : ∃ p, normalized S input !! "price" = Some (VNum p)
            ∧ ((1 # 100) <= p)%Q ∧ (p <= inject_Z Joi.MAX_SAFE_INTEGER)%Q
            ∧ ∃ cents : Z, (p == inject_Z cents / inject_Z 100)%Q).
  { rewrite Nprice. destruct (input !! "price") as [v|];
      [|by rewrite required_field_absent in Vprice].
    apply price_field_valid in Vprice as (p & -> & Hp); [|done..]. by exists p. }
  assert (Hcat : ∃ x, normalized S input !! "category" = Some (VStr x)
            ∧ trim x = x ∧ (1 ≤ String.length x)%nat).
  { rewrite Ncat. destruct (input !! "category") as [v|];
      [|by rewrite required_field_absent in Vcat].
    apply trimmed_field_valid in Vcat as (y & -> & Htrim & [Hallowed|[Hlen Hrules]]);
      [done| |done..].
    by exists y. }
  assert (Hstock : ∃ q n, normalized S input !! "stock" = Some (VNum q)
            ∧ (q == inject_Z n)%Q ∧ (0 ≤ n ≤ Joi.MAX_SAFE_INTEGER)%Z).
  { rewrite Nstock. destruct (input !! "stock") as [v|];
      [|by rewrite required_field_absent in Vstock].
    apply stock_field_valid in Vstock as (q & n & -> & Hq); [|done..]. by exists q, n. }
  split.
  - intros k v Hk.
    destruct (Joi.known S k) eqn:Hknown;
      [|by rewrite (normalized_unknown S input k Hknown) in Hk].
    apply known_elem_of, list_elem_of_In in Hknown. simpl in Hknown.
    destruct Hknown as [<-|[<-|[<-|[<-|[<-|[]]]]]]; unfold product_field_ok; simpl.
    + destruct Hname as (x & Hx & ?). rewrite Hx in Hk. injection Hk as <-. by exists x.
    + by apply Hdesc.
    + destruct Hprice as (p & Hp & ?). rewrite Hp in Hk. injection Hk as <-. by exists p.
    + destruct Hcat as (x & Hx & ?). rewrite Hx in Hk. injection Hk as <-. by exists x.
    + destruct Hstock as (q & n & Hq & ?). rewrite Hq in Hk. injection Hk as <-.
      by exists q, n.
  - destruct Hname as (? & -> & _). destruct Hprice as (? & -> & _).
    destruct Hcat as (? & -> & _). destruct Hstock as (? & ? & -> & _).
    repeat split; by eexists.
Qed.

(** X11: a create payload that the gate lets through reaches the
    handler with [name], [price], [category] and [stock] present, with
    every field in the form the schema asks for (strings trimmed and
    within their lengths, the price a whole number of cents from 0.01
    up, the stock a non-negative integer), and with no other field. *)
Theorem X11_create_payload_contract req req' :
  Validation.validate Schemas.createProductSchema body req = next req' →
  (∀ k v, req_body req' !! k = Some v → product_field_ok k v)
  ∧ is_Some (req_body req' !! "name") ∧ is_Some (req_body req' !! "price")
  ∧ is_Some (req_body req' !! "category") ∧ is_Some (req_body req' !! "stock")
  ∧ req_query req' = req_query req.
Proof. apply create_payload_fields. Qed.

(** X12: an update payload that the gate lets through reaches the
    handler with at least one field, every field present in the form
    the schema asks for, and no other field. *)
Theorem X12_update_payload_contract req req' :
  Validation.validate Schemas.updateProductSchema body req = next req' →
  (∀ k v, req_body req' !! k = Some v → product_field_ok k v)
  ∧ req_body req' ≠ ∅
  ∧ req_query req' = req_query req.
Proof.
  intros Hnext.
  apply (gate_next _ _ _ _ updateProductSchema_keys updateProductSchema_custom) in Hnext
    as (Hfields & Hobject & ->).
  simpl req_body. simpl req_query. simpl get in Hfields, Hobject.
  set (input := req_body req) in *.
  set (S := Schemas.updateProductSchema) in *.
  pose proof (assoc_elem_of "name" (Joi.keys S) _ eq_refl) as Iname.
  pose proof (assoc_elem_of "description" (Joi.keys S) _ eq_refl) as Idesc.
  pose proof (assoc_elem_of "price" (Joi.keys S) _ eq_refl) as Iprice.
  pose proof (assoc_elem_of "category" (Joi.keys S) _ eq_refl) as Icat.
  pose proof (assoc_elem_of "stock" (Joi.keys S) _ eq_refl) as Istock.
  pose proof (field_valid_of_fields _ _ _ _ Hfields Iname) as Vname.
  pose proof (field_valid_of_fields _ _ _ _ Hfields Idesc) as Vdesc.
  pose proof (field_valid_of_fields _ _ _ _ Hfields Iprice) as Vprice.
  pose proof (field_valid_of_fields _ _ _ _ Hfields Icat) as Vcat.
  pose proof (field_valid_of_fields _ _ _ _ Hfields Istock) as Vstock.
  pose proof (normalized_known S input _ _ updateProductSchema_keys Iname) as Nname.
  pose proof (normalized_known S input _ _ updateProductSchema_keys Idesc) as Ndesc.
  pose proof (normalized_known S input _ _ updateProductSchema_keys Iprice) as Nprice.
  pose proof (normalized_known S input _ _ updateProductSchema_keys Icat) as Ncat.
  pose proof (normalized_known S input _ _ updateProductSchema_keys Istock) as Nstock.
  unfold field_result in Nname, Ndesc, Nprice, Ncat, Nstock.
  simpl fst in *. simpl snd in *.
  split; [|split; [|done]].
  - intros k v Hk.
    destruct (Joi.known S k) eqn:Hknown;
      [|by rewrite (normalized_unknown S input k Hknown) in Hk].
    apply known_elem_of, list_elem_of_In in Hknown. simpl in Hknown.
    destruct Hknown as [<-|[<-|[<-|[<-|[<-|[]]]]]]; unfold product_field_ok; simpl.
    + rewrite Nname in Hk. destruct (input !! "name") as [v0|];
        [|by rewrite validate_field_absent in Hk].
      apply trimmed_field_valid in Vname as (y & Hy & Htrim & [Hallowed|[Hlen Hrules]]);
        [done| |done..].
      rewrite Hy in Hk. injection Hk as <-.
      exists y. split; [done|]. split; [done|].
      cbn [Joi._rules Joi.messages Joi.optional Joi.max Joi.min Joi.min_field Joi.trim
           Joi.add_rule Joi.string app] in Hrules.
      next_rule Hrules Hr1. next_rule Hrules Hr2. next_rule Hrules Hr3.
      apply Z.leb_le in Hb, Hb0. lia.
    + rewrite Ndesc in Hk. destruct (input !! "description") as [v0|];
        [|by rewrite validate_field_absent in Hk].
      apply trimmed_field_valid in Vdesc as (y & Hy & Htrim & Hcases); [|done..].
      rewrite Hy in Hk. injection Hk as <-.
      exists y. split; [done|]. split; [done|].
      destruct Hcases as [Hallowed|[Hlen Hrules]].
      * cbn in Hallowed. rewrite orb_false_r in Hallowed.
        apply String.eqb_eq in Hallowed as ->. simpl. lia.
      * cbn [Joi._rules Joi.messages Joi.optional Joi.allow Joi.max Joi.trim
             Joi.add_rule Joi.string app] in Hrules.
        next_rule Hrules Hr1. next_rule Hrules Hr2.
        apply Z.leb_le in Hb. lia.
    + rewrite Nprice in Hk. destruct (input !! "price") as [v0|];
        [|by rewrite validate_field_absent in Hk].
      apply price_field_valid in Vprice as (p & Hp & Hprice); [|done..].
      rewrite Hp in Hk. injection Hk as <-. by exists p.
    + rewrite Ncat in Hk. destruct (input !! "category") as [v0|];
        [|by rewrite validate_field_absent in Hk].
      apply trimmed_field_valid in Vcat as (y & Hy & Htrim & [Hallowed|[Hlen Hrules]]);
        [done| |done..].
      rewrite Hy in Hk. injection Hk as <-. by exists y.
    + rewrite Nstock in Hk. destruct (input !! "stock") as [v0|];
        [|by rewrite validate_field_absent in Hk].
      apply stock_field_valid in Vstock as (q & n & Hq & Hstock); [|done..].
      rewrite Hq in Hk. injection Hk as <-. by exists q, n.
  - intros Hempty. unfold violations_of_object in Hobject.
    rewrite Hempty in Hobject. vm_compute in Hobject. discriminate Hobject.
Qed.

Lemma X11_create_payload_witness :
  ∃ req', Validation.validate Schemas.createProductSchema body Samples.new_product = next req'
    ∧ (∀ k v, req_body req' !! k = Some v → product_field_ok k v)
    ∧ req_body req' !! "name" = Some (VStr "New Product")
    ∧ req_body req' !! "price" = Some (VNum (4999 # 100)).
Proof.
  eexists. split; [vm_compute; reflexivity|].
  split; [|split; reflexivity].
  apply (X11_create_payload_contract Samples.new_product). vm_compute. reflexivity.
Defined.

Lemma X12_update_payload_witness :
  (∀ k v, req_body Samples.price_update !! k = Some v → product_field_ok k v)
  ∧ req_body Samples.price_update ≠ ∅.
Proof.
  destruct (X12_update_payload_contract Samples.price_update Samples.price_update)
    as (Hok & Hne & _); [vm_compute; reflexivity|]. by split.
Defined.

End product_contract.

Section query_contract.
Import Http JS Gate Contract.

(** A bound field, [min(0)], without violations. *)
Lemma bound_field_valid s key v :
  Joi._type s = Joi.number_t → Joi._valids s = [] →
  Joi._rules s = [Joi.min_r 0] →
  field_violations s key (Some v) = [] →
  ∃ q, Joi.value_of (Joi.validate_field options s key (Some v)) = Some (VNum q)
    ∧ (0 <= q)%Q ∧ (q <= inject_Z Joi.MAX_SAFE_INTEGER)%Q.
Proof.
  intros Htype Hvalids Hrules Hvalid.
  destruct (number_field_valid s key (Some v) Htype Hvalids Hvalid)
    as (q & Hcoerce & Hvalue & Htests).
  destruct (number_field_safe s key v q Htype Hvalid Hcoerce) as [_ Hhigh].
  rewrite Hrules in Hvalue, Htests. cbn [Joi.getPrecision] in Hvalue, Htests.
  exists q. split; [exact Hvalue|]. split; [|exact Hhigh].
  apply Forall_cons in Htests as [Hmin _]. cbn [Joi.test] in Hmin.
  destruct (Qle_bool (inject_Z 0) q) eqn:Hle; [|done]. by apply Qle_bool_iff in Hle.
Qed.

(** X13: a list query that the gate lets through reaches the handler
    with only the seven parameters of the schema; [category] and
    [search] are trimmed and not empty, [search] has at most 100
    characters, [minPrice] and [maxPrice] are not negative, and when
    both are there [maxPrice] is at least [minPrice] or is 0. *)
Theorem X13_query_filters_contract req req' :
  Validation.validate Schemas.querySchema query req = next req' →
  (∀ k v, req_query req' !! k = Some v →
     k ∈ ["page"; "limit"; "sort"; "category"; "minPrice"; "maxPrice"; "search"]
     ∧ filter_ok k v)
  ∧ (∀ a b, req_query req' !! "minPrice" = Some (VNum a) →
       req_query req' !! "maxPrice" = Some (VNum b) →
       (a <= b)%Q ∨ (b == 0)%Q)
  ∧ req_body req' = req_body req.
Proof.
  intros Hnext.
  apply (gate_next _ _ _ _ querySchema_keys querySchema_custom) in Hnext
    as (Hfields & Hobject & ->).
  simpl req_body. simpl req_query. simpl get in Hfields, Hobject.
  set (input := req_query req) in *.
  set (S := Schemas.querySchema) in *.
  pose proof (assoc_elem_of "category" (Joi.keys S) _ eq_refl) as Icat.
  pose proof (assoc_elem_of "minPrice" (Joi.keys S) _ eq_refl) as Imin.
  pose proof (assoc_elem_of "maxPrice" (Joi.keys S) _ eq_refl) as Imax.
  pose proof (assoc_elem_of "search" (Joi.keys S) _ eq_refl) as Isearch.
  pose proof (field_valid_of_fields _ _ _ _ Hfields Icat) as Vcat.
  pose proof (field_valid_of_fields _ _ _ _ Hfields Imin) as Vmin.
  pose proof (field_valid_of_fields _ _ _ _ Hfields Imax) as Vmax.
  pose proof (field_valid_of_fields _ _ _ _ Hfields Isearch) as Vsearch.
  pose proof (normalized_known S input _ _ querySchema_keys Icat) as Ncat.
  pose proof (normalized_known S input _ _ querySchema_keys Imin) as Nmin.
  pose proof (normalized_known S input _ _ querySchema_keys Imax) as Nmax.
  pose proof (normalized_known S input _ _ querySchema_keys Isearch) as Nsearch.
  unfold field_result in Ncat, Nmin, Nmax, Nsearch.
  simpl fst in *. simpl snd in *.
  assert (Hmin : ∀ v, normalized S input !! "minPrice" = Some v →
            ∃ q, v = VNum q ∧ (0 <= q)%Q ∧ (q <= inject_Z Joi.MAX_SAFE_INTEGER)%Q).
  { rewrite Nmin. destruct (input !! "minPrice") as [v0|];
      [|by rewrite validate_field_absent].
    apply bound_field_valid in Vmin as (q & -> & Hq); [|done..].
    intros v [= <-]. by exists q. }
  assert (Hmax : ∀ v, normalized S input !! "maxPrice" = Some v →
            ∃ q, v = VNum q ∧ (0 <= q)%Q ∧ (q <= inject_Z Joi.MAX_SAFE_INTEGER)%Q).
  { rewrite Nmax. destruct (input !! "maxPrice") as [v0|];
      [|by rewrite validate_field_absent].
    apply bound_field_valid in Vmax as (q & -> & Hq); [|done..].
    intros v [= <-]. by exists q. }
  split; [|split; [|done]].
  - intros k v Hk.
    destruct (Joi.known S k) eqn:Hknown;
      [|by rewrite (normalized_unknown S input k Hknown) in Hk].
    apply known_elem_of in Hknown. split; [exact Hknown|].
    apply list_elem_of_In in Hknown. simpl in Hknown.
    destruct Hknown as [<-|[<-|[<-|[<-|[<-|[<-|[<-|[]]]]]]]]; unfold filter_ok; simpl;
      try done.
    + rewrite Ncat in Hk. destruct (input !! "category") as [v0|];
        [|by rewrite validate_field_absent in Hk].
      apply trimmed_field_valid in Vcat as (y & Hy & Htrim & [Hallowed|[Hlen Hrules]]);
        [done| |done..].
      rewrite Hy in Hk. injection Hk as <-. by exists y.
    + by apply Hmin.
    + by apply Hmax.
    + rewrite Nsearch in Hk. destruct (input !! "search") as [v0|];
        [|by rewrite validate_field_absent in Hk].
      apply trimmed_field_valid in Vsearch as (y & Hy & Htrim & [Hallowed|[Hlen Hrules]]);
        [done| |done..].
      rewrite Hy in Hk. injection Hk as <-.
      exists y. split; [done|]. split; [done|].
      cbn [Joi._rules Joi.max Joi.trim Joi.add_rule Joi.string app] in Hrules.
      apply Forall_cons in Hrules as [_ Hrules].
      apply Forall_cons in Hrules as [Hr _]. cbn [Joi.test] in Hr.
      destruct (Z.of_nat (String.length y) <=? 100)%Z eqn:Hb; [|done].
      apply Z.leb_le in Hb. lia.
  - intros a b Ha Hb.
    destruct (Hmax _ Hb) as (b' & [= <-] & Hb0 & _).
    unfold violations_of_object in Hobject.
    cbn [Joi.object_rules S Schemas.querySchema Joi.custom Joi.object app omap list_omap
         object_violation] in Hobject.
    fold S in Hobject. rewrite Ha, Hb in Hobject.
    cbn [truthy lt] in Hobject.
    destruct (Qeq_bool a 0) eqn:Ha0.
    { apply Qeq_bool_iff in Ha0. left. by rewrite Ha0. }
    destruct (Qeq_bool b 0) eqn:Hb00.
    { apply Qeq_bool_iff in Hb00. by right. }
    cbn [negb andb] in Hobject.
    destruct (Qlt_bool b a) eqn:Hlt; [done|].
    unfold Qlt_bool in Hlt. apply negb_false_iff, Qle_bool_iff in Hlt. by left.
Qed.

Lemma X13_query_filters_witness :
  ∃ req', Validation.validate Schemas.querySchema query Samples.filtered = next req'
    ∧ req_query req' !! "category" = Some (VStr "Books")
    ∧ (∀ a b, req_query req' !! "minPrice" = Some (VNum a) →
         req_query req' !! "maxPrice" = Some (VNum b) → (a <= b)%Q ∨ (b == 0)%Q).
Proof.
  eexists. split; [vm_compute; reflexivity|]. split; [reflexivity|].
  apply (X13_query_filters_contract Samples.filtered). vm_compute. reflexivity.
Defined.

End query_contract.

Section create_rejections.
Import Http JS Gate Contract.

(** X14: on a create and on an update, a price below half a cent is
    rejected by the gate: zero and negative prices, and also the
    positive prices that [precision(2)] rounds to 0 before
    [positive()] looks at them. *)
Theorem X14_price_below_half_a_cent_is_rejected S req v p :
  S = Schemas.createProductSchema ∨ S = Schemas.updateProductSchema →
  req_body req !! "price" = Some v →
  Joi.coerce Joi.number v = VNum p →
  (p < 1 # 200)%Q →
  rejected (Validation.validate S body req).
Proof.
  intros HS Hprice Hcoerce Hsmall.
  assert (Hgeneric : ∀ s,
    Joi._type s = Joi.number_t → Joi._valids s = [] →
    Joi._rules s = [Joi.positive_r; Joi.precision_r 2] →
    field_violations s "price" (Some v) ≠ []).
  { intros s Htype Hvalids Hrules Hvalid.
    destruct (price_field_valid s "price" v Htype Hvalids Hrules Hvalid)
      as (p' & Hvalue & Hlow & _).
    destruct (number_field_valid s "price" (Some v) Htype Hvalids Hvalid)
      as (q & Hq & Hvalue' & _).
    assert (q = p) as ->.
    { unfold Joi.coerce in Hq, Hcoerce. rewrite Htype in Hq. simpl in Hcoerce.
      rewrite Hq in Hcoerce. by injection Hcoerce. }
    rewrite Hrules in Hvalue'. cbn [Joi.getPrecision] in Hvalue'.
    change (pow10 2) with 100%Z in Hvalue'. fold (round2 p) in Hvalue'.
    rewrite Hvalue' in Hvalue. injection Hvalue as <-.
    rewrite Qred_correct in Hlow.
    destruct (round2_bounds p) as [_ Hup]. lra. }
  destruct HS as [-> | ->].
  - eapply (gate_rejects_field _ _ _ "price");
      [apply createProductSchema_keys|apply createProductSchema_custom
      |by apply assoc_elem_of|].
    simpl get. rewrite Hprice. by apply Hgeneric.
  - eapply (gate_rejects_field _ _ _ "price");
      [apply updateProductSchema_keys|apply updateProductSchema_custom
      |by apply assoc_elem_of|].
    simpl get. rewrite Hprice. by apply Hgeneric.
Qed.

Lemma X14_small_price_witness :
  rejected (Validation.validate Schemas.updateProductSchema body
              (Samples.with_body {[ "price" := VNum (4 # 1000) ]})).
Proof.
  apply (X14_price_below_half_a_cent_is_rejected Schemas.updateProductSchema
           (Samples.with_body {[ "price" := VNum (4 # 1000) ]}) (VNum (4 # 1000)) (4 # 1000)%Q);
    [by right|reflexivity|reflexivity|reflexivity].
Defined.

(** X15: a create payload without [name], [price], [category] or
    [stock] is rejected, and the response names the missing field with
    the message that the schema gives for it. *)
Theorem X15_create_requires_four_fields req k text :
  (k, text) ∈ [("name", "Product name is required");
               ("price", "Product price is required");
               ("category", "Product category is required");
               ("stock", "Stock quantity is required")] →
  req_body req !! k = None →
  ∃ vs, Validation.validate Schemas.createProductSchema body req = respond (failure vs)
    ∧ {| Joi.detail_message := Joi.Text text; Joi.detail_path := [k];
         Joi.detail_type := "any.required"; Joi.detail_value := Joi.undefined |} ∈ vs.
Proof.
  intros Hk Habsent.
  rewrite (gate_cases _ _ _ createProductSchema_keys createProductSchema_custom).
  simpl get.
  assert (Hin : {| Joi.detail_message := Joi.Text text; Joi.detail_path := [k];
                   Joi.detail_type := "any.required"; Joi.detail_value := Joi.undefined |}
                ∈ violations_of_fields Schemas.createProductSchema (req_body req)).
  { apply list_elem_of_In, in_flat_map.
    apply list_elem_of_In in Hk. simpl in Hk.
    destruct Hk as [[= <- <-]|[[= <- <-]|[[= <- <-]|[[= <- <-]|[]]]]].
    - eexists. split; [apply list_elem_of_In, (assoc_elem_of "name"); reflexivity|].
      simpl. rewrite Habsent. by left.
    - eexists. split; [apply list_elem_of_In, (assoc_elem_of "price"); reflexivity|].
      simpl. rewrite Habsent. by left.
    - eexists. split; [apply list_elem_of_In, (assoc_elem_of "category"); reflexivity|].
      simpl. rewrite Habsent. by left.
    - eexists. split; [apply list_elem_of_In, (assoc_elem_of "stock"); reflexivity|].
      simpl. rewrite Habsent. by left. }
  destruct (violations_of_fields Schemas.createProductSchema (req_body req)) as [|e es].
  - by apply elem_of_nil in Hin.
  - by exists (e :: es).
Qed.

Lemma X15_create_requires_witness :
  ∃ vs, Validation.validate Schemas.createProductSchema body Samples.invalid_product
        = respond (failure vs)
    ∧ {| Joi.detail_message := Joi.Text "Product category is required";
         Joi.detail_path := ["category"];
         Joi.detail_type := "any.required"; Joi.detail_value := Joi.undefined |} ∈ vs.
Proof.
  apply (X15_create_requires_four_fields Samples.invalid_product "category"
           "Product category is required"); [|reflexivity].
  do 2 right. by left.
Defined.

End create_rejections.

(* ===================================================================== *)
(** ** Validating twice                                                  *)
(* ===================================================================== *)

Section validate_twice.
Import Http JS Gate.

Lemma coerce_idempotent s v : Joi.coerce s (Joi.coerce s v) = Joi.coerce s v.
Proof.
  unfold Joi.coerce. destruct (Joi._type s), v as [| | | |x|]; try done.
  - destruct (existsb Joi.is_trim (Joi._rules s)) eqn:Htrim; rewrite ?Htrim; [|done].
    by rewrite trim_idempotent.
  - destruct (parseNumber x) as [q|] eqn:Hparse; [done|]. by rewrite Hparse.
Qed.

(** A field without a [precision] rule that was validated without
    violations is left as it is, again without violations, by a second
    validation. *)
Lemma validate_field_again s key item :
  Joi.getPrecision (Joi._rules s) = None →
  (∀ d, Joi._default s = Some d →
     field_violations s key (Some d) = []
     ∧ Joi.value_of (Joi.validate_field options s key (Some d)) = Some d) →
  field_violations s key item = [] →
  field_violations s key (Joi.value_of (Joi.validate_field options s key item)) = []
  ∧ Joi.value_of (Joi.validate_field options s key
                    (Joi.value_of (Joi.validate_field options s key item)))
    = Joi.value_of (Joi.validate_field options s key item).
Proof.
  intros Hprec Hdefault Hvalid.
  destruct item as [v|].
  2: { unfold field_violations in Hvalid. simpl in Hvalid.
       destruct (Joi._presence s) eqn:Hpresence; [|done].
       rewrite validate_field_absent by done. simpl.
       destruct (Joi._default s) as [d|] eqn:Hd.
       - by apply Hdefault.
       - split; [unfold field_violations; simpl; by rewrite Hpresence|].
         rewrite validate_field_absent by done. simpl. by rewrite Hd. }
  pose proof (coerce_idempotent s v) as Hfixed.
  unfold field_violations, Joi.validate_field in Hvalid |- *. cbv zeta in Hvalid |- *.
  destruct (Joi.unsafe s v); [done|].
  set (u := Joi.coerce s v) in *. clearbody u. clear v.
  destruct (match u with
            | VStr x => existsb (String.eqb x) (Joi._valids s)
            | _ => false
            end) eqn:Hallowed.
  { cbn [Joi.finalize Joi.value_of].
    assert (Hsafe : Joi.unsafe s u = false).
    { unfold Joi.unsafe, Joi.coerce in *. destruct (Joi._type s); [done|].
      destruct u as [| | | |x|]; try done.
      destruct (parseNumber x); [done|done]. }
    rewrite Hsafe, Hfixed, Hallowed. done. }
  rewrite andb_false_r.
  destruct (Joi._only s) eqn:Honly; [done|]. cbn [app] in Hvalid |- *.
  destruct (Joi.base s key u) as [u' [e|]] eqn:Hbase; [done|].
  cbn [Joi.finalize Joi.value_of].
  assert (Hagain : Joi.unsafe s u' = false ∧ Joi.coerce s u' = u'
                   ∧ Joi.base s key u' = (u', None)
                   ∧ match u' with
                     | VStr x => existsb (String.eqb x) (Joi._valids s)
                     | _ => false
                     end = false).
  { unfold Joi.base in Hbase |- *. unfold Joi.unsafe. unfold Joi.coerce in Hfixed |- *.
    destruct (Joi._type s) eqn:Htype.
    - destruct u as [| | | |x|]; try done.
      destruct x as [|c r].
      + destruct (existsb Joi.is_min0 (Joi._rules s)); [|done].
        injection Hbase as <-. by rewrite Hfixed.
      + injection Hbase as <-. by rewrite Hfixed.
    - destruct u as [| |q| |x|]; try done.
      rewrite Hprec in Hbase |- *.
      destruct (_ || _) eqn:Hsafe; [done|]. injection Hbase as <-.
      by rewrite Hsafe. }
  destruct Hagain as (Hsafe' & Hcoerce' & Hbase' & Hallowed').
  rewrite Hsafe', Hcoerce', Hallowed', Hbase'.
  cbn [app Joi.finalize Joi.value_of].
  split; [exact Hvalid|done].
Qed.

Lemma flat_map_nil {A B} (f : A → list B) (l : list A) :
  (∀ x, x ∈ l → f x = []) → flat_map f l = [].
Proof.
  induction l as [|x l IH]; intros H; simpl; [done|].
  rewrite H by (by left). apply IH. intros y Hy. apply H. by right.
Qed.

(** A schema whose fields a second validation leaves alone: no
    [precision] rule, and defaults that are valid. *)
Lemma validate_again S prop req req' :
  NoDup (map fst (Joi.keys S)) → custom_rules_return_value S →
  (∀ k s, (k, s) ∈ Joi.keys S →
     Joi.getPrecision (Joi._rules s) = None
     ∧ ∀ d, Joi._default s = Some d →
         field_violations s k (Some d) = []
         ∧ Joi.value_of (Joi.validate_field options s k (Some d)) = Some d) →
  Validation.validate S prop req = next req' →
  Validation.validate S prop req' = next req'.
Proof.
  intros Hnodup Hcustom Hregular Hnext.
  apply (gate_next _ _ _ _ Hnodup Hcustom) in Hnext as (Hfields & Hobject & ->).
  set (input := get prop req) in *.
  set (N := normalized S input).
  rewrite (gate_cases S prop _ Hnodup Hcustom). rewrite get_set. fold N.
  assert (Hfield : ∀ k s, (k, s) ∈ Joi.keys S →
            field_violations s k (N !! k) = []
            ∧ Joi.value_of (Joi.validate_field options s k (N !! k)) = N !! k).
  { intros k s Hin. unfold N.
    rewrite (normalized_known S input k s Hnodup Hin). unfold field_result.
    simpl fst. simpl snd.
    destruct (Hregular k s Hin) as [Hprec Hdefault].
    apply validate_field_again; [done|done|].
    by apply (field_valid_of_fields S input k s). }
  assert (Hfields' : violations_of_fields S N = []).
  { unfold violations_of_fields.
    assert (H : ∀ ks, ks ∈ Joi.keys S → field_violations ks.2 ks.1 (N !! ks.1) = []).
    { intros [k s] Hin. by apply Hfield. }
    by apply flat_map_nil. }
  assert (Hnorm : normalized S N = N).
  { apply map_eq. intros k.
    destruct (Joi.known S k) eqn:Hknown.
    - apply known_elem_of in Hknown.
      apply list_elem_of_fmap in Hknown as ([k' s] & -> & Hin). simpl.
      rewrite (normalized_known S N k' s Hnodup Hin). unfold field_result.
      simpl fst. simpl snd. by apply Hfield.
    - rewrite (normalized_unknown S N k Hknown). unfold N.
      by rewrite (normalized_unknown S input k Hknown). }
  assert (Hobject' : violations_of_object S N = []).
  { unfold violations_of_object in *. rewrite Hnorm. exact Hobject. }
  rewrite Hfields', Hobject', Hnorm. f_equal. by destruct prop.
Qed.

(** X16: the gate is idempotent on the schema of the list query: a
    query that it let through, with its defaults filled in, its
    numbers read and its strings trimmed, is let through again and is
    not changed by the second validation. *)
Theorem X16_validated_query_passes_unchanged prop req req' :
  Validation.validate Schemas.querySchema prop req = next req' →
  Validation.validate Schemas.querySchema prop req' = next req'.
Proof.
  apply validate_again; [apply querySchema_keys|apply querySchema_custom|].
  intros k s Hin. apply list_elem_of_In in Hin. simpl in Hin.
  repeat (destruct Hin as [[= <- <-]|Hin];
          [split; [done|intros d [= <-]; by vm_compute]|]);
    done.
Qed.

Lemma X16_validated_query_witness :
  ∃ req', Validation.validate Schemas.querySchema query Samples.filtered = next req'
    ∧ req' ≠ Samples.filtered
    ∧ Validation.validate Schemas.querySchema query req' = next req'.
Proof.
  eexists. split; [vm_compute; reflexivity|]. split.
  - intros Heq. apply (f_equal (λ r, req_query r !! "page")) in Heq.
    vm_compute in Heq. discriminate Heq.
  - apply (X16_validated_query_passes_unchanged query Samples.filtered).
    vm_compute. reflexivity.
Defined.

End validate_twice.

(* ===================================================================== *)
(** ** Further properties of the routes                                  *)
(* ===================================================================== *)

Section routes_more.
Import Http JS Gate.

(** A route made of the auth guard and the gate, in that order. *)
Lemma guarded_route_handled {R} S (auth : request → outcome) (handler : request → R) req r :
  NoDup (map fst (Joi.keys S)) → custom_rules_return_value S →
  Routes.route [auth; Validation.validate S body] handler req = Routes.handled r ↔
    ∃ req1, auth req = next req1
      ∧ violations S (req_body req1) = []
      ∧ r = handler (set body (normalized S (req_body req1)) req1).
Proof.
  intros Hnodup Hcustom. unfold Routes.route.
  destruct (auth req) as [res|req1] eqn:Hauth.
  { split; [done|]. by intros (? & [=] & _). }
  rewrite (gate_cases S body req1 Hnodup Hcustom). simpl get. unfold violations.
  destruct (violations_of_fields S (req_body req1)) as [|e es] eqn:Hf.
  - destruct (violations_of_object S (req_body req1)) as [|e es] eqn:Ho.
    + split.
      * intros [= <-]. exists req1. by rewrite Hf, Ho.
      * intros (? & [= <-] & _ & ->). done.
    + split; [done|]. intros (? & [= <-] & Hnil & _).
      by rewrite Hf, Ho in Hnil.
  - split; [done|]. intros (? & [= <-] & Hnil & _).
    by rewrite Hf in Hnil.
Qed.

(** X17: on POST /products and PUT /products/:id the auth guard comes
    first: when it answers, its answer is the response, whatever the
    body; the handler runs exactly when the guard lets the request
    through and the body, as the guard left it, violates no rule of
    the schema, and it is given the request with the validated body. *)
Theorem X17_guard_then_gate_then_handler {R : Type} (auth : request → outcome)
    (createProduct updateProduct : request → R) req :
  (∀ res, auth req = respond res →
     Routes.post_product auth createProduct req = Routes.answered res
     ∧ Routes.put_product auth updateProduct req = Routes.answered res)
  ∧ (∀ r, Routes.post_product auth createProduct req = Routes.handled r ↔
       ∃ req1, auth req = next req1
         ∧ violations Schemas.createProductSchema (req_body req1) = []
         ∧ r = createProduct
                 (set body (normalized Schemas.createProductSchema (req_body req1)) req1))
  ∧ (∀ r, Routes.put_product auth updateProduct req = Routes.handled r ↔
       ∃ req1, auth req = next req1
         ∧ violations Schemas.updateProductSchema (req_body req1) = []
         ∧ r = updateProduct
                 (set body (normalized Schemas.updateProductSchema (req_body req1)) req1)).
Proof.
  split; [|split].
  - intros res Hauth. unfold Routes.post_product, Routes.put_product, Routes.route.
    by rewrite Hauth.
  - intros r. apply guarded_route_handled;
      [apply createProductSchema_keys|apply createProductSchema_custom].
  - intros r. apply guarded_route_handled;
      [apply updateProductSchema_keys|apply updateProductSchema_custom].
Qed.

End routes_more.

(* ===================================================================== *)
(** ** Rounding to the nearest double                                    *)
(* ===================================================================== *)

Section binary64.
Import Binary64.

Lemma pow2_pos (e : Z) : (0 < 2 ^ e)%Q.
Proof. by apply Qpower_0_lt. Qed.

Lemma pow2_plus (a b : Z) : (2 ^ (a + b) == 2 ^ a * 2 ^ b)%Q.
Proof. by apply Qpower_plus. Qed.

Lemma pow2_le (a b : Z) : (a ≤ b)%Z → (2 ^ a <= 2 ^ b)%Q.
Proof. intros H. apply Qpower_le_compat_l; [done|]. by compute. Qed.

Lemma pow2_le_inv (a b : Z) : (2 ^ a <= 2 ^ b)%Q → (a ≤ b)%Z.
Proof. intros H. apply (Qpower_le_compat_l_inv 2); [|done]. by compute. Qed.

Lemma pow2_Z (a : Z) : (0 ≤ a)%Z → (2 ^ a == inject_Z (2 ^ a))%Q.
Proof. intros H. by rewrite (Zpower_Qpower 2 a H). Qed.

(** [ilog2 x] is the exponent of the binade of [x]. *)
Lemma ilog2_spec (x : Q) :
  ¬ (x == 0)%Q → (2 ^ ilog2 x <= Qabs x)%Q ∧ (Qabs x < 2 ^ (ilog2 x + 1))%Q.
Proof.
  intros Hx. unfold ilog2.
  destruct x as [n d]. cbn [Qnum Qden].
  assert (Hn : (0 < Z.abs n)%Z).
  { destruct n; [|lia..]. exfalso. apply Hx. reflexivity. }
  set (a := Z.log2 (Z.abs n)). set (b := Z.log2 (Z.pos d)).
  destruct (Z.log2_spec (Z.abs n) Hn) as [Ha1 Ha2]. fold a in Ha1, Ha2.
  destruct (Z.log2_spec (Z.pos d) ltac:(lia)) as [Hb1 Hb2]. fold b in Hb1, Hb2.
  assert (Ha0 : (0 ≤ a)%Z) by apply Z.log2_nonneg.
  assert (Hb0 : (0 ≤ b)%Z) by apply Z.log2_nonneg.
  rewrite <- Z.add_1_r in Ha2, Hb2.
  assert (Habs : (Qabs (n # d) == inject_Z (Z.abs n) / inject_Z (Z.pos d))%Q).
  { rewrite <- Zabs_Qabs. apply Qmake_Qdiv. }
  assert (Hd : (0 < inject_Z (Z.pos d))%Q) by (rewrite <- (Zlt_Qlt 0); lia).
  assert (HA1 : (2 ^ a <= inject_Z (Z.abs n))%Q) by (rewrite pow2_Z, <- Zle_Qle; lia).
  assert (HA2 : (inject_Z (Z.abs n) < 2 ^ (a + 1))%Q).
  { rewrite pow2_Z, <- Zlt_Qlt; lia. }
  assert (HB1 : (2 ^ b <= inject_Z (Z.pos d))%Q) by (rewrite pow2_Z, <- Zle_Qle; lia).
  assert (HB2 : (inject_Z (Z.pos d) < 2 ^ (b + 1))%Q).
  { rewrite pow2_Z, <- Zlt_Qlt; lia. }
  pose proof (pow2_pos a) as Pa. pose proof (pow2_pos b) as Pb.
  assert (Hinv : ∀ c, (2 ^ (- c) * 2 ^ c == 1)%Q).
  { intros c. rewrite <- pow2_plus. by replace (- c + c)%Z with 0%Z by lia. }
  assert (Hup : (inject_Z (Z.abs n) / inject_Z (Z.pos d) < 2 ^ (a - b + 1))%Q).
  { apply Qlt_shift_div_r; [done|].
    replace (a - b + 1)%Z with ((a + 1) + - b)%Z by lia.
    rewrite pow2_plus.
    pose proof (Hinv b) as Hv. pose proof (pow2_pos (- b)) as Pv.
    pose proof (pow2_pos (a + 1)) as Pa1.
    set (X := (2 ^ (a + 1))%Q) in *. set (v := (2 ^ (- b))%Q) in *.
    set (u := (2 ^ b)%Q) in *. set (N := inject_Z (Z.abs n)) in *.
    set (D := inject_Z (Z.pos d)) in *. clearbody X v u N D.
    assert (1 <= v * D)%Q by nra. nra. }
  assert (Hlow : (2 ^ (a - b - 1) < inject_Z (Z.abs n) / inject_Z (Z.pos d))%Q).
  { apply Qlt_shift_div_l; [done|].
    replace (a - b - 1)%Z with (a + - (b + 1))%Z by lia.
    rewrite pow2_plus.
    pose proof (Hinv (b + 1)%Z) as Hv. pose proof (pow2_pos (- (b + 1))) as Pv.
    set (X := (2 ^ a)%Q) in *. set (v := (2 ^ (- (b + 1)))%Q) in *.
    set (u := (2 ^ (b + 1))%Q) in *. set (N := inject_Z (Z.abs n)) in *.
    set (D := inject_Z (Z.pos d)) in *. clearbody X v u N D.
    assert (v * D < 1)%Q by nra. nra. }
  destruct (Qle_bool (2 ^ (a - b)) (Qabs (n # d))) eqn:Hcmp.
  - apply Qle_bool_iff in Hcmp. split; [done|]. by rewrite Habs.
  - assert (Hlt : (Qabs (n # d) < 2 ^ (a - b))%Q).
    { apply Qnot_le_lt. intros H. apply Qle_bool_iff in H. congruence. }
    split.
    + rewrite Habs. by apply Qlt_le_weak.
    + by replace (a - b - 1 + 1)%Z with (a - b)%Z by lia.
Qed.


#[local] Instance nearest_even_proper : Proper (Qeq ==> eq) nearest_even.
Proof.
  intros x y Hxy. unfold nearest_even.
  rewrite (Qfloor_comp _ _ Hxy).
  assert (E : (x - inject_Z (Qfloor y) == y - inject_Z (Qfloor y))%Q) by (by rewrite Hxy).
  by rewrite (Qcompare_comp _ _ E _ _ (Qeq_refl (1 # 2))).
Qed.

Lemma nearest_even_error (y : Q) :
  (Qabs (inject_Z (nearest_even y) - y) <= 1 # 2)%Q.
Proof.
  unfold nearest_even.
  pose proof (Qfloor_le y) as Hle. pose proof (Qlt_floor y) as Hlt.
  rewrite inject_Z_plus in Hlt. change (inject_Z 1) with 1%Q in Hlt.
  apply Qabs_Qle_condition.
  destruct (y - inject_Z (Qfloor y) ?= 1 # 2)%Q eqn:Hcmp.
  - apply Qeq_alt in Hcmp. destruct (Z.even (Qfloor y)).
    + lra.
    + rewrite inject_Z_plus. change (inject_Z 1) with 1%Q. lra.
  - apply Qlt_alt in Hcmp. lra.
  - apply Qgt_alt in Hcmp. rewrite inject_Z_plus. change (inject_Z 1) with 1%Q. lra.
Qed.


Lemma ilog2_unique (x : Q) (e : Z) :
  (2 ^ e <= Qabs x)%Q → (Qabs x < 2 ^ (e + 1))%Q → ilog2 x = e.
Proof.
  intros Hlow Hup.
  assert (Hx : ¬ (x == 0)%Q).
  { intros E. rewrite E in Hlow. pose proof (pow2_pos e).
    change (Qabs 0) with 0%Q in Hlow. lra. }
  destruct (ilog2_spec x Hx) as [Hl Hu].
  assert (H1 : (ilog2 x < e + 1)%Z).
  { apply Z.lt_nge. intros H. apply pow2_le in H. lra. }
  assert (H2 : (e < ilog2 x + 1)%Z).
  { apply Z.lt_nge. intros H. apply pow2_le in H. lra. }
  lia.
Qed.

Lemma ilog2_ext (x y : Q) : ¬ (x == 0)%Q → (x == y)%Q → ilog2 x = ilog2 y.
Proof.
  intros Hx Hxy. symmetry. apply ilog2_unique; rewrite <- Hxy; by apply ilog2_spec.
Qed.

Lemma ulp_pos (x : Q) : (0 < ulp x)%Q.
Proof. apply pow2_pos. Qed.

Lemma ulp_ext (x y : Q) : ¬ (x == 0)%Q → (x == y)%Q → ulp x = ulp y.
Proof. intros Hx Hxy. unfold ulp. by rewrite (ilog2_ext x y). Qed.

#[local] Instance round_proper : Proper (Qeq ==> eq) round.
Proof.
  intros x y Hxy. unfold round.
  destruct (Qeq_bool x 0) eqn:Hx.
  - apply Qeq_bool_iff in Hx. rewrite Hxy in Hx. apply Qeq_bool_iff in Hx. by rewrite Hx.
  - assert (Hx' : ¬ (x == 0)%Q) by (by apply Qeq_bool_neq).
    assert (Hy : Qeq_bool y 0 = false).
    { apply not_true_is_false. intros H. apply Qeq_bool_iff in H. apply Hx'. by rewrite Hxy. }
    rewrite Hy, (ulp_ext x y Hx' Hxy).
    assert (E : (x / ulp y == y / ulp y)%Q) by (by rewrite Hxy).
    rewrite (nearest_even_proper _ _ E). done.
Qed.

(** The rounded value is within half a gap of the number. *)
Lemma round_error (x r : Q) :
  round x = Some r → (Qabs (r - x) <= ulp x * (1 # 2))%Q.
Proof.
  unfold round. pose proof (ulp_pos x) as Hu.
  destruct (Qeq_bool x 0) eqn:Hx.
  - apply Qeq_bool_iff in Hx. intros [= <-].
    apply Qabs_Qle_condition. lra.
  - destruct (Qle_bool _ _); [done|]. intros [= <-].
    rewrite Qred_correct.
    pose proof (nearest_even_error (x / ulp x)) as Herr.
    apply Qabs_Qle_condition in Herr. apply Qabs_Qle_condition.
    assert (E : (x / ulp x * ulp x == x)%Q) by (field; lra).
    set (k := inject_Z (nearest_even (x / ulp x))) in *.
    set (y := (x / ulp x)%Q) in *. set (u := ulp x) in *. clearbody k y u.
    nra.
Qed.

(** In the range of the normal numbers the error is relative. *)
Lemma ulp_normal (x : Q) :
  (2 ^ (-1022) <= Qabs x)%Q → (ulp x <= Qabs x * 2 ^ (-52))%Q.
Proof.
  intros Hx.
  assert (Hx0 : ¬ (x == 0)%Q).
  { intros E. rewrite E in Hx. pose proof (pow2_pos (-1022)).
    change (Qabs 0) with 0%Q in Hx. lra. }
  destruct (ilog2_spec x Hx0) as [Hl Hu].
  assert (He : (-1022 ≤ ilog2 x)%Z).
  { apply Z.lt_succ_r, Z.lt_nge. intros H. rewrite <- Z.add_1_r in H.
    apply pow2_le in H. lra. }
  unfold ulp. rewrite Z.max_l by lia.
  replace (ilog2 x - 52)%Z with (ilog2 x + -52)%Z by lia.
  rewrite pow2_plus. pose proof (pow2_pos (-52)).
  apply Qmult_le_compat_r; [done|lra].
Qed.

Lemma round_relative_error (x r : Q) :
  (2 ^ (-1022) <= Qabs x)%Q → round x = Some r →
  (Qabs (r - x) <= Qabs x * 2 ^ (-53))%Q.
Proof.
  intros Hx Hr. apply round_error in Hr. apply ulp_normal in Hx.
  assert (E : (2 ^ (-53) == 2 ^ (-52) * (1 # 2))%Q) by reflexivity.
  rewrite E. pose proof (pow2_pos (-52)).
  set (a := Qabs (r - x)) in *. set (u := ulp x) in *. set (b := Qabs x) in *.
  set (c := (2 ^ (-52))%Q) in *. clearbody a u b c. nra.
Qed.

(** Below [2^1023] in magnitude nothing overflows. *)
Lemma round_finite (x : Q) : (Qabs x <= 2 ^ 1023)%Q → is_Some (round x).
Proof.
  intros Hx. unfold round.
  destruct (Qeq_bool x 0) eqn:Hx0; [by eexists|].
  assert (Hx' : ¬ (x == 0)%Q) by (by apply Qeq_bool_neq).
  destruct (Qle_bool (2 ^ 1024) _) eqn:Hover; [|by eexists]. exfalso.
  apply Qle_bool_iff in Hover.
  destruct (ilog2_spec x Hx') as [Hl Hu].
  assert (He : (ilog2 x ≤ 1023)%Z) by (apply pow2_le_inv; lra).
  assert (Hulp : (ulp x <= 2 ^ 971)%Q) by (apply pow2_le; lia).
  pose proof (nearest_even_error (x / ulp x)) as Herr.
  pose proof (ulp_pos x) as Hu0.
  assert (E : (x / ulp x * ulp x == x)%Q) by (field; lra).
  assert (Hr : (Qabs (inject_Z (nearest_even (x / ulp x)) * ulp x) <= Qabs x + ulp x * (1 # 2))%Q).
  { apply Qabs_Qle_condition in Herr.
    apply Qabs_Qle_condition. 
    assert (Hax : (- Qabs x <= x <= Qabs x)%Q) by (apply Qabs_Qle_condition, Qle_refl).
    set (k := inject_Z (nearest_even (x / ulp x))) in *.
    set (y := (x / ulp x)%Q) in *. set (u := ulp x) in *. set (ax := Qabs x) in *.
    clearbody k y u ax. nra. }
  assert (H1 : (2 ^ 1024 == 2 * 2 ^ 1023)%Q) by reflexivity.
  assert (H2 : (2 ^ 971 <= 2 ^ 1023)%Q) by (apply pow2_le; lia).
  pose proof (pow2_pos 1023).
  set (A := (2 ^ 1023)%Q) in *. set (B := (2 ^ 971)%Q) in *.
  set (T := (2 ^ 1024)%Q) in *. clearbody A B T.
  set (R := Qabs _) in Hover, Hr. clearbody R. nra.
Qed.




(** The error of a rounding, in any range. *)
Lemma round_error_any (x r : Q) :
  round x = Some r → (Qabs (r - x) <= Qabs x * 2 ^ (-53) + 2 ^ (-1075))%Q.
Proof.
  intros Hr. pose proof (pow2_pos (-1075)) as Ht. pose proof (pow2_pos (-53)) as He.
  pose proof (Qabs_nonneg x) as Hx0.
  destruct (Qlt_le_dec (Qabs x) (2 ^ (-1022))) as [Hsmall|Hnormal].
  - destruct (Qeq_dec x 0) as [Hz|Hnz].
    + rewrite Hz in Hr. injection Hr as <-. rewrite Hz.
      apply Qabs_Qle_condition.
      set (a := Qabs 0). assert (0 <= a * 2 ^ (-53))%Q by (by vm_compute).
      clearbody a. lra.
    + apply round_error in Hr.
      destruct (ilog2_spec x Hnz) as [Hl _].
      assert (He' : (ilog2 x ≤ -1022)%Z) by (apply pow2_le_inv; lra).
      unfold ulp in Hr. rewrite Z.max_r in Hr by lia.
      change (2 ^ (-1022 - 52) * (1 # 2))%Q with ((1 # 2) * 2 ^ (-1074))%Q in Hr.
      assert (E : ((1 # 2) * 2 ^ (-1074) == 2 ^ (-1075))%Q) by reflexivity.
      rewrite E in Hr.
      set (a := Qabs (r - x)) in *. set (b := Qabs x) in *.
      set (t := (2 ^ (-1075))%Q) in *. set (e := (2 ^ (-53))%Q) in *.
      clearbody a b t e. nra.
  - apply (round_relative_error x r Hnormal) in Hr.
    set (a := Qabs (r - x)) in *. set (b := Qabs x) in *.
    set (t := (2 ^ (-1075))%Q) in *. set (e := (2 ^ (-53))%Q) in *.
    clearbody a b t e. lra.
Qed.

(** What [round] returns is in lowest terms. *)
Lemma round_canonical (x r : Q) : round x = Some r → Qred r = r.
Proof.
  unfold round. destruct (Qeq_bool x 0); [by intros [= <-]|].
  destruct (Qle_bool _ _); [done|]. intros [= <-].
  apply Qred_complete, Qred_correct.
Qed.

Lemma Qfloor_unique (x : Q) (n : Z) :
  (inject_Z n <= x)%Q → (x < inject_Z n + 1)%Q → Qfloor x = n.
Proof.
  intros Hl Hu.
  pose proof (Qfloor_le x) as Hf1. pose proof (Qlt_floor x) as Hf2.
  rewrite inject_Z_plus in Hf2. change (inject_Z 1) with 1%Q in Hf2.
  assert (H1 : (inject_Z (Qfloor x) < inject_Z (n + 1))%Q).
  { rewrite inject_Z_plus. change (inject_Z 1) with 1%Q. lra. }
  assert (H2 : (inject_Z n < inject_Z (Qfloor x + 1))%Q).
  { rewrite inject_Z_plus. change (inject_Z 1) with 1%Q. lra. }
  rewrite <- Zlt_Qlt in H1, H2. lia.
Qed.

Lemma Math_round_error (m : Q) :
  (inject_Z (JS.Math_round m) <= m + (1 # 2))%Q ∧ (m - (1 # 2) < inject_Z (JS.Math_round m))%Q.
Proof.
  unfold JS.Math_round.
  pose proof (Qfloor_le (m + (1 # 2))) as Hf1. pose proof (Qlt_floor (m + (1 # 2))) as Hf2.
  rewrite inject_Z_plus in Hf2. change (inject_Z 1) with 1%Q in Hf2.
  split; lra.
Qed.

End binary64.

(* ===================================================================== *)
(** ** The pre-save middleware on doubles                                *)
(* ===================================================================== *)

Section pre_save_doubles.
Import JS Gate Binary64.

#[local] Existing Instance round_proper.

Lemma Qabs_cases (y : Q) :
  ((0 <= y)%Q ∧ (Qabs y == y)%Q) ∨ ((y <= 0)%Q ∧ (Qabs y == - y)%Q).
Proof.
  destruct (Qlt_le_dec y 0) as [H|H].
  - right. split; [lra|]. apply Qabs_neg. lra.
  - left. split; [done|]. by apply Qabs_pos.
Qed.

Ltac abs_cases y :=
  let H := fresh "Habs" in
  let E := fresh "Eabs" in
  destruct (Qabs_cases y) as [[H E]|[H E]];
  let a := fresh "a" in
  set (a := Qabs y) in *; clearbody a.

Lemma epsilon_value : (2 ^ (-53) == 1 # 9007199254740992)%Q.
Proof. reflexivity. Qed.

Lemma tiny_value : (2 ^ (-1075) <= 1 # 1000000000000000000000000000000)%Q.
Proof. apply Qle_bool_iff. by vm_compute. Qed.

(** The parts of [Math.round(price * 100) / 100]. *)
Lemma round_price_parts (p r : Q) :
  Product.round_price p = Some r →
  ∃ m, round (p * 100) = Some m
    ∧ round (inject_Z (Math_round m) / 100) = Some r.
Proof.
  unfold Product.round_price. destruct (round (p * 100)) as [m|]; [|done].
  intros Hr. by exists m.
Qed.

(** The rounded price is within half a cent of the price, up to the
    rounding of the product and of the quotient. *)
Lemma round_price_error (p r : Q) :
  Product.round_price p = Some r →
  (Qabs (r - p) <= (1 # 200) + (Qabs p + (1 # 200)) * 2 ^ (-51))%Q.
Proof.
  intros (m & Hm & Hr)%round_price_parts.
  apply round_error_any in Hm, Hr.
  destruct (Math_round_error m) as [Hn1 Hn2].
  set (n := inject_Z (Math_round m)) in *. clearbody n.
  assert (E51 : (2 ^ (-51) == 4 # 9007199254740992)%Q) by reflexivity.
  rewrite E51. rewrite epsilon_value in Hm, Hr.
  pose proof tiny_value as Ht. set (t := (2 ^ (-1075))%Q) in *.
  assert (Ht0 : (0 < t)%Q) by apply pow2_pos. clearbody t.
  assert (Ep : (Qabs (p * 100) == Qabs p * 100)%Q) by (by rewrite Qabs_Qmult).
  assert (En : (Qabs (n / 100) == Qabs n * (1 # 100))%Q).
  { unfold Qdiv. by rewrite Qabs_Qmult. }
  rewrite Ep in Hm. rewrite En in Hr.
  unfold Qdiv in Hr. change (/ 100)%Q with (1 # 100)%Q in Hr.
  abs_cases p; abs_cases n; abs_cases (r - p)%Q; abs_cases (m - p * 100)%Q;
    abs_cases (r - n * (1 # 100))%Q; lra.
Qed.


Lemma moderate_value : (inject_Z (10 ^ 13) == 10000000000000)%Q.
Proof. reflexivity. Qed.

Lemma normal_threshold : (2 ^ (-1022) <= 1 # 200)%Q.
Proof. apply Qle_bool_iff. by vm_compute. Qed.

Lemma finite_threshold : (4000000000000000 <= 2 ^ 1023)%Q.
Proof. apply Qle_bool_iff. by vm_compute. Qed.

(** The product of a moderate price and 100 and its rounding to an
    integer. *)
Lemma moderate_cents (p m : Q) :
  moderate p → round (p * 100) = Some m →
  (Qabs (inject_Z (Math_round m)) <= 1000000000000001)%Q.
Proof.
  unfold moderate. rewrite moderate_value. intros Hp Hm.
  apply round_error_any in Hm. rewrite epsilon_value in Hm.
  destruct (Math_round_error m) as [Hn1 Hn2].
  set (n := inject_Z (Math_round m)) in *. clearbody n.
  pose proof tiny_value as Ht. set (t := (2 ^ (-1075))%Q) in *.
  assert (Ht0 : (0 < t)%Q) by apply pow2_pos. clearbody t.
  assert (Ep : (Qabs (p * 100) == Qabs p * 100)%Q) by (by rewrite Qabs_Qmult).
  rewrite Ep in Hm.
  abs_cases p; abs_cases n; abs_cases (m - p * 100)%Q; lra.
Qed.

(** A moderate price does not overflow. *)
Lemma round_price_finite (p : Q) : moderate p → is_Some (Product.round_price p).
Proof.
  intros Hp. unfold Product.round_price.
  destruct (round_finite (p * 100)) as [m Hm].
  { unfold moderate in Hp. rewrite moderate_value in Hp.
    rewrite Qabs_Qmult. change (Qabs 100) with 100%Q.
    pose proof finite_threshold. set (T := (2 ^ 1023)%Q) in *. clearbody T.
    set (a := Qabs p) in *. clearbody a. lra. }
  rewrite Hm. apply round_finite.
  pose proof (moderate_cents p m Hp Hm) as Hn.
  unfold Qdiv. rewrite Qabs_Qmult. change (Qabs (/ 100)) with (1 # 100)%Q.
  pose proof finite_threshold. set (T := (2 ^ 1023)%Q) in *. clearbody T.
  set (a := Qabs _) in *. clearbody a. lra.
Qed.

(** Rounding again a moderate price that was rounded changes nothing:
    the integer that the second rounding finds is the same. *)
Lemma round_price_settles (p r : Q) :
  moderate p → Product.round_price p = Some r → Product.round_price r = Some r.
Proof.
  intros Hp Hprice.
  destruct (round_price_parts p r Hprice) as (m & Hm & Hr).
  pose proof (moderate_cents p m Hp Hm) as Hn.
  destruct (Z.eq_dec (Math_round m) 0%Z) as [Hz|Hnz].
  { rewrite Hz in Hr. vm_compute in Hr. injection Hr as <-. by vm_compute. }
  assert (Hn1 : (1 <= Qabs (inject_Z (Math_round m)))%Q).
  { rewrite <- (Zabs_Qabs (Math_round m) 1). change (Z.abs (Math_round m) # 1)%Q
      with (inject_Z (Z.abs (Math_round m))).
    change 1%Q with (inject_Z 1). rewrite <- Zle_Qle. lia. }
  set (n := Math_round m) in *.
  assert (En : (Qabs (inject_Z n / 100) == Qabs (inject_Z n) * (1 # 100))%Q).
  { unfold Qdiv. by rewrite Qabs_Qmult. }
  pose proof normal_threshold as Hnormal.
  assert (Er : (Qabs (r - inject_Z n / 100) <= Qabs (inject_Z n / 100) * 2 ^ (-53))%Q).
  { apply round_relative_error; [|done]. rewrite En.
    set (a := Qabs (inject_Z n)) in *. set (T := (2 ^ (-1022))%Q) in *.
    clearbody a T. lra. }
  rewrite En, epsilon_value in Er.
  unfold Qdiv in Er. change (/ 100)%Q with (1 # 100)%Q in Er.
  assert (Ep : (Qabs (r * 100) == Qabs r * 100)%Q) by (by rewrite Qabs_Qmult).
  assert (Hr100 : (Qabs (inject_Z n) * (1 # 2) <= Qabs (r * 100))%Q
                  ∧ (Qabs (r * 100) <= Qabs (inject_Z n) * 2)%Q).
  { rewrite Ep. clear -Er Hn1.
    set (x := inject_Z n) in *. clearbody x.
    abs_cases x; abs_cases r; abs_cases (r - x * (1 # 100))%Q; split; lra. }
  destruct Hr100 as [Hlow Hhigh].
  destruct (round_finite (r * 100)) as [m' Hm'].
  { pose proof finite_threshold. set (T := (2 ^ 1023)%Q) in *. clearbody T.
    set (a := Qabs (inject_Z n)) in *. set (b := Qabs (r * 100)) in *. clearbody a b. lra. }
  assert (Em' : (Qabs (m' - r * 100) <= Qabs (r * 100) * 2 ^ (-53))%Q).
  { apply round_relative_error; [|done].
    set (a := Qabs (inject_Z n)) in *. set (b := Qabs (r * 100)) in *.
    set (T := (2 ^ (-1022))%Q) in *. clearbody a b T. lra. }
  rewrite epsilon_value in Em'.
  assert (Hsame : Math_round m' = n).
  { unfold Math_round. apply Qfloor_unique.
    - clear -Er Em' Hn Hhigh.
      set (x := inject_Z n) in *. clearbody x.
      set (b := Qabs (r * 100)) in *. clearbody b.
      abs_cases x; abs_cases (r - x * (1 # 100))%Q; abs_cases (m' - r * 100)%Q; lra.
    - clear -Er Em' Hn Hhigh.
      set (x := inject_Z n) in *. clearbody x.
      set (b := Qabs (r * 100)) in *. clearbody b.
      abs_cases x; abs_cases (r - x * (1 # 100))%Q; abs_cases (m' - r * 100)%Q; lra. }
  unfold Product.round_price. rewrite Hm', Hsame. exact Hr.
Qed.

End pre_save_doubles.

(* ===================================================================== *)
(** ** Persisted prices                                                  *)
(* ===================================================================== *)

Section persisted_prices.
Import JS Gate Binary64.

#[local] Existing Instance round_proper.

#[local] Instance round_price_proper : Proper (Qeq ==> eq) Product.round_price.
Proof.
  intros x y Hxy. unfold Product.round_price.
  assert (E : (x * 100 == y * 100)%Q) by (by rewrite Hxy).
  by rewrite (round_proper _ _ E).
Qed.

Lemma round_price_zero (p : Q) : (p == 0)%Q → Product.round_price p = Some 0%Q.
Proof. intros Hp. by rewrite (round_price_proper _ _ Hp). Qed.

Lemma settled_rounded (p r : Q) :
  moderate p → Product.round_price p = Some r → settled r.
Proof. intros Hp Hr. exists r. split; [by apply (round_price_settles p)|done]. Qed.

Lemma settled_zero (p : Q) : (p == 0)%Q → settled p.
Proof. intros Hp. exists 0%Q. split; [by apply round_price_zero|by symmetry]. Qed.

Lemma settled_again (p r : Q) : settled p → Product.round_price p = Some r → settled r.
Proof.
  intros (r' & Hr' & Hrp) Hr. assert (r' = r) as -> by congruence.
  exists r. split; [|done]. by rewrite (round_price_proper _ _ Hrp).
Qed.

(** What the pre-save middleware does to a document whose price it can
    round: the price is replaced, nothing else. *)
Lemma pre_save_double_spec (doc : Product.document) (r : Q) :
  Product.round_price (Product.price doc) = Some r →
  ∃ saved, Product.pre_save_double doc = Some saved
    ∧ (Product.price saved == r)%Q
    ∧ (Product.price saved = r ∨ saved = doc)
    ∧ Product.name saved = Product.name doc
    ∧ Product.description saved = Product.description doc
    ∧ Product.category saved = Product.category doc
    ∧ Product.stock saved = Product.stock doc
    ∧ Product.createdAt saved = Product.createdAt doc
    ∧ Product.updatedAt saved = Product.updatedAt doc.
Proof.
  intros Hr. unfold Product.pre_save_double, truthy.
  destruct (Qeq_bool (Product.price doc) 0) eqn:Hzero; simpl.
  - apply Qeq_bool_iff in Hzero. exists doc. split; [done|].
    rewrite (round_price_zero _ Hzero) in Hr. injection Hr as <-.
    split; [done|]. split; [by right|done].
  - rewrite Hr. eexists. split; [done|]. simpl. split; [done|]. split; [by left|done].
Qed.

Lemma save_spec (doc : Product.document) (r : Q) :
  Product.round_price (Product.price doc) = Some r →
  (Product.price (Store.save doc) == r)%Q
  ∧ Product.name (Store.save doc) = Product.name doc
  ∧ Product.category (Store.save doc) = Product.category doc
  ∧ Product.stock (Store.save doc) = Product.stock doc.
Proof.
  intros Hr. destruct (pre_save_double_spec doc r Hr)
    as (saved & Hsaved & Hp & _ & Hn & _ & Hc & Hs & _).
  unfold Store.save. rewrite Hsaved. simpl. done.
Qed.

(** Saving a document whose price is moderate, or settled already,
    leaves a settled price. *)
Lemma save_settled (doc : Product.document) :
  moderate (Product.price doc) ∨ settled (Product.price doc) →
  settled (Product.price (Store.save doc)).
Proof.
  intros Hprice.
  assert (Hr : ∃ r, Product.round_price (Product.price doc) = Some r).
  { destruct Hprice as [Hm|(r & Hr & _)]; [|by exists r].
    by apply round_price_finite. }
  destruct Hr as [r Hr].
  destruct (pre_save_double_spec doc r Hr) as (saved & Hsaved & _ & Hcases & _).
  unfold Store.save. rewrite Hsaved. simpl.
  assert (Hsettled : settled r).
  { destruct Hprice as [Hm|Hs]; [by apply (settled_rounded (Product.price doc))|].
    by apply (settled_again (Product.price doc)). }
  destruct Hcases as [-> | ->]; [done|].
  destruct Hprice as [Hm|Hs]; [|done].
  exists r. split; [done|].
  (* the document is unchanged: its price is zero, or the rounding gave it back *)
  unfold Product.pre_save_double, truthy in Hsaved.
  destruct (Qeq_bool (Product.price doc) 0) eqn:Hzero; simpl in Hsaved.
  - apply Qeq_bool_iff in Hzero. rewrite (round_price_zero _ Hzero) in Hr.
    injection Hr as <-. by symmetry.
  - rewrite Hr in Hsaved. injection Hsaved as Hsaved.
    apply (f_equal Product.price) in Hsaved. simpl in Hsaved. by rewrite Hsaved.
Qed.

Lemma step_prices_rounded store op :
  (∀ p, Store.payload_price op = Some p → moderate p) →
  prices_rounded store → prices_rounded (Store.step store op).
Proof.
  intros Hpayload Hinv. destruct op as [id now data|id now partial|id]; simpl.
  - unfold Store.create. intros id' doc Hdoc.
    destruct (decide (id' = id)) as [->|Hne].
    + rewrite lookup_insert_eq in Hdoc. injection Hdoc as <-.
      apply save_settled. left. simpl. by apply Hpayload.
    + rewrite lookup_insert_ne in Hdoc by done. by apply (Hinv id').
  - unfold Store.update. destruct (store !! id) as [old|] eqn:Hold; simpl; [|done].
    intros id' doc Hdoc.
    destruct (decide (id' = id)) as [->|Hne].
    + rewrite lookup_insert_eq in Hdoc. injection Hdoc as <-.
      apply save_settled. simpl.
      destruct (Store.new_price partial) as [p|] eqn:Hp; simpl.
      * left. by apply Hpayload.
      * right. by apply (Hinv id).
    + rewrite lookup_insert_ne in Hdoc by done. by apply (Hinv id').
  - unfold Store.remove. destruct (store !! id) as [old|]; simpl; [|done].
    intros id' doc Hdoc. apply lookup_delete_Some in Hdoc as [_ Hdoc]. by apply (Hinv id').
Qed.

Lemma run_prices_rounded ops store :
  Forall (λ op, ∀ p, Store.payload_price op = Some p → moderate p) ops →
  prices_rounded store → prices_rounded (Store.run ops store).
Proof.
  unfold Store.run. intros Hops. revert store.
  induction Hops as [|op ops Hop _ IH]; intros store Hinv; simpl; [done|].
  apply IH. by apply step_prices_rounded.
Qed.

(** C4 (as stated, fails), on two counts.  A product created with the
    price 2.675, which as a double is just below 2.675 and rounds to
    2.67, is stored with the price 2.68: the product of the price and
    100 is rounded to 267.5.  A product created with the price
    35212668672693.266 is stored with the price 35212668672693.27, and
    [Math.round(price * 100) / 100] of the stored price is
    35212668672693.28: the stored product does not satisfy
    [price = round(price * 100) / 100]. *)
Lemma C4_counterexample :
  (round (107 # 40) = Some Samples.half_cent_price
   ∧ (round2 Samples.half_cent_price == 267 # 100)%Q
   ∧ ∃ doc, Store.create "id-8" 1 Samples.half_cent_product ∅ !! "id-8" = Some doc
       ∧ Some (Product.price doc) = round (268 # 100))
  ∧ round Samples.large_price = Some Samples.large_price
  ∧ ∃ doc, Store.create "id-9" 1 Samples.costly_product ∅ !! "id-9" = Some doc
      ∧ Product.price doc = (4507221590104739 # 128)%Q
      ∧ Product.round_price (Product.price doc) = Some (1126805397526185 # 32)%Q
      ∧ ¬ settled (Product.price doc).
Proof.
  split.
  { split; [by vm_compute|]. split; [by vm_compute|].
    eexists. split; by vm_compute. }
  split; [by vm_compute|].
  eexists. split; [by vm_compute|]. split; [reflexivity|].
  assert (H : Product.round_price (4507221590104739 # 128)
              = Some (1126805397526185 # 32)%Q) by (by vm_compute).
  split; [exact H|].
  intros (r & Hr & Heq). simpl in Hr. rewrite H in Hr. injection Hr as <-.
  by vm_compute in Heq.
Qed.

(** C4 (amended): for a price of at most [10^13] in magnitude, the
    product written to the store by a create, or by an update that
    sets the price, carries [Math.round(price * 100) / 100] as the
    doubles compute it: a price within half a cent of the price of the
    payload, up to the rounding of the doubles, that satisfies
    [price = round(price * 100) / 100]; and after any sequence of store
    operations whose prices are in that range every stored product
    satisfies it. *)
Theorem C4_persisted_price_is_rounded :
  (∀ id now data store, moderate (Store.data_price data) →
     ∃ doc r, Store.create id now data store !! id = Some doc
       ∧ Product.round_price (Store.data_price data) = Some r
       ∧ (Product.price doc == r)%Q
       ∧ settled (Product.price doc)
       ∧ (Qabs (Product.price doc - Store.data_price data)
          <= (1 # 200) + (Qabs (Store.data_price data) + (1 # 200)) * 2 ^ (-51))%Q)
  ∧ (∀ id now partial store store' p,
       Store.update id now partial store = Some store' →
       Store.new_price partial = Some p → moderate p →
       ∃ doc r, store' !! id = Some doc
         ∧ Product.round_price p = Some r
         ∧ (Product.price doc == r)%Q
         ∧ settled (Product.price doc)
         ∧ (Qabs (Product.price doc - p)
            <= (1 # 200) + (Qabs p + (1 # 200)) * 2 ^ (-51))%Q)
  ∧ (∀ store op, (∀ p, Store.payload_price op = Some p → moderate p) →
       prices_rounded store → prices_rounded (Store.step store op))
  ∧ (∀ ops, Forall (λ op, ∀ p, Store.payload_price op = Some p → moderate p) ops →
       prices_rounded (Store.run ops ∅)).
Proof.
  assert (Hsaved : ∀ doc, moderate (Product.price doc) →
    ∃ r, Product.round_price (Product.price doc) = Some r
      ∧ (Product.price (Store.save doc) == r)%Q
      ∧ settled (Product.price (Store.save doc))
      ∧ (Qabs (Product.price (Store.save doc) - Product.price doc)
         <= (1 # 200) + (Qabs (Product.price doc) + (1 # 200)) * 2 ^ (-51))%Q).
  { intros doc Hm. destruct (round_price_finite _ Hm) as [r Hr].
    exists r. split; [done|].
    destruct (save_spec doc r Hr) as (Hp & _).
    split; [done|]. split; [apply save_settled; by left|].
    rewrite Hp. by apply round_price_error. }
  split; [|split; [|split]].
  - intros id now data store Hm.
    destruct (Hsaved (Store.new_document now data) Hm) as (r & Hr & Hp & Hs & Hd).
    exists (Store.save (Store.new_document now data)), r.
    split; [unfold Store.create; apply lookup_insert_eq|done].
  - intros id now partial store store' p Hupdate Hprice Hm.
    unfold Store.update in Hupdate.
    destruct (store !! id) as [old|]; [|done]. injection Hupdate as <-.
    assert (Hnew : Product.price (Store.updated_document now partial old) = p).
    { simpl. by rewrite Hprice. }
    destruct (Hsaved (Store.updated_document now partial old)) as (r & Hr & Hp & Hs & Hd).
    { by rewrite Hnew. }
    rewrite Hnew in Hr, Hd.
    exists (Store.save (Store.updated_document now partial old)), r.
    split; [apply lookup_insert_eq|done].
  - apply step_prices_rounded.
  - intros ops Hops. apply run_prices_rounded; [done|].
    intros id doc Hdoc. by rewrite lookup_empty in Hdoc.
Qed.

Lemma C4_persisted_price_witness :
  (∃ doc r, Store.create "id-4" 7 (Samples.product "Lamp" (97 # 8) "Home" 2) ∅ !! "id-4"
            = Some doc
     ∧ Product.round_price (97 # 8) = Some r
     ∧ (Product.price doc == r)%Q
     ∧ settled (Product.price doc)
     ∧ (Qabs (Product.price doc - (97 # 8))
        <= (1 # 200) + (Qabs (97 # 8) + (1 # 200)) * 2 ^ (-51))%Q)
  ∧ round (1213 # 100) = Product.round_price (97 # 8)
  ∧ prices_rounded Samples.three_products.
Proof.
  destruct C4_persisted_price_is_rounded as (Hcreate & _ & _ & Hrun).
  split; [|split].
  - apply (Hcreate "id-4" 7%Z (Samples.product "Lamp" (97 # 8) "Home" 2) ∅).
    apply Qle_bool_iff. by vm_compute.
  - by vm_compute.
  - apply Hrun. repeat constructor; intros p [= <-]; apply Qle_bool_iff; by vm_compute.
Defined.

End persisted_prices.

(* ===================================================================== *)
(** ** Further properties of the pre-save middleware on doubles          *)
(* ===================================================================== *)

Section pre_save_double_more.
Import JS Gate Binary64.

(** X6: the pre-save middleware, as the doubles compute it, changes
    nothing but the price, and, when the product of the price and 100
    does not overflow, it moves the price by at most half a cent and
    the rounding errors of the product and of the quotient, which are
    at most [(|price| + 0.005) / 2^51] together. *)
Theorem X6_pre_save_moves_price_by_half_a_cent (doc saved : Product.document) :
  Product.pre_save_double doc = Some saved →
  Product.name saved = Product.name doc
  ∧ Product.description saved = Product.description doc
  ∧ Product.category saved = Product.category doc
  ∧ Product.stock saved = Product.stock doc
  ∧ Product.createdAt saved = Product.createdAt doc
  ∧ Product.updatedAt saved = Product.updatedAt doc
  ∧ (Qabs (Product.price saved - Product.price doc)
     <= (1 # 200) + (Qabs (Product.price doc) + (1 # 200)) * 2 ^ (-51))%Q.
Proof.
  unfold Product.pre_save_double.
  destruct (truthy _).
  - destruct (Product.round_price (Product.price doc)) as [r|] eqn:Hr; [|done].
    intros [= <-]. simpl. repeat (split; [done|]). by apply round_price_error.
  - intros [= <-]. repeat (split; [done|]).
    assert (E : (Product.price doc - Product.price doc == 0)%Q) by ring.
    rewrite E. change (Qabs 0) with 0%Q.
    pose proof (Qabs_nonneg (Product.price doc)).
    assert (E51 : (2 ^ (-51) == 4 # 9007199254740992)%Q) by reflexivity.
    rewrite E51. set (a := Qabs _) in *. clearbody a. lra.
Qed.

Lemma X6_pre_save_witness :
  ∃ saved, Product.pre_save_double
             {| Product.name := "Desk"; Product.description := None;
                Product.price := 2253610795052369 # 64;
                Product.category := "Office"; Product.stock := 4;
                Product.createdAt := 5; Product.updatedAt := 5 |} = Some saved
    ∧ Product.price saved = (4507221590104739 # 128)%Q
    ∧ Product.name saved = "Desk"
    ∧ (Qabs (Product.price saved - (2253610795052369 # 64))
       <= (1 # 200) + (Qabs (2253610795052369 # 64) + (1 # 200)) * 2 ^ (-51))%Q.
Proof.
  eexists. split; [by vm_compute|]. split; [reflexivity|]. split; [reflexivity|].
  eapply (X6_pre_save_moves_price_by_half_a_cent
            {| Product.name := "Desk"; Product.description := None;
               Product.price := 2253610795052369 # 64;
               Product.category := "Office"; Product.stock := 4;
               Product.createdAt := 5; Product.updatedAt := 5 |}).
  by vm_compute.
Defined.

(** X7: for a price of at most [10^13] in magnitude, saving twice is
    saving once: the pre-save middleware, as the doubles compute it,
    answers, and it leaves the document that it made exactly as it
    is. *)
Theorem X7_pre_save_idempotent (doc : Product.document) :
  moderate (Product.price doc) →
  ∃ saved, Product.pre_save_double doc = Some saved
    ∧ Product.pre_save_double saved = Some saved.
Proof.
  intros Hm. unfold Product.pre_save_double at 1.
  destruct (truthy (Some (VNum (Product.price doc)))) eqn:Hfirst.
  2: { exists doc. split; [done|]. unfold Product.pre_save_double. by rewrite Hfirst. }
  destruct (round_price_finite _ Hm) as [r Hr]. rewrite Hr.
  eexists. split; [done|].
  unfold Product.pre_save_double. simpl Product.price.
  destruct (truthy (Some (VNum r))); [|done].
  by rewrite (round_price_settles _ _ Hm Hr).
Qed.

Lemma X7_pre_save_witness :
  ∃ saved, Product.pre_save_double
             {| Product.name := "Desk"; Product.description := None;
                Product.price := 97 # 8;
                Product.category := "Office"; Product.stock := 4;
                Product.createdAt := 5; Product.updatedAt := 5 |} = Some saved
    ∧ Product.pre_save_double saved = Some saved.
Proof.
  apply (X7_pre_save_idempotent
           {| Product.name := "Desk"; Product.description := None;
              Product.price := 97 # 8;
              Product.category := "Office"; Product.stock := 4;
              Product.createdAt := 5; Product.updatedAt := 5 |}).
  apply Qle_bool_iff. by vm_compute.
Defined.

(** Beyond that range the middleware may move a price that it has
    rounded: 35212668672693.27 becomes 35212668672693.28. *)
Example pre_save_double_moves_again :
  Product.round_price Samples.large_price = Some (4507221590104739 # 128)%Q
  ∧ Product.round_price (4507221590104739 # 128) = Some (1126805397526185 # 32)%Q.
Proof. split; by vm_compute. Qed.

(** The doubles nearest to 1.005 and to 2.675 are stored as 1 and as
    the double nearest to 2.68. *)
Example pre_save_double_halves :
  round (1005 # 1000) = Some (1131529406376837 # 1125899906842624)%Q
  ∧ Product.round_price (1131529406376837 # 1125899906842624) = Some 1%Q
  ∧ round (2675 # 1000) = Some (3011782250804019 # 1125899906842624)%Q
  ∧ Product.round_price (3011782250804019 # 1125899906842624) = round (268 # 100).
Proof. repeat split; by vm_compute. Qed.

End pre_save_double_more.

(* ===================================================================== *)
(** ** The rules of an update                                            *)
(* ===================================================================== *)

Section update_rules.
Import Http JS Gate.

(** A body without any field of the schema: no field is in error, and
    nothing is left of the body once the unknown fields are removed. *)
Lemma update_without_fields (input : gmap string value) :
  (∀ k, Joi.known Schemas.updateProductSchema k = true → input !! k = None) →
  violations_of_fields Schemas.updateProductSchema input = []
  ∧ normalized Schemas.updateProductSchema input = ∅.
Proof.
  intros Hnone.
  assert (Hagree : ∀ k, k ∈ map fst (Joi.keys Schemas.updateProductSchema) →
                     input !! k = (∅ : gmap string value) !! k).
  { intros k Hk. rewrite lookup_empty. apply Hnone. by apply known_elem_of. }
  rewrite (normalized_ext _ input ∅ Hagree).
  rewrite <- errors_of_fields_violations. unfold errors_of_fields.
  rewrite (flat_map_field_errors_ext input ∅ _ Hagree).
  split; by vm_compute.
Qed.

(** C8 (as stated, fails): the body [{ name: "x", price: -1 }] has a
    valid field, [name], and the gate rejects it, for its price. *)
Lemma C8_counterexample :
  (∃ s, ("name", s) ∈ Joi.keys Schemas.updateProductSchema
      ∧ req_body Samples.partly_valid_update !! "name" = Some (VStr "x")
      ∧ field_violations s "name" (Some (VStr "x")) = []
      ∧ Joi.value_of (Joi.validate_field options s "name" (Some (VStr "x")))
        = Some (VStr "x"))
  ∧ Validation.validate Schemas.updateProductSchema body Samples.partly_valid_update
    = respond (failure
        [ {| Joi.detail_message := Joi.Text "Price must be a positive number";
             Joi.detail_path := ["price"];
             Joi.detail_type := "number.positive";
             Joi.detail_value := Joi.scalar (VNum (-1)) |} ])
  ∧ rejected (Validation.validate Schemas.updateProductSchema body
                Samples.partly_valid_update).
Proof.
  assert (H : Validation.validate Schemas.updateProductSchema body
                Samples.partly_valid_update
    = respond (failure
        [ {| Joi.detail_message := Joi.Text "Price must be a positive number";
             Joi.detail_path := ["price"];
             Joi.detail_type := "number.positive";
             Joi.detail_value := Joi.scalar (VNum (-1)) |} ])) by (by vm_compute).
  split; [|split].
  - eexists. split; [apply assoc_elem_of; reflexivity|].
    split; [reflexivity|]. split; by vm_compute.
  - exact H.
  - rewrite H. eexists. split; [|reflexivity]. done.
Qed.

(** C8 (amended): an update whose body has no field of the schema is
    rejected by the gate with HTTP 400 and kind VALIDATION_ERROR, and
    the handler of PUT /products/:id, hence the store, is not reached;
    a body with at least one field of the schema and no field in error
    passes the gate. *)
Theorem C8_update_needs_a_field :
  (∀ req, (∀ k, Joi.known Schemas.updateProductSchema k = true → req_body req !! k = None) →
     Validation.validate Schemas.updateProductSchema body req
       = respond (failure [Joi.object_error "object.min" ∅])
     ∧ rejected (Validation.validate Schemas.updateProductSchema body req))
  ∧ (∀ (R : Type) (auth : request → outcome) (updateProduct : request → R) req0 req,
       auth req0 = next req →
       (∀ k, Joi.known Schemas.updateProductSchema k = true → req_body req !! k = None) →
       Routes.put_product auth updateProduct req0
         = Routes.answered (failure [Joi.object_error "object.min" ∅]))
  ∧ (∀ req k,
       Joi.known Schemas.updateProductSchema k = true →
       is_Some (req_body req !! k) →
       violations_of_fields Schemas.updateProductSchema (req_body req) = [] →
       Validation.validate Schemas.updateProductSchema body req
         = next (set body (normalized Schemas.updateProductSchema (req_body req)) req)).
Proof.
  assert (Hempty : ∀ req,
     (∀ k, Joi.known Schemas.updateProductSchema k = true → req_body req !! k = None) →
     Validation.validate Schemas.updateProductSchema body req
       = respond (failure [Joi.object_error "object.min" ∅])).
  { intros req Hbody.
    rewrite (gate_cases _ _ _ updateProductSchema_keys updateProductSchema_custom).
    simpl get. destruct (update_without_fields _ Hbody) as [Hf Hn].
    rewrite Hf. unfold violations_of_object. rewrite Hn. by vm_compute. }
  split; [|split].
  - intros req Hbody. split; [by apply Hempty|].
    rewrite (Hempty req Hbody). eexists. split; [|reflexivity]. done.
  - intros R auth updateProduct req0 req Hauth Hbody.
    unfold Routes.put_product, Routes.route. rewrite Hauth.
    by rewrite (Hempty req Hbody).
  - intros req k Hknown [v Hfield] Hfields.
    apply known_elem_of, list_elem_of_fmap in Hknown as ([k' s] & -> & Hin). simpl in *.
    assert (Hobj : violations_of_object Schemas.updateProductSchema (req_body req) = []).
    { unfold violations_of_object. cbn [Joi.object_rules Schemas.updateProductSchema
        Joi.min Joi.min_object Joi.object app omap list_omap object_violation].
      assert (Hsize : size (normalized Schemas.updateProductSchema (req_body req)) ≠ 0%nat).
      { apply (map_size_ne_0_lookup_2 _ k').
        rewrite (normalized_known _ _ k' s updateProductSchema_keys Hin).
        unfold field_result. simpl fst. simpl snd. rewrite Hfield.
        apply validate_field_value_Some. }
      destruct (1 <=? Z.of_nat _)%Z eqn:Hle; [done|].
      apply Z.leb_gt in Hle. lia. }
    rewrite (gate_cases _ _ _ updateProductSchema_keys updateProductSchema_custom).
    simpl get. by rewrite Hfields, Hobj.
Qed.

Lemma C8_update_witness :
  rejected (Validation.validate Schemas.updateProductSchema body
              (Samples.with_body {[ "role" := VStr "admin" ]}))
  ∧ Validation.validate Schemas.updateProductSchema body Samples.update_with_unknown_field
    = next (Samples.with_body {[ "name" := VStr "Updated Product" ]}).
Proof.
  destruct C8_update_needs_a_field as (Hnone & _ & Hsome).
  split.
  - apply Hnone. intros k Hk.
    apply known_elem_of, list_elem_of_In in Hk. simpl in Hk.
    repeat (destruct Hk as [<-|Hk]; [reflexivity|]). done.
  - rewrite (Hsome Samples.update_with_unknown_field "name");
      [by vm_compute|reflexivity|by eexists|by vm_compute].
Defined.

End update_rules.

(* ===================================================================== *)
(** ** The violations that the gate lists                                *)
(* ===================================================================== *)

Section all_violations.
Import Http JS Gate.






End all_violations.

(* ===================================================================== *)
(** ** From the gate to the model                                        *)
(* ===================================================================== *)

Section model_more.
Import Http JS Gate Contract Binary64.

#[local] Existing Instance round_proper.












End model_more.
